(** * WTLeistung: the psychrometric engine of the HVAC calculator

    Shallow embedding of [services/hvacCalculator.ts] (the function
    [calculateHvacPerformance] and its three helpers), of the two
    interfaces of [types.ts], of the handlers of
    [components/InputSlider.tsx] and of the state, the sliders and the
    result tiles of [App.tsx].

    A TypeScript [number] is an IEEE 754 binary64 value, so it is modelled
    by Rocq's primitive [float]: [+ - * /], [Math.abs], [Math.sqrt] and the
    comparisons are the correctly rounded, NaN-aware operations of the
    machine.  [Math.exp] and [Math.log] are supplied by the JavaScript host;
    ECMA-262 fixes only their values at the special arguments, so they are a
    parameter of the development ([MathHost]), and [reference_host] is one
    executable instance.  [parseFloat] and [Number] are treated alike
    ([StringHost], [reference_strings]).

    Layout: the embedding ([JS], the two records, [Calc], [Slider], [App]),
    auxiliary definitions, facts about binary64 arithmetic, one theorem per
    claim, and further properties of the code. *)

From Stdlib Require Import ZArith Lia Bool Floats.
From Stdlib Require Reals.
From Stdlib Require String Ascii List.
From Stdlib Require Import Lra.

Set Warnings "-inexact-float".

(** ** JavaScript numbers *)

Module JS.

Local Open Scope float_scope.

Definition number := float.

Definition Infinity : number := infinity.
Definition NaN : number := nan.

(** The global [isFinite] applied to a number. *)
Definition isFinite (x : number) : bool := is_finite x.

Definition is_pos_zero (x : number) : bool := is_zero x && negb (get_sign x).
Definition is_neg_zero (x : number) : bool := is_zero x && get_sign x.

(** [Math.max(a, b)] (ECMA-262 21.3.2.24): NaN if an argument is NaN, the
    scan starts from -Infinity and treats +0 as larger than -0. *)
Definition Math_max (a b : number) : number :=
  if is_nan a || is_nan b then NaN
  else if is_pos_zero b && is_neg_zero a then b
  else if a <? b then b else a.

(** [Math.min(a, b)] (ECMA-262 21.3.2.25). *)
Definition Math_min (a b : number) : number :=
  if is_nan a || is_nan b then NaN
  else if is_neg_zero b && is_pos_zero a then b
  else if b <? a then b else a.

Definition Math_abs (x : number) : number := PrimFloat.abs x.
Definition Math_sqrt (x : number) : number := PrimFloat.sqrt x.
Definition Math_PI : number := 3.141592653589793.

(** The part of [Math] that the host approximates.  The laws are the
    special values that ECMA-262 (21.3.2.14 and 21.3.2.20) prescribes. *)
Class MathHost := {
  Math_exp : number -> number;
  Math_log : number -> number;
  exp_NaN : Math_exp NaN = NaN;
  exp_pos_zero : Math_exp 0 = 1;
  exp_neg_zero : Math_exp (-0) = 1;
  exp_pos_inf : Math_exp Infinity = Infinity;
  exp_neg_inf : Math_exp (- Infinity) = 0;
  log_NaN : Math_log NaN = NaN;
  log_negative : forall x, (x <? 0) = true -> Math_log x = NaN;
  log_pos_zero : Math_log 0 = - Infinity;
  log_neg_zero : Math_log (-0) = - Infinity;
  log_one : Math_log 1 = 0;
  log_pos_inf : Math_log Infinity = Infinity
}.

(** Outcome of running a block of statements. *)
Inductive completion (A : Type) : Type :=
| Normal (value : A)
| Throw (error : unit).
Arguments Normal {A} value.
Arguments Throw {A} error.

(** [try { body } catch (error) { return null }] *)
Definition try_catch_null {A : Type} (body : completion A) : option A :=
  match body with
  | Normal v => Some v
  | Throw _ => None
  end.

End JS.

(** ** types.ts *)

Record HvacInputs := {
  outsideTemp : JS.number;
  outsideHumidity : JS.number;
  volumeFlow : JS.number;
  targetTemp : JS.number;
  supplyTemp : JS.number;
  returnTemp : JS.number
}.

Record HvacResults := {
  sensiblePower : JS.number;
  latentPower : JS.number;
  totalPower : JS.number;
  waterVolumeFlow : JS.number;
  finalHumidity : JS.number;
  isHeating : bool;
  dewPoint : JS.number;
  initialAbsoluteHumidity : JS.number;
  finalAbsoluteHumidity : JS.number;
  efficiency : JS.number;
  recommendedPipeDiameter : JS.number
}.

(** ** services/hvacCalculator.ts *)

Module Calc.

Import JS.
Local Open Scope float_scope.

Definition AIR_DENSITY : number := 1.204.
Definition SPECIFIC_HEAT_AIR : number := 1.005.
Definition SPECIFIC_HEAT_WATER : number := 4.186.
Definition WATER_DENSITY : number := 1000.
Definition ATMOSPHERIC_PRESSURE : number := 1013.25.
Definition LATENT_HEAT_VAPORIZATION : number := 2260.
Definition RECOMMENDED_WATER_VELOCITY : number := 1.5.

Section Engine.

Context {host : MathHost}.

Definition calculateSaturationVaporPressure (temp : number) : number :=
  6.112 * Math_exp ((17.67 * temp) / (temp + 243.5)).

Definition calculateDewPoint (vaporPressure : number) : number :=
  let numerator := 243.5 * Math_log (vaporPressure / 6.112) in
  let denominator := 17.67 - Math_log (vaporPressure / 6.112) in
  numerator / denominator.

Definition calculateAbsoluteHumidity (vaporPressure : number) : number :=
  (622 * vaporPressure) / (ATMOSPHERIC_PRESSURE - vaporPressure).

(** The body of the [try] block.  The variables that the source declares
    with [let] and assigns inside a branch ([latentPower_kW],
    [finalAbsoluteHumidity], [finalHumidity], [waterVolumeFlow_m3_per_h],
    [recommendedPipeDiameter], [efficiency]) are threaded through the
    branches; [targetTemp >= dewPoint] is [dewPoint <= targetTemp].  No
    operation on numbers throws, so the block always completes normally. *)
Definition tryBlock (inputs : HvacInputs) : completion HvacResults :=
  let outsideTemp := inputs.(outsideTemp) in
  let outsideHumidity := inputs.(outsideHumidity) in
  let volumeFlow := inputs.(volumeFlow) in
  let targetTemp := inputs.(targetTemp) in
  let supplyTemp := inputs.(supplyTemp) in
  let returnTemp := inputs.(returnTemp) in
  let airMassFlow_kg_per_s := (volumeFlow * AIR_DENSITY) / 3600 in
  (* 2. Power Calculation *)
  let deltaT_air := targetTemp - outsideTemp in
  let isHeating := 0 <? deltaT_air in
  let sensiblePower_kW := airMassFlow_kg_per_s * SPECIFIC_HEAT_AIR * deltaT_air in
  let latentPower_kW := 0 in
  (* 3. Humidity Calculation *)
  let initialSatPressure := calculateSaturationVaporPressure outsideTemp in
  let initialVaporPressure := (outsideHumidity / 100) * initialSatPressure in
  let dewPoint := calculateDewPoint initialVaporPressure in
  let initialAbsoluteHumidity := calculateAbsoluteHumidity initialVaporPressure in
  let finalAbsoluteHumidity := initialAbsoluteHumidity in
  let '(finalHumidity, finalAbsoluteHumidity, latentPower_kW) :=
    if isHeating then
      let finalSatPressure := calculateSaturationVaporPressure targetTemp in
      let finalHumidity := (initialVaporPressure / finalSatPressure) * 100 in
      (finalHumidity, finalAbsoluteHumidity, latentPower_kW)
    else if dewPoint <=? targetTemp then
      let finalSatPressure := calculateSaturationVaporPressure targetTemp in
      let finalHumidity := (initialVaporPressure / finalSatPressure) * 100 in
      (finalHumidity, finalAbsoluteHumidity, latentPower_kW)
    else
      let finalHumidity := 100 in
      let finalSatPressure := calculateSaturationVaporPressure targetTemp in
      let finalAbsoluteHumidity := calculateAbsoluteHumidity finalSatPressure in
      let deltaAbsoluteHumidity_g_per_kg := initialAbsoluteHumidity - finalAbsoluteHumidity in
      let waterCondensed_kg_per_s :=
        airMassFlow_kg_per_s * (deltaAbsoluteHumidity_g_per_kg / 1000) in
      let latentPower_kW := - Math_abs (waterCondensed_kg_per_s * LATENT_HEAT_VAPORIZATION) in
      (finalHumidity, finalAbsoluteHumidity, latentPower_kW) in
  let finalHumidity := Math_max 0 (Math_min finalHumidity 100) in
  let totalPower_kW := sensiblePower_kW + latentPower_kW in
  (* 4. Water Volume Flow & Pipe Diameter *)
  let deltaT_water := Math_abs (supplyTemp - returnTemp) in
  let waterVolumeFlow_m3_per_h := Infinity in
  let recommendedPipeDiameter := Infinity in
  let '(waterVolumeFlow_m3_per_h, recommendedPipeDiameter) :=
    if 0 <? deltaT_water then
      let waterMassFlow_kg_per_s :=
        Math_abs totalPower_kW / (SPECIFIC_HEAT_WATER * deltaT_water) in
      let waterVolumeFlow_m3_per_h := (waterMassFlow_kg_per_s * 3600) / WATER_DENSITY in
      if isFinite waterVolumeFlow_m3_per_h then
        let waterFlow_m3_per_s := waterVolumeFlow_m3_per_h / 3600 in
        let area_m2 := waterFlow_m3_per_s / RECOMMENDED_WATER_VELOCITY in
        let diameter_m := Math_sqrt ((4 * area_m2) / Math_PI) in
        let recommendedPipeDiameter := diameter_m * 1000 in
        (waterVolumeFlow_m3_per_h, recommendedPipeDiameter)
      else (waterVolumeFlow_m3_per_h, recommendedPipeDiameter)
    else (waterVolumeFlow_m3_per_h, recommendedPipeDiameter) in
  (* 5. Efficiency Calculation *)
  let efficiency := 0 in
  let potential_deltaT := supplyTemp - outsideTemp in
  let validScenario :=
    (isHeating && (0 <? potential_deltaT)) || (negb isHeating && (potential_deltaT <? 0)) in
  let efficiency :=
    if validScenario && (1e-6 <? Math_abs potential_deltaT)
    then (targetTemp - outsideTemp) / potential_deltaT
    else efficiency in
  let efficiency := Math_max 0 (Math_min efficiency 1) in
  Normal {|
    sensiblePower := sensiblePower_kW;
    latentPower := latentPower_kW;
    totalPower := totalPower_kW;
    waterVolumeFlow := waterVolumeFlow_m3_per_h;
    finalHumidity := finalHumidity;
    isHeating := isHeating;
    dewPoint := dewPoint;
    initialAbsoluteHumidity := initialAbsoluteHumidity;
    finalAbsoluteHumidity := finalAbsoluteHumidity;
    efficiency := efficiency;
    recommendedPipeDiameter := recommendedPipeDiameter
  |}.

Definition calculateHvacPerformance (inputs : HvacInputs) : option HvacResults :=
  try_catch_null (tryBlock inputs).

End Engine.

Arguments calculateSaturationVaporPressure : clear implicits.
Arguments calculateDewPoint : clear implicits.
Arguments calculateAbsoluteHumidity : clear implicits.
Arguments tryBlock : clear implicits.
Arguments calculateHvacPerformance : clear implicits.

End Calc.

(** ** The blocks of the [try] body, one function each

    These restate the three blocks of [tryBlock] so that they can be
    reasoned about separately; [Run.calculateHvacPerformance_eq] shows that
    the engine computes exactly them. *)

Module Parts.

Import JS Calc.
Local Open Scope float_scope.

(** The humidity block: the final relative humidity before clamping, the
    final absolute humidity and the latent power. *)
Definition humidityPath (host : MathHost) (isHeating : bool)
    (airMassFlow_kg_per_s targetTemp initialVaporPressure dewPoint
     initialAbsoluteHumidity : number) : number * number * number :=
  if isHeating then
    ((initialVaporPressure / calculateSaturationVaporPressure host targetTemp) * 100,
     initialAbsoluteHumidity, 0)
  else if dewPoint <=? targetTemp then
    ((initialVaporPressure / calculateSaturationVaporPressure host targetTemp) * 100,
     initialAbsoluteHumidity, 0)
  else
    let finalAbsoluteHumidity :=
      calculateAbsoluteHumidity (calculateSaturationVaporPressure host targetTemp) in
    (100, finalAbsoluteHumidity,
     - Math_abs (airMassFlow_kg_per_s *
                 ((initialAbsoluteHumidity - finalAbsoluteHumidity) / 1000) *
                 LATENT_HEAT_VAPORIZATION)).

Definition flowOf (totalPower_kW deltaT_water : number) : number :=
  ((Math_abs totalPower_kW / (SPECIFIC_HEAT_WATER * deltaT_water)) * 3600) / WATER_DENSITY.

Definition diameterOf (waterVolumeFlow_m3_per_h : number) : number :=
  Math_sqrt ((4 * ((waterVolumeFlow_m3_per_h / 3600) / RECOMMENDED_WATER_VELOCITY)) / Math_PI)
  * 1000.

(** The water block: volume flow and pipe diameter. *)
Definition waterSizing (totalPower_kW supplyTemp returnTemp : number) : number * number :=
  let deltaT_water := Math_abs (supplyTemp - returnTemp) in
  if 0 <? deltaT_water then
    (flowOf totalPower_kW deltaT_water,
     if isFinite (flowOf totalPower_kW deltaT_water)
     then diameterOf (flowOf totalPower_kW deltaT_water)
     else Infinity)
  else (Infinity, Infinity).

(** The efficiency block. *)
Definition efficiencyOf (isHeating : bool) (outsideTemp targetTemp supplyTemp : number) : number :=
  let potential_deltaT := supplyTemp - outsideTemp in
  let validScenario :=
    (isHeating && (0 <? potential_deltaT)) || (negb isHeating && (potential_deltaT <? 0)) in
  Math_max 0 (Math_min
    (if validScenario && (1e-6 <? Math_abs potential_deltaT)
     then (targetTemp - outsideTemp) / potential_deltaT
     else 0) 1).

End Parts.

(** ** The real number behind a binary64 value

    [value] reads a finite [number] as the real number it stands for, so
    that what the engine computes can be compared with the formulas over
    the reals.  [near] is the error that one correctly rounded operation
    makes: relative error [unit_roundoff = 2^-53] for a result in the normal
    range, absolute error [eta = 2^-1075] for a subnormal one. *)

Module RealValue.

Import Reals.
Local Open Scope R_scope.

Definition pow2 (e : Z) : R := powerRZ 2 e.

(** The real number a binary64 value stands for; 0 for NaN and infinities. *)
Definition SF2R (a : spec_float) : R :=
  match a with
  | S754_finite s m e => IZR (cond_Zopp s (Zpos m)) * pow2 e
  | _ => 0
  end.

Definition value (x : float) : R := SF2R (Prim2SF x).

(** Half an ulp of a normal number, relative to it; half the smallest
    subnormal. *)
Definition unit_roundoff : R := pow2 (-53).
Definition eta : R := pow2 (-1075).

(** [z] is [x] up to the relative error [u] and the absolute error [eta]. *)
Definition near (u eta z x : R) : Prop := Rabs (z - x) <= u * Rabs x + eta.

Definition sgn (s : bool) : R := if s then -1 else 1.

(** Zero or a finite number. *)
Definition finite_like (a : spec_float) : bool :=
  match a with S754_zero _ | S754_finite _ _ _ => true | _ => false end.

(** [r] is a rounding of the real [x]. *)
Definition rounds (r : spec_float) (x : R) : Prop :=
  finite_like r = true /\ Rabs (SF2R r - x) <= unit_roundoff * Rabs x + eta.

(** [z] is a finite number that is a rounding of the real [x]. *)
Definition approx (z : float) (x : R) : Prop :=
  is_finite z = true /\ near unit_roundoff eta (value z) x.

End RealValue.

(** ** Where a quotient lies between two integers

    The bookkeeping of [SpecFloat]'s rounding: a shift record that stands
    for the fraction [N / D]. *)

Module Location.

Local Open Scope Z_scope.

(** Where the fraction [r / D] lies in its unit interval. *)
Definition loc_of (r D : Z) : location :=
  if r =? 0 then loc_Exact else loc_Inexact (2 * r ?= D).

(** The record [mrs] holds the integer part of [N / D] and the location of
    its fractional part. *)
Definition holds (mrs : shr_record) (N D : Z) : Prop :=
  0 <= N /\ 0 < D /\ shr_m mrs = N / D /\ loc_of_shr_record mrs = loc_of (N mod D) D.

End Location.

(** ** How accurate the host is

    ECMA-262 leaves the accuracy of [Math.exp] and [Math.log] to the
    implementation.  These two predicates state it at one argument. *)

Module Accuracy.

Import Reals.
Import JS RealValue.
Local Open Scope R_scope.

(** The host's [Math.exp] at [x]: a finite result within the relative
    error [eps] of the exponential of [x]. *)
Definition accurate_exp (host : MathHost) (eps : R) (x : float) : Prop :=
  is_finite (Math_exp x) = true /\
  Rabs (value (Math_exp x) - exp (value x)) <= eps * exp (value x).

(** The host's [Math.log] at [x]: a finite result within the absolute
    error [eps] of the natural logarithm of [x]. *)
Definition accurate_log (host : MathHost) (eps : R) (x : float) : Prop :=
  is_finite (Math_log x) = true /\
  Rabs (value (Math_log x) - ln (value x)) <= eps.

(** The error of the round trip that the error of the host and the
    roundings of the twelve operations can add up to. *)
Definition tolerance (eps : R) : R := 100 * eps + / 10 ^ 12.

(** How far below saturation, relative to it, the air has to be for these
    errors not to show in the comparison with the temperature. *)
Definition margin (eps : R) : R := 3 * eps + / 10 ^ 12.

End Accuracy.

(** ** A reference host

    An executable [Math.exp] and [Math.log] (argument reduction and a
    truncated series).  It shows that the laws of [MathHost] can be met and
    lets the engine run on concrete inputs. *)

Module Reference.

Local Open Scope float_scope.

Definition LN2_HI : float := 0.693147180369123816490.
Definition LN2_LO : float := 1.90821492927058770002e-10.
Definition INV_LN2 : float := 1.44269504088896338700.

Definition nearest_integer (x : float) : float :=
  (x + 6755399441055744) - 6755399441055744.

Definition integer_value (x : float) : Z :=
  match Prim2SF x with
  | S754_finite s m e => cond_Zopp s (Z.shiftl (Zpos m) e)
  | _ => 0%Z
  end.

Fixpoint exp_series (n : nat) (k r : float) : float :=
  match n with
  | O => 1
  | S n' => 1 + (r / k) * exp_series n' (k + 1) r
  end.

Definition reference_exp (x : float) : float :=
  if is_nan x then nan
  else if 709.782712893384 <? x then infinity
  else if x <? -745.1332191019412 then 0
  else
    let k := nearest_integer (x * INV_LN2) in
    let r := (x - k * LN2_HI) - k * LN2_LO in
    Z.ldexp (exp_series 18 1 r) (integer_value k).

Fixpoint atanh_series (n : nat) (k s2 : float) : float :=
  match n with
  | O => 1 / k
  | S n' => 1 / k + s2 * atanh_series n' (k + 2) s2
  end.

Definition float_of_Z (z : Z) : float :=
  match z with
  | Z0 => 0
  | Zpos p => of_uint63 (Uint63.of_Z (Zpos p))
  | Zneg p => - of_uint63 (Uint63.of_Z (Zpos p))
  end.

Definition reference_log (x : float) : float :=
  if is_nan x then nan
  else if x <? 0 then nan
  else if x =? 0 then neg_infinity
  else if x =? infinity then infinity
  else
    let (m, e) := Z.frexp x in
    let '(m, e) := if m <? 0.7071067811865476 then (m * 2, (e - 1)%Z) else (m, e) in
    let s := (m - 1) / (m + 1) in
    2 * s * atanh_series 12 1 (s * s) + float_of_Z e * 0.6931471805599453.

End Reference.

(** ** A host that meets only the prescribed values

    ECMA-262 calls [Math.exp] and [Math.log] implementation-approximated
    and prescribes their values at the special arguments only.  This host
    returns 1 and 0 at every other argument. *)

Module Crude.

Local Open Scope float_scope.

Definition crude_exp (x : float) : float :=
  if is_nan x then nan
  else if x =? infinity then infinity
  else if x =? neg_infinity then 0
  else 1.

Definition crude_log (x : float) : float :=
  if is_nan x then nan
  else if x <? 0 then nan
  else if x =? 0 then neg_infinity
  else if x =? infinity then infinity
  else 0.

End Crude.

(** ** Input snapshots used below *)

Module Inputs.

Local Open Scope float_scope.

(** The initial state of [App.tsx] (heating). *)
Definition scenario_heating : HvacInputs :=
  {| outsideTemp := 10; outsideHumidity := 60; volumeFlow := 2000;
     targetTemp := 22; supplyTemp := 60; returnTemp := 40 |}.

(** Cooling below the dew point. *)
Definition scenario_cooling : HvacInputs :=
  {| outsideTemp := 30; outsideHumidity := 70; volumeFlow := 2000;
     targetTemp := 12; supplyTemp := 6; returnTemp := 12 |}.

(** Cooling that stays above the dew point. *)
Definition scenario_dry_cooling : HvacInputs :=
  {| outsideTemp := 30; outsideHumidity := 40; volumeFlow := 2000;
     targetTemp := 25; supplyTemp := 6; returnTemp := 12 |}.

(** Completely dry outside air: every field inside its slider range. *)
Definition dry_air : HvacInputs :=
  {| outsideTemp := 0; outsideHumidity := 0; volumeFlow := 2000;
     targetTemp := 22; supplyTemp := 60; returnTemp := 40 |}.

(** The heating scenario with another flow, target and water loop. *)
Definition scenario_heating_other_coil : HvacInputs :=
  {| outsideTemp := 10; outsideHumidity := 60; volumeFlow := 5000;
     targetTemp := 35; supplyTemp := 80; returnTemp := 55 |}.

(** Dry air at 23 K heated to the pole of the Magnus exponent. *)
Definition cold_dry_heating : HvacInputs :=
  {| outsideTemp := -250; outsideHumidity := 0; volumeFlow := 2000;
     targetTemp := -243.5; supplyTemp := 60; returnTemp := 40 |}.

(** A volume flow whose product with the air density overflows. *)
Definition overflowing_flow : HvacInputs :=
  {| outsideTemp := 20; outsideHumidity := 50; volumeFlow := 1.7e308;
     targetTemp := 20; supplyTemp := 60; returnTemp := 40 |}.

Definition overflowing_flow_chilled : HvacInputs :=
  {| outsideTemp := 30; outsideHumidity := 40; volumeFlow := 1.7e308;
     targetTemp := 30; supplyTemp := 6; returnTemp := 12 |}.

(** Dry air cooled to the pole of the Magnus exponent by an overflowing flow. *)
Definition cold_dry_overflow : HvacInputs :=
  {| outsideTemp := 0; outsideHumidity := 0; volumeFlow := 1.7e308;
     targetTemp := -243.5; supplyTemp := 60; returnTemp := 40 |}.

(** The heating scenario with equal supply and return temperatures. *)
Definition idle_water_loop : HvacInputs :=
  {| outsideTemp := 10; outsideHumidity := 60; volumeFlow := 2000;
     targetTemp := 22; supplyTemp := 50; returnTemp := 50 |}.

(** Completely dry outside air, cooled: again inside the slider ranges. *)
Definition dry_air_cooling : HvacInputs :=
  {| outsideTemp := 30; outsideHumidity := 0; volumeFlow := 2000;
     targetTemp := 12; supplyTemp := 6; returnTemp := 12 |}.

End Inputs.

(** ** Views of a binary64 value

    Auxiliary notions on [spec_float], the specification of [float]. *)

Module SF.

Local Open Scope Z_scope.

Definition sf_is_nan (a : spec_float) : bool :=
  match a with S754_nan => true | _ => false end.

Definition finite_nonzero (a : spec_float) : bool :=
  match a with S754_finite _ _ _ => true | _ => false end.

Definition sf_sign (a : spec_float) : bool :=
  match a with
  | S754_zero s | S754_infinity s | S754_finite s _ _ => s
  | S754_nan => false
  end.

(** A number that is not NaN and carries the sign bit [s]. *)
Variant signed_like (s : bool) : spec_float -> Prop :=
| sl_zero : signed_like s (S754_zero s)
| sl_finite m e : signed_like s (S754_finite s m e)
| sl_infinity : signed_like s (S754_infinity s).

(** The integer [+-m * 2^(e - ez)]: a finite number scaled to exponent [ez]. *)
Definition aligned (s : bool) (m : positive) (e ez : Z) : Z :=
  cond_Zopp s (Zpos m * 2 ^ (e - ez)).

(** A [float] that is not NaN and whose sign bit is clear. *)
Definition nonneg (x : float) : Prop := signed_like false (Prim2SF x).

(** [c] is a finite, non-zero, positive constant. *)
Definition positive_constant (c : float) : Prop :=
  finite_nonzero (Prim2SF c) = true /\ sf_sign (Prim2SF c) = false.

End SF.

(** ** Text and the host's conversions

    [Number.prototype.toString] and [Number.prototype.toFixed] are host
    algorithms whose output is only displayed, so a text made from a number
    is kept as a term; neither of them ever yields the text ['N/A'].  The
    conversions from text, [parseFloat] and [Number], belong to the host as
    [Math.exp] does; ECMA-262 (19.2.4 and 7.1.4.1) fixes their value at the
    empty text. *)

Module JSString.

Import JS String.
Local Open Scope float_scope.
Local Open Scope string_scope.

Inductive text : Type :=
| literal (s : string)
| Number_toString (x : number)
| Number_toFixed (x : number) (fractionDigits : Z).

(** The global [isNaN] applied to a number. *)
Definition isNaN (x : number) : bool := is_nan x.

Class StringHost := {
  parseFloat : string -> number;
  Number_of_string : string -> number;
  parseFloat_empty : parseFloat "" = NaN;
  Number_empty : Number_of_string "" = 0
}.

End JSString.

(** ** components/InputSlider.tsx *)

Module Slider.

Import JS JSString String.
Local Open Scope float_scope.

Record InputSliderProps := {
  label : string;
  value : number;
  min : number;
  max : number;
  step : number;
  unit : string
}.

(** What a handler does: it sets the text of the number box, or it calls
    the [onChange] callback of the props. *)
Inductive call : Type :=
| setDisplayValue (displayValue : text)
| onChange (value : number).

Section Handlers.

Context {strings : StringHost}.
Variable props : InputSliderProps.

Definition handleSliderChange (target_value : string) : call :=
  onChange (Number_of_string target_value).

Definition handleInputChange (target_value : string) : call :=
  setDisplayValue (literal target_value).

Definition handleInputBlur (target_value : string) : call :=
  let numValue := parseFloat target_value in
  if isNaN numValue then
    setDisplayValue (Number_toString props.(value))
  else
    let numValue := if numValue <? props.(min) then props.(min) else numValue in
    let numValue := if props.(max) <? numValue then props.(max) else numValue in
    onChange numValue.

End Handlers.

Arguments handleSliderChange : clear implicits.
Arguments handleInputBlur : clear implicits.

End Slider.

(** ** components/ResultCard.tsx: the props of a tile (icon and tooltip
    are left out) *)

Module ResultCard.

Import String.

Record ResultCardProps := {
  label : string;
  value : JSString.text;
  unit : string;
  colorClass : string
}.

End ResultCard.

(** ** App.tsx *)

Module App.

Import JS JSString Calc String.
Local Open Scope float_scope.
Local Open Scope string_scope.

(** [keyof HvacInputs] *)
Inductive keyof_HvacInputs : Type :=
| key_outsideTemp
| key_outsideHumidity
| key_volumeFlow
| key_targetTemp
| key_supplyTemp
| key_returnTemp.

Definition initialInputs : HvacInputs :=
  {| outsideTemp := 10; outsideHumidity := 60; volumeFlow := 2000;
     targetTemp := 22; supplyTemp := 60; returnTemp := 40 |}.

(** [{ ...prev, [field]: value }] *)
Definition handleInputChange (field : keyof_HvacInputs) (value : number)
    (prev : HvacInputs) : HvacInputs :=
  match field with
  | key_outsideTemp =>
      {| outsideTemp := value;
         outsideHumidity := prev.(outsideHumidity);
         volumeFlow := prev.(volumeFlow);
         targetTemp := prev.(targetTemp);
         supplyTemp := prev.(supplyTemp);
         returnTemp := prev.(returnTemp) |}
  | key_outsideHumidity =>
      {| outsideTemp := prev.(outsideTemp);
         outsideHumidity := value;
         volumeFlow := prev.(volumeFlow);
         targetTemp := prev.(targetTemp);
         supplyTemp := prev.(supplyTemp);
         returnTemp := prev.(returnTemp) |}
  | key_volumeFlow =>
      {| outsideTemp := prev.(outsideTemp);
         outsideHumidity := prev.(outsideHumidity);
         volumeFlow := value;
         targetTemp := prev.(targetTemp);
         supplyTemp := prev.(supplyTemp);
         returnTemp := prev.(returnTemp) |}
  | key_targetTemp =>
      {| outsideTemp := prev.(outsideTemp);
         outsideHumidity := prev.(outsideHumidity);
         volumeFlow := prev.(volumeFlow);
         targetTemp := value;
         supplyTemp := prev.(supplyTemp);
         returnTemp := prev.(returnTemp) |}
  | key_supplyTemp =>
      {| outsideTemp := prev.(outsideTemp);
         outsideHumidity := prev.(outsideHumidity);
         volumeFlow := prev.(volumeFlow);
         targetTemp := prev.(targetTemp);
         supplyTemp := value;
         returnTemp := prev.(returnTemp) |}
  | key_returnTemp =>
      {| outsideTemp := prev.(outsideTemp);
         outsideHumidity := prev.(outsideHumidity);
         volumeFlow := prev.(volumeFlow);
         targetTemp := prev.(targetTemp);
         supplyTemp := prev.(supplyTemp);
         returnTemp := value |}
  end.

(** The two pieces of component state. *)
Record State := {
  inputs : HvacInputs;
  results : option HvacResults
}.

(** The effect that follows every change of [inputs]. *)
Definition useEffect (host : MathHost) (state : State) : State :=
  {| inputs := state.(inputs);
     results := calculateHvacPerformance host state.(inputs) |}.

Definition operationType (results : option HvacResults) : string :=
  match results with
  | None => "Berechnung"
  | Some results => if results.(isHeating) then "Heizbetrieb" else "Kühlbetrieb"
  end.

Definition operationColor (results : option HvacResults) : string :=
  match results with
  | None => "bg-gray-500"
  | Some results => if results.(isHeating) then "bg-red-500" else "bg-blue-500"
  end.

(** The six sliders of the input section. *)
Definition slider (field : keyof_HvacInputs) (inputs : HvacInputs) : Slider.InputSliderProps :=
  match field with
  | key_outsideTemp =>
      Slider.Build_InputSliderProps "Außenlufttemperatur" inputs.(outsideTemp) (-30) 50 0.5 "°C"
  | key_outsideHumidity =>
      Slider.Build_InputSliderProps "Relative Außenluftfeuchte" inputs.(outsideHumidity) 0 100 1 "%"
  | key_volumeFlow =>
      Slider.Build_InputSliderProps "Luftvolumenstrom" inputs.(volumeFlow) 100 150000 500 "m³/h"
  | key_targetTemp =>
      Slider.Build_InputSliderProps "Gemessene Temperatur nach Gerät" inputs.(targetTemp) (-10) 60 0.5 "°C"
  | key_supplyTemp =>
      Slider.Build_InputSliderProps "Vorlauftemperatur" inputs.(supplyTemp) 0 100 1 "°C"
  | key_returnTemp =>
      Slider.Build_InputSliderProps "Rücklauftemperatur" inputs.(returnTemp) 0 100 1 "°C"
  end.

(** The eight tiles of the result section. *)
Definition powerCard (results : HvacResults) : ResultCard.ResultCardProps :=
  ResultCard.Build_ResultCardProps
    (if results.(isHeating) then "Heizleistung" else "Gesamt-Kühlleistung")
    (Number_toFixed (Math_abs results.(totalPower)) 2)
    "kW"
    (if results.(isHeating) then "bg-red-500" else "bg-blue-500").

Definition waterFlowCard (results : HvacResults) : ResultCard.ResultCardProps :=
  ResultCard.Build_ResultCardProps
    "Volumenstrom Wasser"
    (if isFinite results.(waterVolumeFlow)
     then Number_toFixed results.(waterVolumeFlow) 3 else literal "N/A")
    "m³/h"
    "bg-teal-500".

Definition pipeDiameterCard (results : HvacResults) : ResultCard.ResultCardProps :=
  ResultCard.Build_ResultCardProps
    "Empf. Rohr-DN"
    (if isFinite results.(recommendedPipeDiameter)
     then Number_toFixed results.(recommendedPipeDiameter) 0 else literal "N/A")
    "mm"
    "bg-purple-500".

Definition efficiencyCard (results : HvacResults) : ResultCard.ResultCardProps :=
  ResultCard.Build_ResultCardProps
    "Wirkungsgrad" (Number_toFixed (results.(efficiency) * 100) 1) "%" "bg-green-500".

Definition finalHumidityCard (results : HvacResults) : ResultCard.ResultCardProps :=
  ResultCard.Build_ResultCardProps
    "Result. rel. Feuchte" (Number_toFixed results.(finalHumidity) 1) "%" "bg-sky-500".

Definition dewPointCard (results : HvacResults) : ResultCard.ResultCardProps :=
  ResultCard.Build_ResultCardProps
    "Taupunkttemperatur" (Number_toFixed results.(dewPoint) 1) "°C" "bg-indigo-500".

Definition initialAbsoluteHumidityCard (results : HvacResults) : ResultCard.ResultCardProps :=
  ResultCard.Build_ResultCardProps
    "Abs. Feuchte (vorher)" (Number_toFixed results.(initialAbsoluteHumidity) 2)
    "g/kg" "bg-gray-400".

Definition finalAbsoluteHumidityCard (results : HvacResults) : ResultCard.ResultCardProps :=
  ResultCard.Build_ResultCardProps
    "Abs. Feuchte (nachher)" (Number_toFixed results.(finalAbsoluteHumidity) 2)
    "g/kg" "bg-gray-500".

(** *** The component as a transition system

    An event is a move of one of the range inputs or the loss of focus of
    one of the number boxes; typing into a box changes only that box.  The
    handler of the slider decides whether [onChange], which is
    [handleInputChange field], is called; the effect then recomputes the
    results. *)

Inductive event : Type :=
| sliderChange (field : keyof_HvacInputs) (target_value : string)
| inputBlur (field : keyof_HvacInputs) (target_value : string).

Definition fieldOf (e : event) : keyof_HvacInputs :=
  match e with sliderChange field _ | inputBlur field _ => field end.

Section Component.

Context (host : MathHost) (strings : StringHost).

Definition mount : State :=
  useEffect host {| inputs := initialInputs; results := None |}.

Definition handle (e : event) (state : State) : Slider.call :=
  match e with
  | sliderChange _ target_value => Slider.handleSliderChange strings target_value
  | inputBlur field target_value =>
      Slider.handleInputBlur strings (slider field state.(inputs)) target_value
  end.

Definition react (state : State) (e : event) : State :=
  match handle e state with
  | Slider.onChange value =>
      useEffect host {| inputs := handleInputChange (fieldOf e) value state.(inputs);
                        results := state.(results) |}
  | Slider.setDisplayValue _ => state
  end.

Definition run (events : list event) : State := List.fold_left react events mount.

End Component.

End App.

(** ** A reference host for texts

    It reads an optional sign followed by decimal digits, which is exact
    for integers below [2^53]; [parseFloat] stops at the first other
    character, [Number] accepts none.  Fractions and exponents are not
    read. *)

Module ReferenceText.

Import JS String Ascii.
Local Open Scope float_scope.
Local Open Scope string_scope.

Definition digit (c : ascii) : option float :=
  let n := Ascii.N_of_ascii c in
  if (N.leb 48 n && N.leb n 57)%bool then Some (of_uint63 (Uint63.of_Z (Z.of_N n - 48))) else None.

(** The digits at the head of [s], their value on top of [acc], and the
    rest of the text. *)
Fixpoint digits (s : string) (acc : option float) : option float * string :=
  match s with
  | EmptyString => (acc, s)
  | String c rest =>
      match digit c with
      | Some d =>
          digits rest (Some (match acc with Some a => a * 10 + d | None => d end))
      | None => (acc, s)
      end
  end.

Definition signed (s : string) : bool * string :=
  match s with
  | String "-" rest => (true, rest)
  | String "+" rest => (false, rest)
  | _ => (false, s)
  end.

Definition reference_parseFloat (s : string) : float :=
  let '(negative, body) := signed s in
  match fst (digits body None) with
  | Some v => if negative then - v else v
  | None => NaN
  end.

Definition reference_Number (s : string) : float :=
  match s with
  | EmptyString => 0
  | _ =>
      let '(negative, body) := signed s in
      match digits body None with
      | (Some v, EmptyString) => if negative then - v else v
      | _ => NaN
      end
  end.

End ReferenceText.

(** ** The ranges of the sliders *)

Module Ranges.

Import JS JSString App.
Local Open Scope float_scope.

(** The value of a slider lies between its [min] and its [max]. *)
Definition withinRange (props : Slider.InputSliderProps) : bool :=
  (Slider.min props <=? Slider.value props) && (Slider.value props <=? Slider.max props).

(** The two [if] statements of [handleInputBlur]. *)
Definition clamped (lo hi x : number) : number :=
  if hi <? (if x <? lo then lo else x) then hi else (if x <? lo then lo else x).

Definition fields : list keyof_HvacInputs :=
  (key_outsideTemp :: key_outsideHumidity :: key_volumeFlow ::
   key_targetTemp :: key_supplyTemp :: key_returnTemp :: nil)%list.

Definition allWithinRange (inputs : HvacInputs) : bool :=
  List.forallb (fun field => withinRange (slider field inputs)) fields.

(** What the browser guarantees for [<input type="range">]: the value it
    reports lies between [min] and [max]. *)
Definition rangeInput (strings : StringHost) (e : event) : bool :=
  match e with
  | sliderChange field target_value =>
      let props := slider field initialInputs in
      (Slider.min props <=? Number_of_string target_value) &&
      (Number_of_string target_value <=? Slider.max props)
  | inputBlur _ _ => true
  end.

End Ranges.

(** ** Further input snapshots and event sequences *)

Module Scenarios.

Import App String.
Local Open Scope float_scope.
Local Open Scope string_scope.

(** The heating coil is still hot while the air is cooled. *)
Definition hot_coil_while_cooling : HvacInputs :=
  {| outsideTemp := 30; outsideHumidity := 40; volumeFlow := 2000;
     targetTemp := 25; supplyTemp := 60; returnTemp := 40 |}.

(** An entry far above the range, a slider move, and a text that is not a
    number. *)
Definition session : list event :=
  (inputBlur key_outsideTemp "99" :: sliderChange key_volumeFlow "5000" ::
   inputBlur key_supplyTemp "abc" :: nil)%list.

End Scenarios.

(** ** Further views of a binary64 value *)

Module Signs.

Import SF.

(** Anything but a finite positive number. *)
Definition not_positive_finite (a : spec_float) : Prop :=
  match a with S754_finite false _ _ => False | _ => True end.

(** A zero of either sign, or a number with the sign bit [s]. *)
Definition sign_or_zero (s : bool) (a : spec_float) : Prop :=
  match a with
  | S754_zero _ => True
  | S754_infinity s' | S754_finite s' _ _ => s' = s
  | S754_nan => False
  end.

(** A [float] that is NaN, a zero, or has the sign bit [s]. *)
Definition nan_or (s : bool) (x : float) : Prop :=
  is_nan x = true \/ sign_or_zero s (Prim2SF x).

End Signs.

(** * Properties *)

(** ** The reference host meets the laws *)

Definition reference_host : JS.MathHost.
Proof.
  refine {| JS.Math_exp := Reference.reference_exp;
            JS.Math_log := Reference.reference_log |};
    try (vm_compute; reflexivity).
  intros x Hx. unfold Reference.reference_log.
  destruct (is_nan x); [reflexivity|]. rewrite Hx. reflexivity.
Defined.

(** ** So does the crude host *)

Definition crude_host : JS.MathHost.
Proof.
  refine {| JS.Math_exp := Crude.crude_exp;
            JS.Math_log := Crude.crude_log |};
    try (vm_compute; reflexivity).
  intros x Hx. unfold Crude.crude_log.
  destruct (is_nan x); [reflexivity|]. rewrite Hx. reflexivity.
Defined.

(** ** Facts about binary64 arithmetic

    The primitive operations are specified by [SpecFloat] (through
    [FloatAxioms]); the lemmas below are proved on that specification and
    then transported to [float]. *)

Module SpecFacts.

Import SF.
Local Open Scope Z_scope.

(** *** Comparison *)

Lemma SFcompare_refl a : sf_is_nan a = false -> SFcompare a a = Some Eq.
Proof.
  destruct a as [s|s| |s m e]; simpl; try discriminate; intros _.
  - reflexivity.
  - destruct s; reflexivity.
  - rewrite Z.compare_refl, Pos.compare_cont_refl. destruct s; reflexivity.
Qed.

Lemma SFcompare_nan_l a b : sf_is_nan a = true -> SFcompare a b = None.
Proof. destruct a; simpl; try discriminate. reflexivity. Qed.

Lemma SFcompare_nan_r a b : sf_is_nan b = true -> SFcompare a b = None.
Proof. destruct b; simpl; try discriminate. destruct a; reflexivity. Qed.

Lemma SFcompare_some a b :
  sf_is_nan a = false -> sf_is_nan b = false -> exists c, SFcompare a b = Some c.
Proof.
  destruct a, b; simpl; try discriminate; intros _ _; eexists; reflexivity.
Qed.

Lemma SFcompare_antisym a b :
  SFcompare b a = option_map CompOpp (SFcompare a b).
Proof.
  destruct a as [sa|sa| |sa ma ea], b as [sb|sb| |sb mb eb]; simpl;
    try reflexivity;
    try (destruct sa; reflexivity); try (destruct sb; reflexivity);
    try (destruct sa, sb; reflexivity).
  replace (eb ?= ea)%Z with (CompOpp (ea ?= eb)%Z)
    by (symmetry; apply Z.compare_antisym).
  replace (Pos.compare_cont Eq mb ma) with (CompOpp (Pos.compare_cont Eq ma mb))
    by (rewrite Pos.compare_cont_antisym; reflexivity).
  destruct sa, sb, (ea ?= eb)%Z; simpl; try reflexivity.
  all: destruct (Pos.compare_cont Eq ma mb); reflexivity.
Qed.

(** *** Right shifts of a mantissa *)

Lemma digits2_pos_size p : digits2_pos p = Pos.size p.
Proof. induction p; simpl; congruence. Qed.

Lemma Zdigits2_log2 p : Zdigits2 (Zpos p) = Z.log2 (Zpos p) + 1.
Proof.
  simpl. destruct p; simpl; rewrite ?digits2_pos_size, ?Pos.add_1_r; reflexivity.
Qed.

Lemma shr_1_m mrs : 0 <= shr_m mrs -> shr_m (shr_1 mrs) = Z.div2 (shr_m mrs).
Proof.
  destruct mrs as [m r s]. simpl. destruct m as [|[p|p|]|p]; simpl; try reflexivity; lia.
Qed.

Lemma iter_shr_1_m p : forall mrs, 0 <= shr_m mrs ->
  shr_m (iter_pos shr_1 p mrs) = Z.shiftr (shr_m mrs) (Zpos p).
Proof.
  induction p as [p IH|p IH|]; intros mrs Hm; simpl iter_pos.
  - assert (H1 : 0 <= shr_m (shr_1 mrs)) by (rewrite shr_1_m, Z.div2_spec by assumption; apply Z.shiftr_nonneg; assumption).
    assert (H2 : 0 <= shr_m (iter_pos shr_1 p (shr_1 mrs))) by (rewrite IH by assumption; apply Z.shiftr_nonneg; assumption).
    rewrite IH, IH, shr_1_m, Z.div2_spec by assumption.
    rewrite !Z.shiftr_shiftr by lia. f_equal. lia.
  - assert (H2 : 0 <= shr_m (iter_pos shr_1 p mrs)) by (rewrite IH by assumption; apply Z.shiftr_nonneg; assumption).
    rewrite IH, IH by assumption.
    rewrite !Z.shiftr_shiftr by lia. f_equal. lia.
  - rewrite shr_1_m, Z.div2_spec by assumption. reflexivity.
Qed.

Lemma shr_m_shr mrs e n : 0 <= shr_m mrs ->
  shr_m (fst (shr mrs e n)) = Z.shiftr (shr_m mrs) (Z.max n 0) /\
  snd (shr mrs e n) = e + Z.max n 0.
Proof.
  intros Hm. destruct n as [|p|p]; simpl.
  - split; [reflexivity|lia].
  - rewrite iter_shr_1_m by assumption. split; [reflexivity|lia].
  - split; [reflexivity|lia].
Qed.

Lemma shr_m_of_loc m l : shr_m (shr_record_of_loc m l) = m.
Proof. destruct l as [|[]]; reflexivity. Qed.

Lemma round_nearest_even_ge m l : m <= round_nearest_even m l.
Proof.
  destruct l as [|[]]; simpl; try lia. destruct (Z.even m); lia.
Qed.

Section Binary64.

Local Abbreviation emin := (SpecFloat.emin prec emax).

(** *** Rounding keeps the sign, and keeps a non-zero integer away from zero *)

Lemma shr_fexp_nonneg m e l : 0 <= m ->
  0 <= shr_m (fst (shr_fexp prec emax m e l)).
Proof.
  intros Hm. unfold shr_fexp.
  destruct (shr_m_shr (shr_record_of_loc m l) e (fexp prec emax (Zdigits2 m + e) - e)) as [-> _].
  - rewrite shr_m_of_loc. assumption.
  - rewrite shr_m_of_loc. apply Z.shiftr_nonneg. assumption.
Qed.

Lemma shr_fexp_pos m e l : 0 < m -> emin <= e ->
  0 < shr_m (fst (shr_fexp prec emax m e l)) /\ emin <= snd (shr_fexp prec emax m e l).
Proof.
  intros Hm He. unfold shr_fexp.
  destruct (shr_m_shr (shr_record_of_loc m l) e (fexp prec emax (Zdigits2 m + e) - e)) as [-> ->].
  - rewrite shr_m_of_loc. lia.
  - rewrite shr_m_of_loc. split; [|lia].
    destruct m as [|p|p]; try lia.
    rewrite Zdigits2_log2.
    assert (H0 : Z.shiftr (Zpos p) (Z.max (fexp prec emax (Z.log2 (Zpos p) + 1 + e) - e) 0) <> 0).
    { rewrite Z.shiftr_eq_0_iff. intros [H|[_ H]]; [discriminate|].
      revert H. unfold fexp, SpecFloat.emin, prec, emax in *.
      pose proof (Z.log2_nonneg (Zpos p)). lia. }
    pose proof (proj2 (Z.shiftr_nonneg (Zpos p) (Z.max (fexp prec emax (Z.log2 (Zpos p) + 1 + e) - e) 0)) ltac:(lia)).
    lia.
Qed.

Lemma binary_round_aux_nonneg s m e l : 0 <= m ->
  signed_like s (binary_round_aux prec emax s m e l).
Proof.
  intros Hm. unfold binary_round_aux.
  pose proof (shr_fexp_nonneg m e l Hm) as H1.
  destruct (shr_fexp prec emax m e l) as [mrs' e'] eqn:E1. simpl in H1.
  pose proof (round_nearest_even_ge (shr_m mrs') (loc_of_shr_record mrs')) as H2.
  pose proof (shr_fexp_nonneg (round_nearest_even (shr_m mrs') (loc_of_shr_record mrs')) e' loc_Exact ltac:(lia)) as H3.
  destruct (shr_fexp prec emax (round_nearest_even _ _) e' loc_Exact) as [mrs'' e''] eqn:E2.
  simpl in H3. destruct (shr_m mrs'') as [|p|p]; try lia.
  - constructor.
  - destruct (e'' <=? emax - prec); constructor.
Qed.

Lemma binary_round_aux_pos s m e l : 0 < m -> emin <= e ->
  (exists m' e', binary_round_aux prec emax s m e l = S754_finite s m' e') \/
  binary_round_aux prec emax s m e l = S754_infinity s.
Proof.
  intros Hm He. unfold binary_round_aux.
  pose proof (shr_fexp_pos m e l Hm He) as [H1 H1'].
  destruct (shr_fexp prec emax m e l) as [mrs' e'] eqn:E1. simpl in H1, H1'.
  pose proof (round_nearest_even_ge (shr_m mrs') (loc_of_shr_record mrs')) as H2.
  pose proof (shr_fexp_pos (round_nearest_even (shr_m mrs') (loc_of_shr_record mrs')) e' loc_Exact ltac:(lia) H1') as [H3 _].
  destruct (shr_fexp prec emax (round_nearest_even _ _) e' loc_Exact) as [mrs'' e''] eqn:E2.
  simpl in H3. destruct (shr_m mrs'') as [|p|p]; try lia.
  destruct (e'' <=? emax - prec); [left; eauto|right; reflexivity].
Qed.

Lemma shl_align_spec mx ex ex' :
  Zpos (fst (shl_align mx ex ex')) = Zpos mx * 2 ^ (ex - Z.min ex ex') /\
  snd (shl_align mx ex ex') = Z.min ex ex'.
Proof.
  unfold shl_align. destruct (ex' - ex) as [|d|d] eqn:E; simpl.
  - replace (Z.min ex ex') with ex by lia. rewrite Z.sub_diag. simpl. split; lia.
  - replace (Z.min ex ex') with ex by lia. rewrite Z.sub_diag. simpl. split; lia.
  - replace (Z.min ex ex') with ex' by lia. split; [|reflexivity].
    replace (ex - ex') with (Zpos d) by lia.
    change (Pos.iter xO mx d) with (shift_pos d mx).
    rewrite shift_pos_correct, Z.pow_pos_fold. apply Z.mul_comm.
Qed.

(** *** The order of canonical numbers is the order of their aligned integers *)

Lemma canonical_facts m e :
  canonical_mantissa prec emax m e = true ->
  emin <= e /\ Z.log2 (Zpos m) + 1 <= prec /\ (emin < e -> Z.log2 (Zpos m) + 1 = prec).
Proof.
  unfold canonical_mantissa. intros H. apply Z.eqb_eq in H.
  change (Zpos (digits2_pos m)) with (Zdigits2 (Zpos m)) in H.
  rewrite Zdigits2_log2 in H.
  unfold fexp, SpecFloat.emin, prec, emax in *. lia.
Qed.

Lemma valid_finite_canonical s m e :
  valid_binary (S754_finite s m e) = true -> canonical_mantissa prec emax m e = true.
Proof. simpl. unfold bounded. intros H. apply andb_true_iff in H. apply H. Qed.

Lemma aligned_lt m1 e1 m2 e2 :
  canonical_mantissa prec emax m1 e1 = true ->
  canonical_mantissa prec emax m2 e2 = true ->
  e1 < e2 ->
  Zpos m1 * 2 ^ (e1 - e1) < Zpos m2 * 2 ^ (e2 - e1).
Proof.
  intros H1 H2 Hlt.
  destruct (canonical_facts _ _ H1) as (Hmin1 & Hs1 & _).
  destruct (canonical_facts _ _ H2) as (_ & _ & Hs2).
  specialize (Hs2 ltac:(lia)).
  rewrite Z.sub_diag, Z.pow_0_r, Z.mul_1_r.
  destruct (Z.log2_spec (Zpos m1) ltac:(lia)) as [_ Hu1].
  destruct (Z.log2_spec (Zpos m2) ltac:(lia)) as [Hl2 _].
  assert (Hp : 2 ^ Z.succ (Z.log2 (Zpos m1)) <= 2 ^ prec)
    by (apply Z.pow_le_mono_r; lia).
  assert (Hq : 2 ^ 1 <= 2 ^ (e2 - e1)) by (apply Z.pow_le_mono_r; lia).
  replace (Z.log2 (Zpos m2)) with (prec - 1) in Hl2 by lia.
  change (2 ^ prec) with (2 * 2 ^ (prec - 1)) in Hp.
  change (2 ^ 1) with 2 in Hq.
  assert (0 < 2 ^ (prec - 1)) by reflexivity.
  nia.
Qed.

Lemma SFcompare_aligned s1 m1 e1 s2 m2 e2 :
  canonical_mantissa prec emax m1 e1 = true ->
  canonical_mantissa prec emax m2 e2 = true ->
  SFcompare (S754_finite s1 m1 e1) (S754_finite s2 m2 e2) =
  Some (aligned s1 m1 e1 (Z.min e1 e2) ?= aligned s2 m2 e2 (Z.min e1 e2)).
Proof.
  intros H1 H2. unfold aligned. simpl SFcompare. f_equal.
  assert (P1 : 0 < Zpos m1 * 2 ^ (e1 - Z.min e1 e2))
    by (apply Z.mul_pos_pos; [lia|apply Z.pow_pos_nonneg; lia]).
  assert (P2 : 0 < Zpos m2 * 2 ^ (e2 - Z.min e1 e2))
    by (apply Z.mul_pos_pos; [lia|apply Z.pow_pos_nonneg; lia]).
  assert (C : (Zpos m1 * 2 ^ (e1 - Z.min e1 e2) ?= Zpos m2 * 2 ^ (e2 - Z.min e1 e2)) =
              match e1 ?= e2 with
              | Lt => Lt
              | Gt => Gt
              | Eq => Pos.compare_cont Eq m1 m2
              end).
  { destruct (Z.compare_spec e1 e2) as [E|E|E].
    - subst e2. rewrite Z.min_id, Z.sub_diag, Z.pow_0_r, !Z.mul_1_r. reflexivity.
    - replace (Z.min e1 e2) with e1 by lia. apply Z.compare_lt_iff.
      apply aligned_lt; assumption.
    - replace (Z.min e1 e2) with e2 by lia. apply Z.compare_gt_iff.
      apply aligned_lt; assumption. }
  destruct s1, s2; unfold cond_Zopp.
  - rewrite Z.compare_opp. rewrite (Z.compare_antisym (Zpos m1 * _) (Zpos m2 * _)), C.
    destruct (e1 ?= e2); reflexivity.
  - symmetry. apply Z.compare_lt_iff. lia.
  - symmetry. apply Z.compare_gt_iff. lia.
  - symmetry. exact C.
Qed.

(** *** The sign of a difference *)

(** An integer [D] at an exponent above [emin] rounds to a number of the
    sign of [D]; only [D = 0] gives zero. *)
Lemma binary_normalize_signed D e : emin <= e -> D <> 0 ->
  (exists m' e', binary_normalize prec emax D e false = S754_finite (D <? 0) m' e') \/
  binary_normalize prec emax D e false = S754_infinity (D <? 0).
Proof.
  intros He HD.
  assert (R : forall s p, (exists m' e', binary_round prec emax s p e = S754_finite s m' e') \/
                          binary_round prec emax s p e = S754_infinity s).
  { intros s p. unfold binary_round.
    pose proof (shl_align_spec p e (fexp prec emax (Zpos (digits2_pos p) + e))) as [_ Hs].
    destruct (shl_align p e _) as [mz ez]. simpl in Hs.
    apply binary_round_aux_pos; [lia|]. subst ez. unfold fexp. lia. }
  destruct D as [|p|p]; [contradiction| |]; simpl binary_normalize; apply R.
Qed.

Lemma binary_normalize_sign D e : emin <= e ->
  SFltb (S754_zero false) (binary_normalize prec emax D e false) = (0 <? D) /\
  SFltb (binary_normalize prec emax D e false) (S754_zero false) = (D <? 0).
Proof.
  intros He. destruct (Z.eq_dec D 0) as [->|HD]; [split; reflexivity|].
  destruct (binary_normalize_signed D e He HD) as [(m' & e' & ->)| ->];
    destruct D; try contradiction; split; reflexivity.
Qed.

(** The difference of two finite numbers is the rounding of the difference
    of their aligned integers. *)
Lemma SFsub_finite sa ma ea sb mb eb :
  SF64sub (S754_finite sa ma ea) (S754_finite sb mb eb) =
  binary_normalize prec emax
    (aligned sa ma ea (Z.min ea eb) - aligned sb mb eb (Z.min ea eb)) (Z.min ea eb) false.
Proof.
  unfold SF64sub, SFsub, aligned.
  destruct (shl_align_spec ma ea (Z.min ea eb)) as [-> _].
  destruct (shl_align_spec mb eb (Z.min ea eb)) as [-> _].
  replace (Z.min ea (Z.min ea eb)) with (Z.min ea eb) by lia.
  replace (Z.min eb (Z.min ea eb)) with (Z.min ea eb) by lia.
  reflexivity.
Qed.

(** Away from two finite operands every comparison below is decided by the
    constructors alone. *)
Ltac special_operands a b sa ma ea sb mb eb :=
  destruct a as [[]|[]| |sa ma ea], b as [[]|[]| |sb mb eb];
  try reflexivity; try (destruct sa; reflexivity); try (destruct sb; reflexivity).

Lemma SFsub_positive a b :
  valid_binary a = true -> valid_binary b = true ->
  SFltb (S754_zero false) (SF64sub a b) = SFltb b a.
Proof.
  intros Va Vb. special_operands a b sa ma ea sb mb eb.
  apply valid_finite_canonical in Va, Vb.
  rewrite SFsub_finite.
  destruct (binary_normalize_sign
              (aligned sa ma ea (Z.min ea eb) - aligned sb mb eb (Z.min ea eb))
              (Z.min ea eb)) as [-> _].
  { destruct (canonical_facts _ _ Va) as [? _], (canonical_facts _ _ Vb) as [? _]. lia. }
  unfold SFltb. rewrite (SFcompare_aligned _ _ _ _ _ _ Vb Va), (Z.min_comm eb ea).
  set (A := aligned sa ma ea _). set (B := aligned sb mb eb _).
  destruct (Z.compare_spec B A); destruct (Z.ltb_spec 0 (A - B)); try reflexivity; lia.
Qed.

Lemma SFsub_negative a b :
  valid_binary a = true -> valid_binary b = true ->
  SFltb (SF64sub a b) (S754_zero false) = SFltb a b.
Proof.
  intros Va Vb. special_operands a b sa ma ea sb mb eb.
  apply valid_finite_canonical in Va, Vb.
  rewrite SFsub_finite.
  destruct (binary_normalize_sign
              (aligned sa ma ea (Z.min ea eb) - aligned sb mb eb (Z.min ea eb))
              (Z.min ea eb)) as [_ ->].
  { destruct (canonical_facts _ _ Va) as [? _], (canonical_facts _ _ Vb) as [? _]. lia. }
  unfold SFltb. rewrite (SFcompare_aligned _ _ _ _ _ _ Va Vb).
  set (A := aligned sa ma ea _). set (B := aligned sb mb eb _).
  destruct (Z.compare_spec A B); destruct (Z.ltb_spec (A - B) 0); try reflexivity; lia.
Qed.

End Binary64.

(** *** Signs of products, quotients and square roots *)

Lemma SFmul_comm a b : SF64mul a b = SF64mul b a.
Proof.
  destruct a as [sa|sa| |sa ma ea], b as [sb|sb| |sb mb eb]; simpl;
    rewrite ?(xorb_comm sa sb); try reflexivity.
  rewrite (Pos.mul_comm ma mb), (Z.add_comm ea eb). reflexivity.
Qed.

Lemma SFmul_signed s a b :
  signed_like s a -> finite_nonzero b = true ->
  signed_like (xorb s (sf_sign b)) (SF64mul a b).
Proof.
  intros Ha Hb. destruct b as [| | |sb mb eb]; try discriminate.
  destruct Ha; simpl; try constructor.
  apply binary_round_aux_nonneg. lia.
Qed.

Lemma SFdiv_core_nonneg m1 e1 m2 e2 :
  0 <= fst (fst (SFdiv_core_binary prec emax (Zpos m1) e1 (Zpos m2) e2)).
Proof.
  unfold SFdiv_core_binary.
  set (s := _ - _ - Z.min _ _).
  set (m' := match s with Z0 => _ | Zpos _ => _ | Zneg _ => _ end).
  assert (Hm : 0 <= m').
  { subst m'. destruct s; try lia. apply Z.shiftl_nonneg. lia. }
  pose proof (Z.div_pos m' (Zpos m2) Hm ltac:(lia)) as Hq.
  unfold Z.div in Hq. destruct (Z.div_eucl m' (Zpos m2)) as [q r]. exact Hq.
Qed.

Lemma SFdiv_signed s a b :
  signed_like s a -> finite_nonzero b = true ->
  signed_like (xorb s (sf_sign b)) (SF64div a b).
Proof.
  intros Ha Hb. destruct b as [| | |sb mb eb]; try discriminate.
  destruct Ha as [|ma ea|]; simpl; try constructor.
  pose proof (SFdiv_core_nonneg ma ea mb eb) as H.
  unfold SF64div, SFdiv.
  destruct (SFdiv_core_binary prec emax (Zpos ma) ea (Zpos mb) eb) as [[mz ez] lz].
  apply binary_round_aux_nonneg. exact H.
Qed.

Lemma SFsqrt_signed a : signed_like false a -> signed_like false (SF64sqrt a).
Proof.
  intros Ha. inversion Ha as [|m e|]; subst; simpl; try constructor.
  unfold SF64sqrt, SFsqrt.
  destruct (SFsqrt_core_binary prec emax (Zpos m) e) as [[mz ez] lz] eqn:E.
  apply binary_round_aux_nonneg.
  unfold SFsqrt_core_binary in E.
  set (m' := match _ - _ with Z0 => _ | Zpos _ => _ | Zneg _ => _ end) in E.
  pose proof (Z.sqrtrem_spec m') as Hs.
  assert (Hm : 0 <= m').
  { subst m'. destruct (_ - _); try lia. apply Z.shiftl_nonneg. lia. }
  specialize (Hs Hm).
  destruct (Z.sqrtrem m') as [q r]. injection E as <- _ _. lia.
Qed.

Lemma SFdiv_signed_any a b :
  signed_like false a -> signed_like false b ->
  sf_is_nan (SF64div a b) = true \/ signed_like false (SF64div a b).
Proof.
  intros Ha Hb.
  destruct Hb as [|mb eb|].
  - destruct Ha; simpl; [left; reflexivity|right; constructor|right; constructor].
  - right. apply (SFdiv_signed false a (S754_finite false mb eb) Ha eq_refl).
  - destruct Ha; simpl; [right; constructor|right; constructor|left; reflexivity].
Qed.

Lemma signed_like_leb a : signed_like false a -> SFleb (S754_zero false) a = true.
Proof. intros []; reflexivity. Qed.

Lemma signed_like_not_nan s a : signed_like s a -> sf_is_nan a = false.
Proof. intros []; reflexivity. Qed.

Lemma SFabs_signed a : sf_is_nan a = false -> signed_like false (SFabs a).
Proof. destruct a; simpl; try discriminate; constructor. Qed.

Lemma positive_signed a : SFltb (S754_zero false) a = true -> signed_like false a.
Proof.
  destruct a as [s|s| |s m e]; simpl; try discriminate; destruct s; try discriminate; constructor.
Qed.

End SpecFacts.

(** ** The same facts on [float] *)

Module FloatFacts.

Import SF SpecFacts JS.
Local Open Scope float_scope.

Lemma is_nan_spec x : is_nan x = sf_is_nan (Prim2SF x).
Proof.
  unfold is_nan. rewrite eqb_spec. unfold SFeqb.
  destruct (sf_is_nan (Prim2SF x)) eqn:E.
  - rewrite SFcompare_nan_l by assumption. reflexivity.
  - rewrite SFcompare_refl by assumption. reflexivity.
Qed.

Lemma is_finite_spec x :
  is_finite x = match Prim2SF x with
                | S754_zero _ | S754_finite _ _ _ => true
                | _ => false
                end.
Proof.
  unfold is_finite, is_infinity. rewrite is_nan_spec, eqb_spec, abs_spec.
  change (Prim2SF infinity) with (S754_infinity false).
  destruct (Prim2SF x) as [s|s| |s m e]; reflexivity.
Qed.

Lemma ltb_leb x y : (x <? y) = true -> (x <=? y) = true.
Proof.
  rewrite ltb_spec, leb_spec. unfold SFltb, SFleb.
  destruct (SFcompare _ _) as [[]|]; congruence.
Qed.

Lemma not_ltb_leb x y :
  is_nan x = false -> is_nan y = false -> (y <? x) = false -> (x <=? y) = true.
Proof.
  rewrite !is_nan_spec, ltb_spec, leb_spec. unfold SFltb, SFleb.
  intros Hx Hy. rewrite (SFcompare_antisym (Prim2SF x) (Prim2SF y)).
  destruct (SFcompare_some _ _ Hx Hy) as [c ->]. destruct c; simpl; congruence.
Qed.

Lemma leb_refl x : is_nan x = false -> (x <=? x) = true.
Proof.
  rewrite is_nan_spec, leb_spec. unfold SFleb. intros H.
  rewrite SFcompare_refl by assumption. reflexivity.
Qed.

Lemma ltb_not_nan_r x y : (x <? y) = true -> is_nan y = false.
Proof.
  rewrite is_nan_spec, ltb_spec. unfold SFltb.
  destruct (sf_is_nan (Prim2SF y)) eqn:E; [|reflexivity].
  rewrite SFcompare_nan_r by assumption. discriminate.
Qed.

Lemma eqb_not_ltb x y : (x =? y) = true -> (x <? y) = false /\ (y <? x) = false.
Proof.
  rewrite eqb_spec, !ltb_spec. unfold SFeqb, SFltb.
  rewrite (SFcompare_antisym (Prim2SF x) (Prim2SF y)).
  destruct (SFcompare _ _) as [[]|]; simpl; intros H; try discriminate. split; reflexivity.
Qed.

Lemma ltb_irrefl x : (x <? x) = false.
Proof.
  rewrite ltb_spec. unfold SFltb.
  destruct (sf_is_nan (Prim2SF x)) eqn:E.
  - rewrite SFcompare_nan_l by assumption. reflexivity.
  - rewrite SFcompare_refl by assumption. reflexivity.
Qed.

Lemma ltb_not_leb x y : (x <? y) = true -> (y <=? x) = false.
Proof.
  rewrite ltb_spec, leb_spec. unfold SFltb, SFleb.
  rewrite (SFcompare_antisym (Prim2SF x) (Prim2SF y)).
  destruct (SFcompare _ _) as [[]|]; simpl; congruence.
Qed.

Lemma leb_not_ltb x y : (x <=? y) = true -> (y <? x) = false.
Proof.
  rewrite ltb_spec, leb_spec. unfold SFltb, SFleb.
  rewrite (SFcompare_antisym (Prim2SF x) (Prim2SF y)).
  destruct (SFcompare _ _) as [[]|]; simpl; congruence.
Qed.

Lemma ltb_nan_l x y : is_nan x = true -> (x <? y) = false.
Proof.
  rewrite is_nan_spec, ltb_spec. unfold SFltb. intros H.
  rewrite SFcompare_nan_l by assumption. reflexivity.
Qed.

(** The sign of a difference is the order of its operands: gradual
    underflow makes [t - o] zero only when [t] equals [o]. *)
Lemma sub_positive t o : (0 <? t - o) = (o <? t).
Proof.
  rewrite !ltb_spec, sub_spec. change (Prim2SF 0) with (S754_zero false).
  apply SFsub_positive; apply Prim2SF_valid.
Qed.

Lemma sub_negative t o : (t - o <? 0) = (t <? o).
Proof.
  rewrite !ltb_spec, sub_spec. change (Prim2SF 0) with (S754_zero false).
  apply SFsub_negative; apply Prim2SF_valid.
Qed.

Lemma abs_positive x : (0 <? abs x) = (0 <? x) || (x <? 0).
Proof.
  rewrite !ltb_spec, abs_spec. change (Prim2SF 0) with (S754_zero false).
  destruct (Prim2SF x) as [s|s| |s m e]; try reflexivity; destruct s; reflexivity.
Qed.

Lemma abs_sub_positive s r : (0 <? abs (s - r)) = (r <? s) || (s <? r).
Proof. rewrite abs_positive, sub_positive, sub_negative. reflexivity. Qed.

Lemma mul_comm x y : x * y = y * x.
Proof. apply Prim2SF_inj. rewrite !mul_spec. apply SFmul_comm. Qed.

Lemma opp_abs_nan x : is_nan (- abs x) = is_nan x.
Proof.
  rewrite !is_nan_spec, opp_spec, abs_spec. destruct (Prim2SF x); reflexivity.
Qed.

Lemma opp_abs_nonpos x : is_nan x = false -> (- abs x <=? 0) = true.
Proof.
  rewrite is_nan_spec, leb_spec, opp_spec, abs_spec.
  change (Prim2SF 0) with (S754_zero false).
  destruct (Prim2SF x); simpl; try discriminate; reflexivity.
Qed.

(** *** Numbers with a clear sign bit *)

Lemma nonneg_leb x : nonneg x -> (0 <=? x) = true.
Proof.
  unfold nonneg. rewrite leb_spec. change (Prim2SF 0) with (S754_zero false).
  apply signed_like_leb.
Qed.

Lemma nonneg_abs x : is_nan x = false -> nonneg (abs x).
Proof. unfold nonneg. rewrite is_nan_spec, abs_spec. apply SFabs_signed. Qed.

Lemma nonneg_positive x : (0 <? x) = true -> nonneg x.
Proof.
  unfold nonneg. rewrite ltb_spec. change (Prim2SF 0) with (S754_zero false).
  apply positive_signed.
Qed.

Lemma nonneg_sqrt x : nonneg x -> nonneg (sqrt x).
Proof. unfold nonneg. rewrite sqrt_spec. apply SFsqrt_signed. Qed.

Lemma nonneg_div_constant x c : nonneg x -> positive_constant c -> nonneg (x / c).
Proof.
  unfold nonneg. intros Hx [Hc Hs]. rewrite div_spec.
  pose proof (SFdiv_signed false _ _ Hx Hc) as H. rewrite Hs in H. exact H.
Qed.

Lemma nonneg_mul_constant x c : nonneg x -> positive_constant c -> nonneg (x * c).
Proof.
  unfold nonneg. intros Hx [Hc Hs]. rewrite mul_spec.
  pose proof (SFmul_signed false _ _ Hx Hc) as H. rewrite Hs in H. exact H.
Qed.

Lemma nonneg_div x y :
  nonneg x -> nonneg y -> is_nan (x / y) = true \/ nonneg (x / y).
Proof.
  unfold nonneg. intros Hx Hy. rewrite is_nan_spec, div_spec.
  apply SFdiv_signed_any; assumption.
Qed.

(** *** NaN is absorbing *)

Lemma mul_nan_l x y : is_nan x = true -> is_nan (x * y) = true.
Proof.
  rewrite !is_nan_spec, mul_spec. destruct (Prim2SF x); try discriminate. reflexivity.
Qed.

Lemma div_nan_l x y : is_nan x = true -> is_nan (x / y) = true.
Proof.
  rewrite !is_nan_spec, div_spec. destruct (Prim2SF x); try discriminate. reflexivity.
Qed.

Lemma add_nan_l x y : is_nan x = true -> is_nan (x + y) = true.
Proof.
  rewrite !is_nan_spec, add_spec. destruct (Prim2SF x); try discriminate. reflexivity.
Qed.

Lemma zero_mul_div_zero y : is_nan ((0 * y) / 0) = true.
Proof.
  rewrite is_nan_spec, div_spec, mul_spec. change (Prim2SF 0) with (S754_zero false).
  destruct (Prim2SF y); reflexivity.
Qed.

Lemma abs_nan x : is_nan (abs x) = is_nan x.
Proof. rewrite !is_nan_spec, abs_spec. destruct (Prim2SF x); reflexivity. Qed.

Lemma is_nan_eq x : is_nan x = true -> x = nan.
Proof.
  rewrite is_nan_spec. intros H. apply Prim2SF_inj.
  destruct (Prim2SF x); try discriminate. reflexivity.
Qed.

(** A number that is neither finite nor NaN and has a clear sign bit is
    [+Infinity]. *)
Lemma nonneg_not_finite x : nonneg x -> is_finite x = false -> x = infinity.
Proof.
  unfold nonneg. rewrite is_finite_spec. intros H Hf. apply Prim2SF_inj.
  destruct H; try discriminate. reflexivity.
Qed.

(** *** The clamp idiom [Math.max(0, Math.min(x, hi))] *)

Lemma clamp_nan x hi : is_nan x = true -> Math_max 0 (Math_min x hi) = NaN.
Proof.
  intros H. unfold Math_min. rewrite H. reflexivity.
Qed.

Lemma clamp_range x hi :
  is_nan x = false -> (0 <? hi) = true -> is_neg_zero hi = false ->
  (0 <=? Math_max 0 (Math_min x hi)) = true /\
  (Math_max 0 (Math_min x hi) <=? hi) = true.
Proof.
  intros Hx Hhi Hz.
  pose proof (ltb_not_nan_r _ _ Hhi) as Hn.
  assert (H0 : is_nan 0 = false) by reflexivity.
  assert (Hmin : Math_min x hi = (if hi <? x then hi else x)).
  { unfold Math_min. rewrite Hx, Hn, Hz. reflexivity. }
  assert (Hmax : forall m, is_nan m = false ->
                 Math_max 0 m = (if 0 <? m then m else 0)).
  { intros m Hm. unfold Math_max. rewrite Hm.
    change (is_neg_zero 0) with false. rewrite andb_false_r. reflexivity. }
  rewrite Hmin. destruct (hi <? x) eqn:E.
  - rewrite (Hmax hi Hn), Hhi. split; [apply ltb_leb; assumption|apply leb_refl; assumption].
  - rewrite (Hmax x Hx). destruct (0 <? x) eqn:E0.
    + split; [apply ltb_leb; assumption|apply not_ltb_leb; assumption].
    + split; [apply leb_refl; assumption|apply ltb_leb; assumption].
Qed.

End FloatFacts.

(** ** The result snapshot, field by field *)

Module Run.

Import JS Calc Parts.
Local Open Scope float_scope.

(** The engine never returns [null]: the [try] block always completes, and
    its result is the record below. *)
Lemma calculateHvacPerformance_eq (host : MathHost) (inputs : HvacInputs) :
  let airMassFlow := (volumeFlow inputs * AIR_DENSITY) / 3600 in
  let heating := 0 <? targetTemp inputs - outsideTemp inputs in
  let sensible := airMassFlow * SPECIFIC_HEAT_AIR * (targetTemp inputs - outsideTemp inputs) in
  let vaporPressure :=
    (outsideHumidity inputs / 100) * calculateSaturationVaporPressure host (outsideTemp inputs) in
  let path :=
    humidityPath host heating airMassFlow (targetTemp inputs) vaporPressure
      (calculateDewPoint host vaporPressure) (calculateAbsoluteHumidity vaporPressure) in
  let sizing := waterSizing (sensible + snd path) (supplyTemp inputs) (returnTemp inputs) in
  calculateHvacPerformance host inputs =
  Some {| sensiblePower := sensible;
          latentPower := snd path;
          totalPower := sensible + snd path;
          waterVolumeFlow := fst sizing;
          finalHumidity := Math_max 0 (Math_min (fst (fst path)) 100);
          isHeating := heating;
          dewPoint := calculateDewPoint host vaporPressure;
          initialAbsoluteHumidity := calculateAbsoluteHumidity vaporPressure;
          finalAbsoluteHumidity := snd (fst path);
          efficiency :=
            efficiencyOf heating (outsideTemp inputs) (targetTemp inputs) (supplyTemp inputs);
          recommendedPipeDiameter := snd sizing |}.
Proof.
  intros. subst sizing path vaporPressure sensible heating airMassFlow.
  unfold calculateHvacPerformance, tryBlock, humidityPath, waterSizing, efficiencyOf,
    flowOf, diameterOf.
  cbv zeta.
  destruct (0 <? targetTemp inputs - outsideTemp inputs);
    [|destruct (calculateDewPoint host _ <=? targetTemp inputs)];
    cbn [fst snd];
    (destruct (0 <? Math_abs (supplyTemp inputs - returnTemp inputs));
     [destruct (isFinite _)|]; reflexivity).
Qed.

End Run.

Import JS Calc Parts.
Local Open Scope float_scope.

(** ** Water-side sizing *)

Module SizingFacts.

Import SF FloatFacts.

Lemma waterSizing_eq totalPower_kW supplyTemp returnTemp :
  let deltaT_water := Math_abs (supplyTemp - returnTemp) in
  waterSizing totalPower_kW supplyTemp returnTemp =
  if 0 <? deltaT_water then
    (flowOf totalPower_kW deltaT_water,
     if isFinite (flowOf totalPower_kW deltaT_water)
     then diameterOf (flowOf totalPower_kW deltaT_water)
     else Infinity)
  else (Infinity, Infinity).
Proof. reflexivity. Qed.

Lemma positive_3600 : positive_constant 3600. Proof. split; reflexivity. Qed.
Lemma positive_1000 : positive_constant 1000. Proof. split; reflexivity. Qed.
Lemma positive_4 : positive_constant 4. Proof. split; reflexivity. Qed.
Lemma positive_heat : positive_constant SPECIFIC_HEAT_WATER. Proof. split; reflexivity. Qed.
Lemma positive_density : positive_constant WATER_DENSITY. Proof. split; reflexivity. Qed.
Lemma positive_velocity : positive_constant RECOMMENDED_WATER_VELOCITY. Proof. split; reflexivity. Qed.
Lemma positive_PI : positive_constant Math_PI. Proof. split; reflexivity. Qed.

(** The flow is an absolute value over a positive quantity: it is NaN or
    its sign bit is clear. *)
Lemma flowOf_sign totalPower_kW deltaT_water :
  (0 <? deltaT_water) = true ->
  is_nan (flowOf totalPower_kW deltaT_water) = true \/
  nonneg (flowOf totalPower_kW deltaT_water).
Proof.
  intros Hd. unfold flowOf, Math_abs.
  assert (Hden : nonneg (SPECIFIC_HEAT_WATER * deltaT_water)).
  { rewrite mul_comm. apply nonneg_mul_constant; [apply nonneg_positive; assumption|apply positive_heat]. }
  destruct (is_nan totalPower_kW) eqn:En.
  - left. apply div_nan_l, mul_nan_l, div_nan_l. rewrite abs_nan. assumption.
  - destruct (nonneg_div _ _ (nonneg_abs _ En) Hden) as [H|H].
    + left. apply div_nan_l, mul_nan_l. assumption.
    + right. apply nonneg_div_constant; [|apply positive_density].
      apply nonneg_mul_constant; [assumption|apply positive_3600].
Qed.

Lemma diameterOf_nonneg flow : nonneg flow -> nonneg (diameterOf flow).
Proof.
  intros H. unfold diameterOf, Math_sqrt.
  apply nonneg_mul_constant; [|apply positive_1000].
  apply nonneg_sqrt. apply nonneg_div_constant; [|apply positive_PI].
  rewrite mul_comm. apply nonneg_mul_constant; [|apply positive_4].
  apply nonneg_div_constant; [|apply positive_velocity].
  apply nonneg_div_constant; [assumption|apply positive_3600].
Qed.

(** A NaN total power gives a NaN flow, and the [isFinite] guard then
    leaves the diameter at its default. *)
Lemma waterSizing_nan totalPower_kW supplyTemp returnTemp :
  is_nan totalPower_kW = true ->
  (0 <? abs (supplyTemp - returnTemp)) = true ->
  waterSizing totalPower_kW supplyTemp returnTemp = (NaN, Infinity).
Proof.
  intros Hn Hd. rewrite waterSizing_eq. unfold Math_abs. rewrite Hd.
  assert (Hf : flowOf totalPower_kW (abs (supplyTemp - returnTemp)) = NaN).
  { apply is_nan_eq. unfold flowOf, Math_abs.
    apply div_nan_l, mul_nan_l, div_nan_l. rewrite abs_nan. assumption. }
  rewrite Hf. reflexivity.
Qed.

End SizingFacts.

(** ** Inputs at the edge of the formulas

    Apart from [dry_air_cooling_condenses], the runs below use only the
    values of [Math.exp] and [Math.log] that ECMA-262 prescribes, so they
    hold on every host. *)

Module Extremes.

Import FloatFacts.

(** With 0 % relative humidity at 0 degrees the vapor pressure is +0, its
    logarithm is -Infinity and the dew point is -Infinity / +Infinity = NaN,
    on every host. *)
Lemma dry_air_dew_point (host : MathHost) :
  calculateDewPoint host ((0 / 100) * calculateSaturationVaporPressure host 0) = NaN.
Proof.
  unfold calculateSaturationVaporPressure.
  change ((17.67 * 0) / (0 + 243.5)) with 0. rewrite exp_pos_zero.
  unfold calculateDewPoint.
  change ((0 / 100 * (6.112 * 1)) / 6.112) with 0. rewrite log_pos_zero.
  reflexivity.
Qed.

(** The same air cooled from 30 to 12 degrees: the NaN dew point fails the
    test [targetTemp >= dewPoint], so the engine reports condensation and
    100 % final humidity. *)
Lemma dry_air_cooling_condenses :
  exists r, calculateHvacPerformance reference_host Inputs.dry_air_cooling = Some r /\
    dewPoint r = NaN /\ finalHumidity r = 100 /\ (latentPower r <? 0) = true.
Proof.
  eexists. split; [vm_compute; reflexivity|].
  cbn [dewPoint finalHumidity latentPower]. repeat split.
Qed.

Lemma saturation_pressure_at_pole (host : MathHost) :
  calculateSaturationVaporPressure host (-243.5) = 0.
Proof.
  unfold calculateSaturationVaporPressure.
  change ((17.67 * -243.5) / (-243.5 + 243.5)) with (- Infinity).
  rewrite exp_neg_inf. reflexivity.
Qed.

Lemma saturation_pressure_at_zero (host : MathHost) :
  calculateSaturationVaporPressure host 0 = 6.112.
Proof.
  unfold calculateSaturationVaporPressure.
  change ((17.67 * 0) / (0 + 243.5)) with 0.
  rewrite exp_pos_zero. reflexivity.
Qed.

(** Heating dry air up to -243.5 degrees: 0 / 0 in the humidity formula. *)
Lemma cold_dry_heating_any_host (host : MathHost) :
  exists r, calculateHvacPerformance host Inputs.cold_dry_heating = Some r /\
    finalHumidity r = NaN.
Proof.
  eexists. split; [apply Run.calculateHvacPerformance_eq|].
  cbn [finalHumidity]. apply clamp_nan.
  cbn [targetTemp outsideTemp outsideHumidity volumeFlow Inputs.cold_dry_heating].
  change (0 <? -243.5 - -250) with true. unfold humidityPath. cbn [fst snd].
  rewrite saturation_pressure_at_pole.
  apply mul_nan_l. apply (zero_mul_div_zero (calculateSaturationVaporPressure host (-250))).
Qed.

(** An overflowing air mass flow with no temperature change: Infinity * 0. *)
Lemma overflowing_flow_any_host (host : MathHost) :
  exists r, calculateHvacPerformance host Inputs.overflowing_flow = Some r /\
    waterVolumeFlow r = NaN /\ recommendedPipeDiameter r = Infinity.
Proof.
  eexists. split; [apply Run.calculateHvacPerformance_eq|].
  cbn [waterVolumeFlow recommendedPipeDiameter].
  rewrite SizingFacts.waterSizing_nan.
  - split; reflexivity.
  - apply add_nan_l. reflexivity.
  - reflexivity.
Qed.

Lemma overflowing_flow_chilled_any_host (host : MathHost) :
  exists r, calculateHvacPerformance host Inputs.overflowing_flow_chilled = Some r /\
    waterVolumeFlow r = NaN.
Proof.
  eexists. split; [apply Run.calculateHvacPerformance_eq|].
  cbn [waterVolumeFlow].
  rewrite SizingFacts.waterSizing_nan.
  - reflexivity.
  - apply add_nan_l. reflexivity.
  - reflexivity.
Qed.

(** An overflowing air mass flow with no humidity change: Infinity * 0 in
    the condensation branch. *)
Lemma cold_dry_overflow_any_host (host : MathHost) :
  exists r, calculateHvacPerformance host Inputs.cold_dry_overflow = Some r /\
    latentPower r = NaN.
Proof.
  eexists. split; [apply Run.calculateHvacPerformance_eq|].
  cbn [latentPower].
  cbn [targetTemp outsideTemp outsideHumidity volumeFlow Inputs.cold_dry_overflow].
  change (0 <? -243.5 - 0) with false.
  rewrite saturation_pressure_at_zero.
  change (0 / 100 * 6.112) with 0.
  unfold humidityPath.
  assert (Hd : (calculateDewPoint host 0 <=? -243.5) = false).
  { unfold calculateDewPoint. change (0 / 6.112) with 0. rewrite log_pos_zero. reflexivity. }
  rewrite Hd. cbn [fst snd]. rewrite saturation_pressure_at_pole. reflexivity.
Qed.

(** The round trip of the humidity formulas at [T = 0], [RH = 0]. *)
Lemma round_trip_dry_any_host (host : MathHost) :
  calculateDewPoint host (calculateSaturationVaporPressure host 0 * 0 / 100) = NaN.
Proof.
  rewrite saturation_pressure_at_zero. unfold calculateDewPoint.
  change ((6.112 * 0 / 100) / 6.112) with 0. rewrite log_pos_zero. reflexivity.
Qed.

(** The round trip at the pole [T = -243.5], with [RH = 50]. *)
Lemma round_trip_pole_any_host (host : MathHost) :
  calculateDewPoint host (calculateSaturationVaporPressure host (-243.5) * 50 / 100) = NaN.
Proof.
  rewrite saturation_pressure_at_pole. unfold calculateDewPoint.
  change ((0 * 50 / 100) / 6.112) with 0. rewrite log_pos_zero. reflexivity.
Qed.

End Extremes.

(** ** More on rounding: symmetry, exact zeros, absence of overflow *)

Module RoundingFacts.

Import SF SpecFacts.
Local Open Scope Z_scope.
Local Abbreviation emin := (SpecFloat.emin prec emax).

(** The sign only labels the result of a rounding. *)
Lemma SFabs_binary_round_aux s s' m e l :
  SFabs (binary_round_aux prec emax s m e l) = SFabs (binary_round_aux prec emax s' m e l).
Proof.
  unfold binary_round_aux.
  destruct (shr_fexp prec emax m e l) as [mrs' e'].
  destruct (shr_fexp prec emax _ e' loc_Exact) as [mrs'' e''].
  destruct (shr_m mrs''); try reflexivity.
  destruct (e'' <=? emax - prec); reflexivity.
Qed.

Lemma SFabs_binary_normalize D e :
  SFabs (binary_normalize prec emax D e false) = SFabs (binary_normalize prec emax (- D) e false).
Proof.
  destruct D as [|p|p]; simpl; try reflexivity; unfold binary_round;
    destruct (shl_align p e _) as [mz ez]; apply SFabs_binary_round_aux.
Qed.

Lemma SFabs_sub_comm a b : SFabs (SF64sub a b) = SFabs (SF64sub b a).
Proof.
  destruct a as [[]|[]| |sa ma ea], b as [[]|[]| |sb mb eb]; try reflexivity.
  rewrite !SFsub_finite, (Z.min_comm eb ea), SFabs_binary_normalize.
  f_equal. f_equal. lia.
Qed.

(** Equal finite numbers have a zero difference. *)
Lemma SFsub_eq_zero a b :
  SFeqb a b = true ->
  match a with S754_infinity _ => False | _ => True end ->
  exists s, SF64sub a b = S754_zero s.
Proof.
  unfold SFeqb.
  destruct a as [sa|sa| |sa ma ea], b as [sb|sb| |sb mb eb]; cbn [SFcompare];
    intros H Hinf; try discriminate; try contradiction.
  all: try (destruct sa; discriminate); try (destruct sb; discriminate).
  - destruct sa, sb; eexists; reflexivity.
  - rewrite SFsub_finite.
    assert (E : sa = sb /\ ea = eb /\ ma = mb).
    { destruct sa, sb; try discriminate; destruct (Z.compare_spec ea eb); try discriminate;
        repeat split; try assumption;
        destruct (Pos.compare_cont Eq ma mb) eqn:C; try discriminate;
        apply (Pos.compare_eq ma mb C). }
    destruct E as (-> & -> & ->). rewrite Z.sub_diag. exists false. reflexivity.
Qed.

(** *** Rounding without overflow *)

Lemma round_nearest_even_le m l : round_nearest_even m l <= m + 1.
Proof. destruct l as [|[]]; simpl; try lia. destruct (Z.even m); lia. Qed.

Lemma shr_fexp_log2 m e l : 0 < m -> emin <= e ->
  0 < shr_m (fst (shr_fexp prec emax m e l)) /\
  Z.log2 (shr_m (fst (shr_fexp prec emax m e l))) + snd (shr_fexp prec emax m e l)
    = Z.log2 m + e /\
  snd (shr_fexp prec emax m e l) = Z.max e (fexp prec emax (Z.log2 m + 1 + e)).
Proof.
  intros Hm He. destruct (shr_fexp_pos m e l Hm He) as [Hpos _].
  split; [exact Hpos|]. revert Hpos. unfold shr_fexp.
  destruct (shr_m_shr (shr_record_of_loc m l) e (fexp prec emax (Zdigits2 m + e) - e)) as [-> ->].
  { rewrite shr_m_of_loc. lia. }
  rewrite shr_m_of_loc. destruct m as [|p|p]; try lia.
  rewrite Zdigits2_log2. intros Hpos.
  rewrite Z.log2_shiftr by lia.
  pose proof (Z.log2_nonneg (Zpos p)).
  unfold fexp, SpecFloat.emin, prec, emax in *. lia.
Qed.

Lemma binary_round_aux_finite s m e l :
  0 < m -> emin <= e -> e <= emax - prec -> Z.log2 m + 1 + e <= emax - 1 ->
  exists m' e', binary_round_aux prec emax s m e l = S754_finite s m' e'.
Proof.
  intros Hm He Hb HE. unfold binary_round_aux.
  destruct (shr_fexp_log2 m e l Hm He) as (H1 & H1l & H1e).
  destruct (shr_fexp prec emax m e l) as [mrs' e'] eqn:E1. simpl in H1, H1l, H1e.
  pose proof (round_nearest_even_ge (shr_m mrs') (loc_of_shr_record mrs')) as G.
  pose proof (round_nearest_even_le (shr_m mrs') (loc_of_shr_record mrs')) as L.
  set (m2 := round_nearest_even (shr_m mrs') (loc_of_shr_record mrs')) in *.
  assert (He' : emin <= e') by (rewrite H1e; lia).
  destruct (shr_fexp_log2 m2 e' loc_Exact ltac:(lia) He') as (H2 & _ & H2e).
  destruct (shr_fexp prec emax m2 e' loc_Exact) as [mrs'' e''] eqn:E2. simpl in H2, H2e.
  assert (Hl : Z.log2 m2 <= Z.log2 (shr_m mrs') + 1).
  { etransitivity; [apply Z.log2_le_mono, L|]. apply Z.log2_succ_le. }
  destruct (shr_m mrs'') as [|p|p]; try lia.
  assert (Hle : e'' <= emax - prec).
  { rewrite H2e, H1e. unfold fexp, SpecFloat.emin, prec, emax in *. lia. }
  apply Z.leb_le in Hle. rewrite Hle. eauto.
Qed.

(** Subtracting a number that is at least zero from a positive number
    below [2^(emax-1)] does not overflow. *)
Lemma SFsub_no_overflow ma ea b :
  valid_binary (S754_finite false ma ea) = true -> valid_binary b = true ->
  Z.log2 (Zpos ma) + 1 + ea <= emax - 1 ->
  SFleb (S754_zero false) b = true ->
  SF64sub (S754_finite false ma ea) b <> S754_infinity false.
Proof.
  intros Va Vb HE Hb.
  destruct b as [sb|sb| |sb mb eb]; try discriminate;
    try (destruct sb; discriminate).
  destruct sb; [discriminate Hb|].
  - assert (Hbound : ea <= emax - prec).
    { simpl in Va. unfold bounded in Va. apply andb_true_iff in Va. apply Z.leb_le, Va. }
    apply valid_finite_canonical in Va, Vb.
    destruct (canonical_facts _ _ Va) as [Hea _], (canonical_facts _ _ Vb) as [Heb _].
    rewrite SFsub_finite. unfold aligned, cond_Zopp.
    set (ez := Z.min ea eb).
    assert (PA : 0 < Zpos ma * 2 ^ (ea - ez))
      by (apply Z.mul_pos_pos; [lia|apply Z.pow_pos_nonneg; lia]).
    assert (PB : 0 < Zpos mb * 2 ^ (eb - ez))
      by (apply Z.mul_pos_pos; [lia|apply Z.pow_pos_nonneg; lia]).
    set (A := Zpos ma * 2 ^ (ea - ez)) in *. set (B := Zpos mb * 2 ^ (eb - ez)) in *.
    destruct (A - B) as [|p|p] eqn:ED.
    + discriminate.
    + simpl binary_normalize. unfold binary_round.
      pose proof (shl_align_spec p ez (fexp prec emax (Zpos (digits2_pos p) + ez))) as [Hm Hz].
      destruct (shl_align p ez _) as [mz ez2]. cbn [fst snd] in Hm, Hz.
      assert (Hlog : Z.log2 (Zpos mz) + ez2 = Z.log2 (Zpos p) + ez).
      { rewrite Hm, Z.log2_mul_pow2 by lia. lia. }
      assert (HlA : Z.log2 (Zpos p) <= Z.log2 (Zpos ma) + (ea - ez)).
      { replace (Z.log2 (Zpos ma) + (ea - ez)) with (Z.log2 A)
          by (unfold A; rewrite Z.log2_mul_pow2 by lia; lia).
        apply Z.log2_le_mono. lia. }
      destruct (binary_round_aux_finite false (Zpos mz) ez2 loc_Exact) as (m' & e' & ->);
        try discriminate; try lia.
      * subst ez2. unfold fexp. lia.
    + destruct (binary_normalize_signed (Zneg p) ez) as [(m' & e' & ->)| ->];
        try discriminate; lia.
Qed.

(** Equality of numbers is equality of representations, away from zeros. *)
Lemma SFeqb_eq a b : SFeqb a b = true -> finite_nonzero a = true -> a = b.
Proof.
  unfold SFeqb. destruct a as [| | |sa ma ea]; try discriminate.
  destruct b as [sb|sb| |sb mb eb]; cbn [SFcompare]; intros H _; try discriminate;
    try (destruct sa; discriminate); try (destruct sb; discriminate).
  destruct sa, sb; try discriminate; destruct (Z.compare_spec ea eb); try discriminate;
    subst; destruct (Pos.compare_cont Eq _ _) eqn:C; try discriminate;
    first [rewrite (Pos.compare_eq ma mb C)|rewrite (Pos.compare_eq mb ma C)]; reflexivity.
Qed.

(** A product with, and a quotient by, a positive finite number stay at
    least zero. *)
Lemma SFmul_div_ge0 mc ec p my ey :
  SFleb (S754_zero false) p = true ->
  SFleb (S754_zero false)
    (SF64div (SF64mul (S754_finite false mc ec) p) (S754_finite false my ey)) = true.
Proof.
  intros Hp. destruct p as [sp|sp| |sp mp ep]; try discriminate.
  - reflexivity.
  - destruct sp; [discriminate|reflexivity].
  - destruct sp; [discriminate|]. apply signed_like_leb.
    apply (SFdiv_signed false _ (S754_finite false my ey)); [|reflexivity].
    rewrite SFmul_comm.
    apply (SFmul_signed false _ (S754_finite false mc ec)); [constructor|reflexivity].
Qed.

(** A positive number over a negative one is NaN (Infinity over -Infinity)
    or at most zero. *)
Lemma SFmul_div_le0 mc ec p y :
  SFltb (S754_zero false) p = true -> SFltb y (S754_zero false) = true ->
  sf_is_nan (SF64div (SF64mul (S754_finite false mc ec) p) y) = true \/
  SFleb (SF64div (SF64mul (S754_finite false mc ec) p) y) (S754_zero false) = true.
Proof.
  intros Hp Hy.
  assert (Hx : signed_like false (SF64mul (S754_finite false mc ec) p)).
  { destruct p as [sp|sp| |sp mp ep]; try discriminate; destruct sp; try discriminate.
    - constructor.
    - rewrite SFmul_comm.
      apply (SFmul_signed false _ (S754_finite false mc ec)); [constructor|reflexivity]. }
  destruct y as [sy|sy| |sy my ey]; try discriminate; destruct sy; try discriminate.
  - destruct Hx; [right|right|left]; reflexivity.
  - right. pose proof (SFdiv_signed false _ (S754_finite true my ey) Hx eq_refl) as H.
    simpl xorb in H. destruct H; reflexivity.
Qed.

End RoundingFacts.

(** ** Differences and comparisons on [float] *)

Module DifferenceFacts.

Import SF SpecFacts FloatFacts RoundingFacts.

Lemma abs_sub_comm s r : abs (s - r) = abs (r - s).
Proof.
  apply Prim2SF_inj. rewrite !abs_spec, !sub_spec. apply SFabs_sub_comm.
Qed.

(** Two equal finite numbers have a zero difference ([+0] or [-0]). *)
Lemma sub_eq_zero t o :
  is_finite t = true -> (t =? o) = true -> exists s, Prim2SF (t - o) = S754_zero s.
Proof.
  rewrite is_finite_spec, eqb_spec, sub_spec. intros Hf He.
  apply SFsub_eq_zero; [assumption|]. destruct (Prim2SF t); try discriminate; exact I.
Qed.

Lemma zero_cases z s : Prim2SF z = S754_zero s -> z = 0 \/ z = (-0).
Proof.
  intros H. destruct s; [right|left]; apply Prim2SF_inj; rewrite H; reflexivity.
Qed.

Lemma leb_not_nan x y : (x <=? y) = true -> is_nan x = false /\ is_nan y = false.
Proof.
  rewrite !is_nan_spec, leb_spec. unfold SFleb.
  destruct (Prim2SF x), (Prim2SF y); simpl; try discriminate; split; reflexivity.
Qed.

Lemma finite_not_nan x : is_finite x = true -> is_nan x = false.
Proof.
  rewrite is_finite_spec, is_nan_spec. destruct (Prim2SF x); try discriminate; reflexivity.
Qed.

End DifferenceFacts.

(** ** The humidity formulas outside their domain *)

Module HumidityFacts.

Import SF Signs SpecFacts FloatFacts RoundingFacts DifferenceFacts.

Lemma not_positive_finite_spec p :
  (is_finite p && (0 <? p)) = false -> not_positive_finite (Prim2SF p).
Proof.
  rewrite is_finite_spec, ltb_spec. change (Prim2SF 0) with (S754_zero false).
  destruct (Prim2SF p) as [s|s| |s m e]; try (intros; exact I).
  destruct s; [intros; exact I|discriminate].
Qed.

Lemma div_not_positive_finite p c :
  not_positive_finite (Prim2SF p) -> positive_constant c ->
  not_positive_finite (Prim2SF (p / c)).
Proof.
  intros Hp [Hc Hs]. rewrite div_spec.
  destruct (Prim2SF c) as [| | |sc mc ec]; try discriminate. simpl in Hs. subst sc.
  destruct (Prim2SF p) as [s|s| |s m e]; try exact I.
  destruct s; [|contradiction].
  pose proof (SFdiv_signed true (S754_finite true m e) (S754_finite false mc ec)
                (sl_finite _ _ _) eq_refl) as H.
  simpl xorb in H. destruct H; exact I.
Qed.

(** Outside the finite positive numbers the logarithm takes one of three
    values on every host. *)
Lemma log_not_positive_finite (host : MathHost) q :
  not_positive_finite (Prim2SF q) ->
  Math_log q = NaN \/ Math_log q = - Infinity \/ Math_log q = Infinity.
Proof.
  intros H.
  assert (Hneg : SFltb (Prim2SF q) (S754_zero false) = true -> Math_log q = NaN).
  { intros L. apply log_negative. rewrite ltb_spec. exact L. }
  destruct (Prim2SF q) as [s|s| |s m e] eqn:E.
  - right; left. destruct (zero_cases q s E) as [-> | ->];
      [apply log_pos_zero|apply log_neg_zero].
  - destruct s.
    + left. apply Hneg. reflexivity.
    + right; right. replace q with Infinity; [apply log_pos_inf|].
      apply Prim2SF_inj. rewrite E. reflexivity.
  - left. replace q with NaN; [apply log_NaN|].
    apply Prim2SF_inj. rewrite E. reflexivity.
  - destruct s; [|contradiction]. left. apply Hneg. reflexivity.
Qed.

Lemma positive_6_112 : positive_constant 6.112. Proof. split; reflexivity. Qed.

Lemma calculateDewPoint_nan (host : MathHost) p :
  not_positive_finite (Prim2SF p) -> calculateDewPoint host p = NaN.
Proof.
  intros H. unfold calculateDewPoint.
  destruct (log_not_positive_finite host (p / 6.112)
              (div_not_positive_finite p 6.112 H positive_6_112)) as [-> | [-> | ->]];
    reflexivity.
Qed.

Lemma eqb_zero x : (x =? 0) = true -> exists s, Prim2SF x = S754_zero s.
Proof.
  rewrite eqb_spec. change (Prim2SF 0) with (S754_zero false).
  destruct (Prim2SF x) as [s|s| |s m e]; try discriminate; try (destruct s; discriminate).
  eauto.
Qed.

(** The vapor pressure of dry air: a zero, or NaN when the saturation
    pressure is not finite. *)
Lemma dry_vapor_pressure humidity satPressure :
  (humidity =? 0) = true ->
  not_positive_finite (Prim2SF ((humidity / 100) * satPressure)).
Proof.
  intros H. destruct (eqb_zero _ H) as [s Hs].
  rewrite mul_spec, div_spec, Hs.
  destruct (Prim2SF 100) as [| | |s1 m1 e1] eqn:E; try discriminate.
  destruct (Prim2SF satPressure) as [s2|s2| |s2 m2 e2]; exact I.
Qed.

Lemma leb_nan_l x : (NaN <=? x) = false.
Proof. rewrite leb_spec. reflexivity. Qed.

Lemma leb_cases x y : (x <=? y) = true -> (x =? y) = true \/ (x <? y) = true.
Proof.
  rewrite leb_spec, eqb_spec, ltb_spec. unfold SFleb, SFeqb, SFltb.
  destruct (SFcompare _ _) as [[]|]; simpl; intros; try discriminate; auto.
Qed.

Lemma eqb_eq x y : (x =? y) = true -> finite_nonzero (Prim2SF x) = true -> x = y.
Proof.
  rewrite eqb_spec. intros H Hf. apply Prim2SF_inj. apply SFeqb_eq; assumption.
Qed.

Lemma atmospheric_pressure_repr :
  exists m e, Prim2SF ATMOSPHERIC_PRESSURE = S754_finite false m e /\
              (Z.log2 (Zpos m) + 1 + e <= emax - 1)%Z.
Proof.
  set (a := Prim2SF ATMOSPHERIC_PRESSURE). vm_compute in a.
  match goal with a := S754_finite _ ?m ?e |- _ => exists m, e end.
  split; [reflexivity|]. vm_compute. discriminate.
Qed.

Lemma calculateAbsoluteHumidity_above p :
  (ATMOSPHERIC_PRESSURE <? p) = true ->
  is_nan (calculateAbsoluteHumidity p) = true \/
  (calculateAbsoluteHumidity p <=? 0) = true.
Proof.
  intros Hlt. unfold calculateAbsoluteHumidity.
  pose proof (sub_negative ATMOSPHERIC_PRESSURE p) as Hneg. rewrite Hlt in Hneg.
  rewrite ltb_spec in Hneg. change (Prim2SF 0) with (S754_zero false) in Hneg.
  assert (Hp : SFltb (S754_zero false) (Prim2SF p) = true).
  { rewrite ltb_spec in Hlt. destruct atmospheric_pressure_repr as (ma & ea & HA & _).
    rewrite HA in Hlt.
    destruct (Prim2SF p) as [s|s| |s m e]; try discriminate; destruct s; try discriminate;
      reflexivity. }
  rewrite is_nan_spec, leb_spec, div_spec, mul_spec.
  change (Prim2SF 0) with (S754_zero false).
  destruct (Prim2SF 622) as [| | |s6 m6 e6] eqn:E6; try discriminate.
  assert (s6 = false) as -> by (vm_compute in E6; congruence).
  apply SFmul_div_le0; assumption.
Qed.

End HumidityFacts.

(** ** The reference host for texts meets the laws *)

Definition reference_strings : JSString.StringHost.
Proof.
  refine {| JSString.parseFloat := ReferenceText.reference_parseFloat;
            JSString.Number_of_string := ReferenceText.reference_Number |};
    reflexivity.
Defined.

(** ** The number box of a slider *)

Module SliderFacts.

Import SF FloatFacts DifferenceFacts HumidityFacts JSString Ranges.

Lemma ltb_not_nan_l x y : (x <? y) = true -> is_nan x = false.
Proof.
  intros H. destruct (is_nan x) eqn:E; [|reflexivity].
  rewrite (ltb_nan_l x y E) in H. discriminate.
Qed.

Lemma clamp_between lo hi x :
  is_nan x = false -> (lo <=? hi) = true ->
  (lo <=? clamped lo hi x) = true /\ (clamped lo hi x <=? hi) = true.
Proof.
  intros Hx Hle. destruct (leb_not_nan _ _ Hle) as [Hlo Hhi]. unfold clamped.
  assert (Hy : is_nan (if x <? lo then lo else x) = false /\
               (lo <=? (if x <? lo then lo else x)) = true).
  { destruct (x <? lo) eqn:E; split; try assumption.
    - apply leb_refl; assumption.
    - apply not_ltb_leb; assumption. }
  destruct Hy as [Hny Hly]. set (y := if x <? lo then lo else x) in *.
  destruct (hi <? y) eqn:E.
  - split; [assumption|apply leb_refl; assumption].
  - split; [assumption|apply not_ltb_leb; assumption].
Qed.

Lemma clamp_inside lo hi x :
  (lo <=? x) = true -> (x <=? hi) = true -> clamped lo hi x = x.
Proof.
  intros Hlo Hhi. unfold clamped. rewrite (leb_not_ltb _ _ Hlo), (leb_not_ltb _ _ Hhi). reflexivity.
Qed.

Lemma clamp_not_nan lo hi x : is_nan x = false -> is_nan (clamped lo hi x) = false.
Proof.
  intros Hx. unfold clamped.
  assert (Hy : is_nan (if x <? lo then lo else x) = false).
  { destruct (x <? lo) eqn:E; [apply (ltb_not_nan_r _ _ E)|assumption]. }
  destruct (hi <? _) eqn:E; [apply (ltb_not_nan_l _ _ E)|assumption].
Qed.

Lemma handleInputBlur_number (strings : StringHost) props target_value :
  is_nan (parseFloat target_value) = false ->
  Slider.handleInputBlur strings props target_value =
  Slider.onChange (clamped (Slider.min props) (Slider.max props) (parseFloat target_value)).
Proof.
  intros H. unfold Slider.handleInputBlur, isNaN, clamped. rewrite H. reflexivity.
Qed.

Lemma handleInputBlur_text (strings : StringHost) props target_value :
  is_nan (parseFloat target_value) = true ->
  Slider.handleInputBlur strings props target_value =
  Slider.setDisplayValue (Number_toString (Slider.value props)).
Proof.
  intros H. unfold Slider.handleInputBlur, isNaN. rewrite H. reflexivity.
Qed.

End SliderFacts.

(** ** The component *)

Module AppFacts.

Import SF FloatFacts DifferenceFacts SliderFacts JSString App Ranges.

(** After every event the results are those of the current inputs. *)
Lemma react_settled host strings state e :
  results state = calculateHvacPerformance host (inputs state) ->
  results (react host strings state e) =
  calculateHvacPerformance host (inputs (react host strings state e)).
Proof.
  intros H. unfold react. destruct (handle strings e state); [assumption|reflexivity].
Qed.

Lemma fold_settled host strings events : forall state,
  results state = calculateHvacPerformance host (inputs state) ->
  results (List.fold_left (react host strings) events state) =
  calculateHvacPerformance host (inputs (List.fold_left (react host strings) events state)).
Proof.
  induction events as [|e events IH]; intros state H; simpl; [assumption|].
  apply IH, react_settled, H.
Qed.

Lemma run_settled host strings events :
  results (run host strings events) =
  calculateHvacPerformance host (inputs (run host strings events)).
Proof. apply fold_settled. reflexivity. Qed.

(** The bounds of a slider do not depend on the inputs, and a slider shows
    the field it is wired to. *)
Lemma slider_bounds field inputs1 inputs2 :
  Slider.min (slider field inputs1) = Slider.min (slider field inputs2) /\
  Slider.max (slider field inputs1) = Slider.max (slider field inputs2).
Proof. destruct field; split; reflexivity. Qed.

Lemma slider_value field value prev :
  Slider.value (slider field (handleInputChange field value prev)) = value.
Proof. destruct field; reflexivity. Qed.

Lemma slider_ordered field inputs :
  (Slider.min (slider field inputs) <=? Slider.max (slider field inputs)) = true.
Proof. destruct field; reflexivity. Qed.

(** Setting one field to a value in its range keeps all fields in range. *)
Lemma handleInputChange_withinRange field value prev :
  allWithinRange prev = true ->
  withinRange (slider field (handleInputChange field value prev)) = true ->
  allWithinRange (handleInputChange field value prev) = true.
Proof.
  unfold allWithinRange, fields. cbn [List.forallb]. rewrite !andb_true_iff.
  intros (H1 & H2 & H3 & H4 & H5 & H6 & _) H.
  destruct field; repeat split; assumption.
Qed.

Lemma react_withinRange host strings state e :
  rangeInput strings e = true ->
  allWithinRange (inputs state) = true ->
  allWithinRange (inputs (react host strings state e)) = true.
Proof.
  intros He Hs. unfold react.
  destruct (handle strings e state) as [d|v] eqn:Hh; [assumption|].
  cbn [useEffect inputs]. apply handleInputChange_withinRange; [assumption|].
  destruct e as [field target_value|field target_value]; cbn [fieldOf handle] in *.
  - injection Hh as <-. unfold rangeInput in He. cbv zeta in He.
    unfold withinRange. rewrite slider_value.
    destruct (slider_bounds field
                (handleInputChange field (Number_of_string target_value) (inputs state))
                initialInputs)
      as [-> ->].
    exact He.
  - destruct (is_nan (parseFloat target_value)) eqn:En.
    + rewrite handleInputBlur_text in Hh by assumption. discriminate.
    + rewrite handleInputBlur_number in Hh by assumption. injection Hh as Hv.
      destruct (clamp_between _ _ _ En (slider_ordered field (inputs state))) as [H1 H2].
      rewrite Hv in H1, H2.
      unfold withinRange. rewrite slider_value.
      destruct (slider_bounds field (handleInputChange field v (inputs state)) (inputs state))
        as [-> ->].
      rewrite H1, H2. reflexivity.
Qed.

Lemma fold_withinRange host strings events : forall state,
  List.forallb (rangeInput strings) events = true ->
  allWithinRange (inputs state) = true ->
  allWithinRange (inputs (List.fold_left (react host strings) events state)) = true.
Proof.
  induction events as [|e events IH]; intros state He Hs; simpl; [assumption|].
  simpl in He. apply andb_true_iff in He. destruct He as [He Hes].
  apply IH; [assumption|]. apply react_withinRange; assumption.
Qed.

End AppFacts.

(** ** The engine at equal temperatures and with the coil on the wrong side *)

Module EngineFacts.

Import SF SpecFacts FloatFacts RoundingFacts DifferenceFacts HumidityFacts.

Lemma waterSizing_swap totalPower_kW supplyTemp returnTemp :
  waterSizing totalPower_kW supplyTemp returnTemp =
  waterSizing totalPower_kW returnTemp supplyTemp.
Proof. unfold waterSizing, Math_abs. rewrite (abs_sub_comm supplyTemp returnTemp). reflexivity. Qed.

Lemma waterSizing_equal totalPower_kW supplyTemp returnTemp :
  (supplyTemp =? returnTemp) = true ->
  waterSizing totalPower_kW supplyTemp returnTemp = (Infinity, Infinity).
Proof.
  intros H. unfold waterSizing, Math_abs. rewrite abs_sub_positive.
  destruct (eqb_not_ltb _ _ H) as [-> ->]. reflexivity.
Qed.

(** The clamp of the efficiency maps both zeros to [+0]. *)
Lemma clamp_zero z s : Prim2SF z = S754_zero s -> Math_max 0 (Math_min z 1) = 0.
Proof. intros H. destruct (zero_cases z s H) as [-> | ->]; reflexivity. Qed.

Lemma zero_div_negative z s d :
  Prim2SF z = S754_zero s -> (d <? 0) = true -> exists s', Prim2SF (z / d) = S754_zero s'.
Proof.
  rewrite ltb_spec, div_spec. change (Prim2SF 0) with (S754_zero false). intros -> H.
  destruct (Prim2SF d) as [sd|sd| |sd md ed]; try discriminate;
    try (destruct sd; discriminate); simpl; eauto.
Qed.

Lemma mul_zero x z s :
  Prim2SF z = S754_zero s -> is_nan (x * z) = true \/ (x * z =? 0) = true.
Proof.
  rewrite is_nan_spec, eqb_spec, mul_spec. change (Prim2SF 0) with (S754_zero false).
  intros ->. destruct (Prim2SF x) as [sx|sx| |sx mx ex]; simpl; auto.
Qed.

Lemma efficiencyOf_idle outsideTemp targetTemp supplyTemp s :
  Prim2SF (targetTemp - outsideTemp) = S754_zero s ->
  efficiencyOf false outsideTemp targetTemp supplyTemp = 0.
Proof.
  intros H. unfold efficiencyOf. cbn [andb negb orb].
  destruct ((supplyTemp - outsideTemp <? 0) && _) eqn:E.
  - apply andb_true_iff in E. destruct E as [E _].
    destruct (zero_div_negative _ s _ H E) as [s' Hs']. apply (clamp_zero _ s' Hs').
  - reflexivity.
Qed.

Lemma efficiencyOf_wrong_side outsideTemp targetTemp supplyTemp :
  (if outsideTemp <? targetTemp
   then supplyTemp <=? outsideTemp else outsideTemp <=? supplyTemp) = true ->
  efficiencyOf (outsideTemp <? targetTemp) outsideTemp targetTemp supplyTemp = 0.
Proof.
  intros H. unfold efficiencyOf. rewrite sub_positive, sub_negative.
  destruct (outsideTemp <? targetTemp); rewrite (leb_not_ltb _ _ H); reflexivity.
Qed.

End EngineFacts.

(** ** The sign of the powers *)

Module SignFacts.

Import SF Signs SpecFacts FloatFacts RoundingFacts DifferenceFacts.

Lemma signed_like_sign_or_zero s a : signed_like s a -> sign_or_zero s a.
Proof. intros []; simpl; auto. Qed.

Lemma SFmul_sign_or_zero s1 s2 a b :
  sign_or_zero s1 a -> sign_or_zero s2 b ->
  sf_is_nan (SF64mul a b) = true \/ sign_or_zero (xorb s1 s2) (SF64mul a b).
Proof.
  intros Ha Hb.
  destruct a as [sa|sa| |sa ma ea], b as [sb|sb| |sb mb eb]; simpl in Ha, Hb;
    try contradiction; subst; simpl; auto.
  right. apply signed_like_sign_or_zero, binary_round_aux_nonneg. discriminate.
Qed.

Lemma SFdiv_sign_or_zero s a b :
  sign_or_zero s a -> finite_nonzero b = true -> sf_sign b = false ->
  sign_or_zero s (SF64div a b).
Proof.
  intros Ha Hb Hs. destruct b as [| | |sb mb eb]; try discriminate. simpl in Hs. subst sb.
  destruct a as [sa|sa| |sa ma ea]; simpl in Ha; try contradiction.
  - exact I.
  - subst sa. destruct s; reflexivity.
  - subst sa.
    pose proof (SFdiv_signed s (S754_finite s ma ea) (S754_finite false mb eb)
                  (sl_finite _ _ _) eq_refl) as H.
    simpl sf_sign in H. rewrite xorb_false_r in H. apply signed_like_sign_or_zero, H.
Qed.

Section Binary64.

Local Open Scope Z_scope.
Local Abbreviation emin := (SpecFloat.emin prec emax).

(** The sum of two numbers that are at most zero is at most zero. *)
Lemma SFadd_sign_or_zero a b :
  valid_binary a = true -> valid_binary b = true ->
  sign_or_zero true a -> sign_or_zero true b -> sign_or_zero true (SF64add a b).
Proof.
  intros Va Vb Ha Hb.
  destruct a as [sa|sa| |sa ma ea], b as [sb|sb| |sb mb eb]; simpl in Ha, Hb;
    try contradiction; subst; try exact I; try reflexivity.
  - destruct sa, sb; exact I.
  - apply valid_finite_canonical in Va, Vb.
    destruct (canonical_facts _ _ Va) as [Hea _], (canonical_facts _ _ Vb) as [Heb _].
    unfold SF64add, SFadd.
    set (D := cond_Zopp true _ + cond_Zopp true _).
    assert (HD : D < 0) by (subst D; unfold cond_Zopp; lia).
    destruct (binary_normalize_signed D (Z.min ea eb) ltac:(lia) ltac:(lia))
      as [(m' & e' & ->)| ->]; simpl; destruct (Z.ltb_spec D 0); try reflexivity; lia.
Qed.

End Binary64.

Lemma nan_or_leb s x :
  nan_or s x ->
  is_nan x = true \/ (if s then x <=? 0 else 0 <=? x) = true.
Proof.
  intros [H|H]; [left; exact H|right].
  destruct s; rewrite leb_spec; change (Prim2SF 0) with (S754_zero false);
    destruct (Prim2SF x) as [s'|s'| |s' m e]; simpl in H; try contradiction; subst; reflexivity.
Qed.

Lemma nan_or_nonneg x : (0 <=? x) = true -> nan_or false x.
Proof.
  rewrite leb_spec. change (Prim2SF 0) with (S754_zero false). intros H. right.
  destruct (Prim2SF x) as [s|s| |s m e]; try discriminate; simpl; try exact I;
    destruct s; try discriminate; reflexivity.
Qed.

Lemma nan_or_constant c : positive_constant c -> nan_or false c.
Proof.
  intros [Hc Hs]. right.
  destruct (Prim2SF c) as [| | |s m e]; try discriminate. exact Hs.
Qed.

(** The sign of [t - o], read off the comparison that decides the mode. *)
Lemma nan_or_difference t o : nan_or (negb (0 <? t - o)) (t - o).
Proof.
  destruct (0 <? t - o) eqn:E; rewrite ltb_spec in E;
    change (Prim2SF 0) with (S754_zero false) in E; unfold nan_or; rewrite is_nan_spec;
    destruct (Prim2SF (t - o)) as [s|s| |s m e]; simpl; auto;
    destruct s; try discriminate; auto.
Qed.

Lemma nan_or_mul s1 s2 x y : nan_or s1 x -> nan_or s2 y -> nan_or (xorb s1 s2) (x * y).
Proof.
  intros [Hx|Hx] [Hy|Hy]; unfold nan_or.
  - left. apply mul_nan_l, Hx.
  - left. apply mul_nan_l, Hx.
  - left. rewrite mul_comm. apply mul_nan_l, Hy.
  - rewrite is_nan_spec, mul_spec. apply SFmul_sign_or_zero; assumption.
Qed.

Lemma nan_or_div_constant s x c : nan_or s x -> positive_constant c -> nan_or s (x / c).
Proof.
  intros [Hx|Hx] [Hc Hs]; [left; apply div_nan_l, Hx|right].
  rewrite div_spec. apply SFdiv_sign_or_zero; assumption.
Qed.

Lemma nan_or_add x y : nan_or true x -> nan_or true y -> nan_or true (x + y).
Proof.
  intros [Hx|Hx] [Hy|Hy]; unfold nan_or.
  - left. apply add_nan_l, Hx.
  - left. apply add_nan_l, Hx.
  - left. rewrite is_nan_spec, add_spec. rewrite is_nan_spec in Hy.
    destruct (Prim2SF y); try discriminate. destruct (Prim2SF x); reflexivity.
  - right. rewrite add_spec. apply SFadd_sign_or_zero; try apply Prim2SF_valid; assumption.
Qed.

Lemma nan_or_add_zero x : nan_or false x -> nan_or false (x + 0).
Proof.
  intros [Hx|Hx]; [left; apply add_nan_l, Hx|right].
  rewrite add_spec. change (Prim2SF 0) with (S754_zero false).
  destruct (Prim2SF x) as [s|s| |s m e]; simpl in Hx; try contradiction; subst;
    try reflexivity; try exact I. destruct s; exact I.
Qed.

Lemma nan_or_opp_abs x : nan_or true (- abs x).
Proof.
  unfold nan_or. rewrite is_nan_spec, opp_spec, abs_spec.
  destruct (Prim2SF x); simpl; auto.
Qed.

Lemma positive_air_density : positive_constant AIR_DENSITY. Proof. split; reflexivity. Qed.
Lemma positive_air_heat : positive_constant SPECIFIC_HEAT_AIR. Proof. split; reflexivity. Qed.

(** The sensible power has the sign of the temperature difference when the
    volume flow is at least zero. *)
Lemma sensible_sign volumeFlow targetTemp outsideTemp :
  (0 <=? volumeFlow) = true ->
  nan_or (negb (0 <? targetTemp - outsideTemp))
    (volumeFlow * AIR_DENSITY / 3600 * SPECIFIC_HEAT_AIR * (targetTemp - outsideTemp)).
Proof.
  intros H.
  apply (nan_or_mul false); [|apply nan_or_difference].
  apply (nan_or_mul false false); [|apply nan_or_constant, positive_air_heat].
  apply nan_or_div_constant; [|apply SizingFacts.positive_3600].
  apply (nan_or_mul false false); [|apply nan_or_constant, positive_air_density].
  apply nan_or_nonneg, H.
Qed.

(** Without heating the latent power is zero or the negated absolute value
    of the condensation power. *)
Lemma latent_sign host amf targetTemp vaporPressure dewPoint initialAbsoluteHumidity :
  snd (humidityPath host true amf targetTemp vaporPressure dewPoint
         initialAbsoluteHumidity) = 0 /\
  nan_or true (snd (humidityPath host false amf targetTemp vaporPressure dewPoint
                      initialAbsoluteHumidity)).
Proof.
  unfold humidityPath. split; [reflexivity|].
  destruct (dewPoint <=? targetTemp); cbn [snd]; [right; exact I|apply nan_or_opp_abs].
Qed.

End SignFacts.

(** ** Rounding a quotient: what [binary_round_aux] returns

    [SpecFloat] rounds a mantissa by shifting it right and recording where
    the lost bits lie.  Read as a fraction [N / D], the record is rounded to
    the nearest integer, ties to even. *)

Module ShiftFacts.

Import SF SpecFacts RoundingFacts Location.
Local Open Scope Z_scope.
Local Abbreviation emin := (SpecFloat.emin prec emax).

Lemma holds_of_loc N D : 0 <= N -> 0 < D ->
  holds (shr_record_of_loc (N / D) (loc_of (N mod D) D)) N D.
Proof.
  intros HN HD. repeat split; try assumption.
  - apply shr_m_of_loc.
  - destruct (loc_of _ _) as [|[]]; reflexivity.
Qed.

Lemma shr_1_loc q rb sb r D : 0 <= q -> 0 <= r < D ->
  loc_of_shr_record (Build_shr_record q rb sb) = loc_of r D ->
  loc_of_shr_record (shr_1 (Build_shr_record q rb sb)) = loc_of (D * (q mod 2) + r) (2 * D).
Proof.
  intros Hq Hr Hl. rewrite Zmod_odd.
  assert (Hs : orb rb sb = negb (r =? 0)).
  { unfold loc_of in Hl. destruct (r =? 0), rb, sb; try discriminate; reflexivity. }
  assert (L0 : r <> 0 -> loc_of r (2 * D) = loc_Inexact Lt).
  { intros H. unfold loc_of. replace (r =? 0) with false by (symmetry; apply Z.eqb_neq; lia).
    replace (2 * r ?= 2 * D) with Lt; [reflexivity|]. symmetry. apply Z.compare_lt_iff. lia. }
  assert (L1 : loc_of (D * 1 + r) (2 * D) =
               if r =? 0 then loc_Inexact Eq else loc_Inexact Gt).
  { unfold loc_of. replace (D * 1 + r =? 0) with false by (symmetry; apply Z.eqb_neq; lia).
    destruct (Z.eqb_spec r 0) as [->|H].
    - replace (2 * (D * 1 + 0) ?= 2 * D) with Eq; [reflexivity|].
      symmetry. apply Z.compare_eq_iff. lia.
    - replace (2 * (D * 1 + r) ?= 2 * D) with Gt; [reflexivity|].
      symmetry. apply Z.compare_gt_iff. lia. }
  unfold shr_1. rewrite Hs.
  destruct q as [|[p|p|]|p]; try lia; cbn [Z.odd loc_of_shr_record];
    rewrite ?Z.mul_0_r, ?Z.add_0_l, ?L1;
    destruct (Z.eqb_spec r 0) as [->|H]; cbn [negb]; try reflexivity;
    rewrite L0 by assumption; reflexivity.
Qed.

Lemma holds_shr_1 mrs N D : holds mrs N D -> holds (shr_1 mrs) N (2 * D).
Proof.
  intros (HN & HD & Hm & Hl).
  assert (Hq : 0 <= N / D) by (apply Z.div_pos; lia).
  assert (Hr := Z.mod_pos_bound N D HD).
  assert (E2 : N / (2 * D) = N / D / 2) by (rewrite Z.mul_comm, Z.div_div by lia; f_equal; lia).
  assert (Em : N mod (2 * D) = D * ((N / D) mod 2) + N mod D).
  { rewrite (Z.mul_comm 2 D), Z.rem_mul_r by lia. lia. }
  repeat split; try lia.
  - rewrite shr_1_m, Z.div2_div, Hm, E2 by lia. reflexivity.
  - rewrite Em. destruct mrs as [m rb sb]. simpl in Hm. subst m.
    apply shr_1_loc; assumption.
Qed.

Lemma holds_iter p : forall mrs N D,
  holds mrs N D -> holds (iter_pos shr_1 p mrs) N (2 ^ Zpos p * D).
Proof.
  induction p as [p IH|p IH|]; intros mrs N D H; simpl iter_pos.
  - apply holds_shr_1 in H. apply IH, IH in H.
    replace (2 ^ Zpos p~1 * D) with (2 ^ Zpos p * (2 ^ Zpos p * (2 * D))); [exact H|].
    rewrite (Pos2Z.inj_xI p), Z.pow_add_r, Z.pow_mul_r by lia.
    change (2 ^ 2) with 4. rewrite Z.pow_1_r.
    replace (4 ^ Zpos p) with (2 ^ Zpos p * 2 ^ Zpos p); [ring|].
    rewrite <- Z.pow_mul_l. reflexivity.
  - apply IH, IH in H.
    replace (2 ^ Zpos p~0 * D) with (2 ^ Zpos p * (2 ^ Zpos p * D)); [exact H|].
    rewrite (Pos2Z.inj_xO p), Z.pow_mul_r by lia. change (2 ^ 2) with 4.
    replace (4 ^ Zpos p) with (2 ^ Zpos p * 2 ^ Zpos p); [ring|].
    rewrite <- Z.pow_mul_l. reflexivity.
  - apply holds_shr_1 in H. exact H.
Qed.

Lemma holds_shr mrs N D e n : holds mrs N D ->
  holds (fst (shr mrs e n)) N (2 ^ Z.max n 0 * D) /\ snd (shr mrs e n) = e + Z.max n 0.
Proof.
  intros H. destruct n as [|p|p]; simpl shr; cbn [fst snd].
  - rewrite Z.mul_1_l. split; [exact H|lia].
  - split; [|lia]. replace (Z.max (Zpos p) 0) with (Zpos p) by lia. apply holds_iter, H.
  - change (Z.max (Zneg p) 0) with 0. rewrite Z.mul_1_l. split; [exact H|lia].
Qed.

(** Rounding to nearest: the integer chosen is within one half of [N / D]. *)
Lemma round_nearest_even_holds mrs N D : holds mrs N D ->
  Z.abs (2 * (D * round_nearest_even (shr_m mrs) (loc_of_shr_record mrs) - N)) <= D /\
  0 <= round_nearest_even (shr_m mrs) (loc_of_shr_record mrs).
Proof.
  intros (HN & HD & Hm & Hl). rewrite Hm, Hl.
  pose proof (Z.div_mod N D ltac:(lia)) as Hdm.
  pose proof (Z.mod_pos_bound N D HD) as Hr.
  assert (Hq : 0 <= N / D) by (apply Z.div_pos; lia).
  set (q := N / D) in *. set (r := N mod D) in *.
  unfold loc_of. destruct (Z.eqb_spec r 0) as [E|E]; cbn [round_nearest_even].
  - split; [|assumption]. apply Z.abs_le. lia.
  - destruct (Z.compare_spec (2 * r) D); cbn [round_nearest_even].
    + destruct (Z.even q); (split; [apply Z.abs_le|]); lia.
    + split; [apply Z.abs_le|]; lia.
    + split; [apply Z.abs_le|]; lia.
Qed.

Lemma Zdigits2_nonneg m : 0 <= Zdigits2 m.
Proof. destruct m; simpl; lia. Qed.

Lemma Zdigits2_le m p : 0 <= m -> 0 <= p -> (Zdigits2 m <= p <-> m < 2 ^ p).
Proof.
  intros Hm Hp. destruct m as [|q|q]; try lia.
  - simpl. split; intros _; [apply Z.pow_pos_nonneg|]; lia.
  - rewrite Zdigits2_log2. rewrite (Z.log2_lt_pow2 (Zpos q) p) by lia. lia.
Qed.

Lemma Zdigits2_div m k : 0 <= m -> 0 <= k ->
  m / 2 ^ k = 0 \/ Zdigits2 (m / 2 ^ k) = Zdigits2 m - k.
Proof.
  intros Hm Hk. destruct (Z.eq_dec (m / 2 ^ k) 0) as [E|E]; [left; exact E|right].
  assert (Hq : 0 < m / 2 ^ k).
  { pose proof (Z.div_pos m (2 ^ k) Hm ltac:(apply Z.pow_pos_nonneg; lia)). lia. }
  assert (Hm' : 0 < m).
  { destruct (Z.eq_dec m 0) as [->|]; [rewrite Z.div_0_l in Hq; lia|lia]. }
  destruct m as [|p|p]; try lia.
  destruct (Zpos p / 2 ^ k) as [|q|q] eqn:Eq; try lia.
  assert (L : k <= Z.log2 (Zpos p)).
  { destruct (Z.lt_ge_cases (Z.log2 (Zpos p)) k) as [L|L]; [|lia].
    exfalso. rewrite Z.div_small in Eq; [discriminate|].
    split; [lia|]. apply Z.log2_lt_pow2; lia. }
  rewrite !Zdigits2_log2, <- Eq, <- Z.shiftr_div_pow2, Z.log2_shiftr by lia. lia.
Qed.

Ltac fexp_lia := unfold fexp, SpecFloat.emin, prec, emax in *; lia.

Section Rounding.

(** The second shift of [binary_round_aux]: by one place when the rounding
    carried into a new bit, by none otherwise. *)
Lemma second_shift z e1 : 0 < z <= 2 ^ 53 -> emin <= e1 ->
  exists mz ez,
    shr_m (fst (shr_fexp prec emax z e1 loc_Exact)) = Zpos mz /\
    snd (shr_fexp prec emax z e1 loc_Exact) = ez /\
    Zpos mz * 2 ^ (ez - e1) = z /\ e1 <= ez <= e1 + 1.
Proof.
  intros Hz He. unfold shr_fexp.
  destruct (Z.eq_dec z (2 ^ 53)) as [Ec|Ec].
  - exists 4503599627370496%positive, (e1 + 1).
    rewrite Ec.
    replace (Zdigits2 (2 ^ 53)) with 54 by reflexivity.
    replace (fexp prec emax (54 + e1) - e1) with 1 by fexp_lia.
    cbn [shr shr_record_of_loc iter_pos fst snd].
    replace (e1 + 1 - e1) with 1 by lia.
    repeat split; try reflexivity; lia.
  - assert (Hzd : Zdigits2 z <= 53) by (apply Zdigits2_le; lia).
    exists (Z.to_pos z), e1.
    replace (fexp prec emax (Zdigits2 z + e1) - e1) with
      (Z.min 0 (fexp prec emax (Zdigits2 z + e1) - e1)) by fexp_lia.
    destruct (Z.min 0 _) as [|p|p] eqn:En; try lia;
      cbn [shr shr_record_of_loc shr_m fst snd];
      rewrite Z.sub_diag, Z.mul_1_r, Z2Pos.id by lia; repeat split; lia.
Qed.

(** What [binary_round_aux] returns for the non-negative rational [N / D]
    at exponent [e]: the integer [z] nearest to [N / (2^k D)] at the exponent
    [e + k]. *)
Lemma binary_round_aux_holds s N D e : 0 <= N -> 0 < D ->
  let k := Z.max (fexp prec emax (Zdigits2 (N / D) + e) - e) 0 in
  exists z,
    0 <= z <= 2 ^ 53 /\ emin <= e + k /\
    Z.abs (2 * (2 ^ k * D * z - N)) <= 2 ^ k * D /\
    ((z = 0 /\ binary_round_aux prec emax s (N / D) e (loc_of (N mod D) D) = S754_zero s) \/
     (0 < z /\ exists mz ez,
        Zpos mz * 2 ^ (ez - (e + k)) = z /\ e + k <= ez <= e + k + 1 /\
        ((ez <= emax - prec /\
          binary_round_aux prec emax s (N / D) e (loc_of (N mod D) D) = S754_finite s mz ez) \/
         (emax - prec < ez /\
          binary_round_aux prec emax s (N / D) e (loc_of (N mod D) D) = S754_infinity s)))).
Proof.
  intros HN HD k.
  assert (Hm : 0 <= N / D) by (apply Z.div_pos; lia).
  remember (binary_round_aux prec emax s (N / D) e (loc_of (N mod D) D)) as res eqn:Eres.
  unfold binary_round_aux in Eres. unfold shr_fexp at 1 in Eres.
  destruct (holds_shr _ N D e (fexp prec emax (Zdigits2 (N / D) + e) - e)
              (holds_of_loc N D HN HD)) as [H1 He1].
  fold k in H1, He1.
  destruct (shr _ e _) as [mrs' e1]. cbn [fst snd] in H1, He1. subst e1.
  destruct (round_nearest_even_holds _ _ _ H1) as [Hz Hz0].
  pose proof (round_nearest_even_le (shr_m mrs') (loc_of_shr_record mrs')) as Hzle.
  set (z := round_nearest_even (shr_m mrs') (loc_of_shr_record mrs')) in *.
  clearbody z.
  destruct H1 as (_ & HD' & Hm1 & _).
  assert (Hk : 0 <= k) by (subst k; lia).
  assert (He1 : emin <= e + k) by (subst k; fexp_lia).
  (* the shifted mantissa fits the precision *)
  assert (Hfit : shr_m mrs' < 2 ^ 53).
  { rewrite Hm1. rewrite <- (Z.mul_comm D), <- Z.div_div by (try apply Z.pow_pos_nonneg; lia).
    apply Zdigits2_le; [apply Z.div_pos; [assumption|apply Z.pow_pos_nonneg; lia]|lia|].
    destruct (Zdigits2_div (N / D) k Hm Hk) as [-> | ->]; [simpl; lia|].
    subst k. fexp_lia. }
  exists z. split; [lia|]. split; [assumption|]. split; [exact Hz|].
  destruct (Z.eq_dec z 0) as [Ez|Ez].
  - left. split; [assumption|]. rewrite Ez in Eres. unfold shr_fexp in Eres.
    cbn [Zdigits2 Z.add] in Eres.
    replace (fexp prec emax (e + k) - (e + k)) with
      (Z.min 0 (fexp prec emax (e + k) - (e + k))) in Eres by fexp_lia.
    destruct (Z.min 0 _) as [|p|p] eqn:En; try lia; exact Eres.
  - right. split; [lia|].
    destruct (second_shift z (e + k) ltac:(lia) He1) as (mz & ez & Hmz & Hez & Hval & Hrange).
    exists mz, ez. split; [exact Hval|]. split; [exact Hrange|].
    destruct (shr_fexp prec emax z (e + k) loc_Exact) as [mrs'' e'']. cbn [fst snd] in Hmz, Hez.
    rewrite Hmz, Hez in Eres.
    destruct (Z.leb_spec ez (emax - prec)); [left|right]; split; assumption.
Qed.

End Rounding.

End ShiftFacts.

(** ** Powers of two as real numbers *)

Module Pow2Facts.

Import Reals.
Import RealValue.
Local Open Scope R_scope.

Lemma pow2_pos e : 0 < pow2 e.
Proof. apply powerRZ_lt. lra. Qed.

Lemma pow2_add a b : pow2 (a + b) = pow2 a * pow2 b.
Proof. apply powerRZ_add. lra. Qed.

Lemma pow2_0 : pow2 0 = 1.
Proof. reflexivity. Qed.

Lemma pow2_1 : pow2 1 = 2.
Proof. unfold pow2. simpl. lra. Qed.

Lemma pow2_IZR k : (0 <= k)%Z -> pow2 k = IZR (2 ^ k).
Proof.
  intros Hk. unfold pow2. rewrite <- (Z2Nat.id k Hk) at 1.
  rewrite <- pow_powerRZ, pow_IZR, Z2Nat.id by assumption. reflexivity.
Qed.

Lemma pow2_ge_1 k : (0 <= k)%Z -> 1 <= pow2 k.
Proof.
  intros Hk. rewrite pow2_IZR by assumption. apply IZR_le.
  pose proof (Z.pow_pos_nonneg 2 k ltac:(lia) Hk). lia.
Qed.

Lemma pow2_le a b : (a <= b)%Z -> pow2 a <= pow2 b.
Proof.
  intros H. replace b with (a + (b - a))%Z by lia. rewrite pow2_add.
  pose proof (pow2_pos a). pose proof (pow2_ge_1 (b - a) ltac:(lia)). nra.
Qed.

Lemma pow2_lt a b : (a < b)%Z -> pow2 a < pow2 b.
Proof.
  intros H. replace b with (a + 1 + (b - a - 1))%Z by lia. rewrite !pow2_add.
  pose proof (pow2_pos a). pose proof (pow2_ge_1 (b - a - 1) ltac:(lia)).
  rewrite pow2_1. nra.
Qed.

Lemma pow2_lt_inv a b : pow2 a < pow2 b -> (a < b)%Z.
Proof.
  intros H. destruct (Z.lt_ge_cases a b) as [L|L]; [assumption|].
  pose proof (pow2_le b a L). lra.
Qed.

Lemma pow2_half e : pow2 (e - 1) = pow2 e / 2.
Proof.
  replace e with (e - 1 + 1)%Z at 2 by lia. rewrite pow2_add, pow2_1.
  field.
Qed.

Lemma Rabs_le_inv x y : Rabs x <= y -> - y <= x <= y.
Proof. unfold Rabs. destruct (Rcase_abs x); lra. Qed.

End Pow2Facts.

(** ** The error of one rounding *)

Module RoundingError.

Import Reals.
Import SF SpecFacts RoundingFacts Location ShiftFacts RealValue Pow2Facts.
Local Open Scope R_scope.

Lemma IZR_div_le N D : (0 <= N)%Z -> (0 < D)%Z -> IZR (N / D) <= IZR N / IZR D.
Proof.
  intros HN HD. assert (0 < IZR D) by (apply IZR_lt; assumption).
  apply Rmult_le_reg_r with (IZR D); [assumption|].
  replace (IZR N / IZR D * IZR D) with (IZR N) by (field; lra).
  rewrite <- mult_IZR. apply IZR_le. rewrite Z.mul_comm. apply Z.mul_div_le. assumption.
Qed.

Lemma pow2_digits m : (0 < m)%Z -> pow2 (Zdigits2 m - 1) <= IZR m.
Proof.
  intros Hm. destruct m as [|p|p]; try lia.
  rewrite Zdigits2_log2. replace (Z.log2 (Zpos p) + 1 - 1)%Z with (Z.log2 (Zpos p)) by lia.
  rewrite pow2_IZR by apply Z.log2_nonneg. apply IZR_le.
  apply (Z.log2_spec (Zpos p)). lia.
Qed.

(** The standard model of rounding to nearest, with gradual underflow: the
    value returned for [x = N / D * 2^e] is within [u * x + eta] of [x],
    and no infinity is returned below [2^970]. *)
Lemma binary_round_aux_error s N D e :
  (0 <= N)%Z -> (0 < D)%Z ->
  (e <= fexp prec emax (Zdigits2 (N / D) + e) \/ N mod D = 0)%Z ->
  IZR N / IZR D * pow2 e < pow2 970 ->
  exists v, 0 <= v /\
    Rabs (v - IZR N / IZR D * pow2 e) <= unit_roundoff * (IZR N / IZR D * pow2 e) + eta /\
    ((v = 0 /\ binary_round_aux prec emax s (N / D) e (loc_of (N mod D) D) = S754_zero s) \/
     (0 < v /\ exists m' e',
        binary_round_aux prec emax s (N / D) e (loc_of (N mod D) D) = S754_finite s m' e' /\
        v = IZR (Zpos m') * pow2 e')).
Proof.
  intros HN HD Hcond Hx.
  destruct (binary_round_aux_holds s N D e HN HD) as (z & Hz & He & Habs & Hres).
  set (k := Z.max (fexp prec emax (Zdigits2 (N / D) + e) - e) 0) in *.
  assert (Hk : (0 <= k)%Z) by (subst k; lia).
  assert (HDr : 0 < IZR D) by (apply IZR_lt; assumption).
  assert (HNr : 0 <= IZR N) by (apply IZR_le; assumption).
  pose proof (pow2_pos e) as Hpe. pose proof (pow2_pos k) as Hpk.
  pose proof (pow2_pos (e + k)) as Hpek.
  set (x := IZR N / IZR D * pow2 e) in *.
  assert (Hx0 : 0 <= x).
  { subst x. apply Rmult_le_pos; [|lra]. apply Rmult_le_pos; [assumption|].
    apply Rlt_le, Rinv_0_lt_compat. assumption. }
  set (v := IZR z * pow2 (e + k)).
  set (W := (2 ^ k * D * z - N)%Z) in *.
  assert (Ev : v - x = IZR W / IZR D * pow2 e).
  { subst v x W. rewrite minus_IZR, !mult_IZR, <- pow2_IZR, pow2_add by assumption.
    field. lra. }
  assert (HW : Rabs (IZR W) <= pow2 k * IZR D / 2).
  { rewrite <- abs_IZR. apply Rmult_le_reg_l with 2; [lra|].
    replace (2 * (pow2 k * IZR D / 2)) with (IZR (2 ^ k * D))
      by (rewrite mult_IZR, <- pow2_IZR by assumption; field).
    rewrite <- (mult_IZR 2). apply IZR_le.
    rewrite Z.abs_mul in Habs. simpl Z.abs in Habs. exact Habs. }
  assert (Herr : Rabs (v - x) <= pow2 (e + k) / 2).
  { rewrite Ev. unfold Rdiv. rewrite !Rabs_mult, (Rabs_pos_eq (pow2 e)) by lra.
    rewrite (Rabs_pos_eq (/ IZR D)) by (apply Rlt_le, Rinv_0_lt_compat; assumption).
    rewrite pow2_add.
    apply Rle_trans with (pow2 k * IZR D / 2 * / IZR D * pow2 e).
    - apply Rmult_le_compat_r; [lra|]. apply Rmult_le_compat_r; [|exact HW].
      apply Rlt_le, Rinv_0_lt_compat; assumption.
    - apply Req_le. field. lra. }
  assert (Hv0 : 0 <= v).
  { subst v. apply Rmult_le_pos; [apply IZR_le; lia|lra]. }
  assert (Hbound : Rabs (v - x) <= unit_roundoff * x + eta).
  { destruct Hcond as [Hn|Hexact].
    - (* the mantissa was shifted to the canonical exponent *)
      assert (Ek : (e + k = fexp prec emax (Zdigits2 (N / D) + e))%Z) by (subst k; lia).
      eapply Rle_trans; [exact Herr|]. rewrite <- pow2_half.
      destruct (Z.eq_dec (e + k) (-1074)) as [Em|Em].
      + rewrite Em. replace (-1074 - 1)%Z with (-1075)%Z by lia. unfold eta.
        assert (0 <= unit_roundoff * x); [|lra].
        apply Rmult_le_pos; [apply Rlt_le, pow2_pos|assumption].
      + assert (Hd : (e + k = Zdigits2 (N / D) + e - 53)%Z) by fexp_lia.
        assert (Hm : (0 < N / D)%Z).
        { pose proof (Z.div_pos N D HN ltac:(lia)).
          destruct (Z.eq_dec (N / D) 0) as [E0|E0]; [|lia].
          rewrite E0 in Hd. simpl in Hd. lia. }
        assert (Hxm : pow2 (Zdigits2 (N / D) - 1) * pow2 e <= x).
        { subst x. apply Rmult_le_compat_r; [lra|].
          eapply Rle_trans; [apply pow2_digits; assumption|].
          apply IZR_div_le; assumption. }
        replace (e + k - 1)%Z with (-53 + (Zdigits2 (N / D) - 1 + e))%Z by lia.
        rewrite !pow2_add. unfold unit_roundoff, eta.
        pose proof (pow2_pos (-53)) as Hu.
        pose proof (pow2_pos (-1075)) as Heta.
        assert (pow2 (-53) * (pow2 (Zdigits2 (N / D) - 1) * pow2 e) <= pow2 (-53) * x)
          by (apply Rmult_le_compat_l; lra).
        lra.
    - (* the operand is an integer *)
      destruct (Z.eq_dec k 0) as [Ek|Ek].
      + assert (EW : W = 0%Z).
        { subst W. rewrite Ek in *. rewrite Z.pow_0_r, Z.mul_1_l in *.
          pose proof (Z.div_mod N D ltac:(lia)) as Hdm. rewrite Hexact in Hdm.
          apply Z.abs_le in Habs.
          destruct (Z.lt_trichotomy z (N / D)) as [L|[L|L]]; [exfalso| |exfalso]; nia. }
        rewrite Ev, EW. unfold Rdiv. rewrite !Rmult_0_l, Rabs_R0.
        assert (0 <= unit_roundoff * x)
          by (apply Rmult_le_pos; [apply Rlt_le, pow2_pos|assumption]).
        pose proof (pow2_pos (-1075)) as Heta. unfold eta. lra.
      + assert (Hn : (e <= fexp prec emax (Zdigits2 (N / D) + e))%Z) by (subst k; lia).
        assert (Ek' : (e + k = fexp prec emax (Zdigits2 (N / D) + e))%Z) by (subst k; lia).
        eapply Rle_trans; [exact Herr|]. rewrite <- pow2_half.
        destruct (Z.eq_dec (e + k) (-1074)) as [Em|Em].
        * rewrite Em. replace (-1074 - 1)%Z with (-1075)%Z by lia. unfold eta.
          assert (0 <= unit_roundoff * x); [|lra].
          apply Rmult_le_pos; [apply Rlt_le, pow2_pos|assumption].
        * assert (Hd : (e + k = Zdigits2 (N / D) + e - 53)%Z) by fexp_lia.
          assert (Hm : (0 < N / D)%Z).
          { pose proof (Z.div_pos N D HN ltac:(lia)).
            destruct (Z.eq_dec (N / D) 0) as [E0|E0]; [|lia].
            rewrite E0 in Hd. simpl in Hd. lia. }
          assert (Hxm : pow2 (Zdigits2 (N / D) - 1) * pow2 e <= x).
          { subst x. apply Rmult_le_compat_r; [lra|].
            eapply Rle_trans; [apply pow2_digits; assumption|].
            apply IZR_div_le; assumption. }
          replace (e + k - 1)%Z with (-53 + (Zdigits2 (N / D) - 1 + e))%Z by lia.
          rewrite !pow2_add. unfold unit_roundoff, eta.
          pose proof (pow2_pos (-53)) as Hu.
          pose proof (pow2_pos (-1075)) as Heta.
          assert (pow2 (-53) * (pow2 (Zdigits2 (N / D) - 1) * pow2 e) <= pow2 (-53) * x)
            by (apply Rmult_le_compat_l; lra).
          lra. }
  exists v. split; [exact Hv0|]. split; [exact Hbound|].
  destruct Hres as [[Ez Hr]|(Hzpos & mz & ez & Hmz & Hez & Hr)].
  - left. split; [|exact Hr]. subst v. rewrite Ez. ring.
  - right.
    assert (Hv1 : pow2 (e + k) <= v).
    { subst v. rewrite <- (Rmult_1_l (pow2 (e + k))) at 1.
      apply Rmult_le_compat_r; [lra|]. apply IZR_le. lia. }
    split; [lra|]. exists mz, ez.
    assert (Evz : v = IZR (Zpos mz) * pow2 ez).
    { subst v. rewrite <- Hmz, mult_IZR, <- pow2_IZR by lia.
      rewrite Rmult_assoc, <- pow2_add. f_equal. f_equal. lia. }
    destruct Hr as [[_ Hr]|[Hov _]]; [split; assumption|].
    exfalso.
    assert (Hbig : pow2 971 <= pow2 (e + k)) by (apply pow2_le; fexp_lia).
    assert (Hx' : pow2 (e + k) / 2 <= x).
    { apply Rabs_le_inv in Herr. lra. }
    replace 970%Z with (971 - 1)%Z in Hx by lia. rewrite pow2_half in Hx. lra.
Qed.

End RoundingError.

(** ** The error of a product, a sum and a difference *)

Module OperationError.

Import Reals.
Import SF SpecFacts RoundingFacts Location ShiftFacts RealValue Pow2Facts RoundingError.
Local Open Scope R_scope.

Lemma sgn_cond s m : IZR (cond_Zopp s m) = sgn s * IZR m.
Proof. destruct s; simpl; [rewrite opp_IZR|]; ring. Qed.

Lemma sgn_xorb a b : sgn (xorb a b) = sgn a * sgn b.
Proof. destruct a, b; simpl; ring. Qed.

Lemma sgn_abs s : Rabs (sgn s) = 1.
Proof. destruct s; unfold sgn, Rabs; destruct (Rcase_abs _); lra. Qed.

Lemma SF2R_finite s m e : SF2R (S754_finite s m e) = sgn s * (IZR (Zpos m) * pow2 e).
Proof. unfold SF2R. rewrite sgn_cond. ring. Qed.

Lemma SF2R_zero s : SF2R (S754_zero s) = 0.
Proof. reflexivity. Qed.

Lemma eta_pos : 0 < eta.
Proof. apply pow2_pos. Qed.

Lemma unit_roundoff_pos : 0 < unit_roundoff.
Proof. apply pow2_pos. Qed.

Lemma rounds_exact r x : finite_like r = true -> SF2R r = x -> rounds r x.
Proof.
  intros Hf <-. split; [assumption|].
  replace (SF2R r - SF2R r) with 0 by ring. rewrite Rabs_R0.
  pose proof eta_pos. pose proof unit_roundoff_pos. pose proof (Rabs_pos (SF2R r)). nra.
Qed.

(** A signed rounding: the result of [binary_round_aux] on the magnitude
    [x], with the sign [s] put in front. *)
Lemma rounds_signed s r x v :
  0 <= x -> 0 <= v ->
  Rabs (v - x) <= unit_roundoff * x + eta ->
  ((v = 0 /\ r = S754_zero s) \/
   (0 < v /\ exists m' e', r = S754_finite s m' e' /\ v = IZR (Zpos m') * pow2 e')) ->
  rounds r (sgn s * x).
Proof.
  intros Hx Hv Herr Hr.
  assert (E : SF2R r = sgn s * v /\ finite_like r = true).
  { destruct Hr as [[-> ->]|(_ & m' & e' & -> & ->)].
    - rewrite SF2R_zero. split; [ring|reflexivity].
    - rewrite SF2R_finite. split; reflexivity. }
  destruct E as [E Hf]. split; [assumption|].
  rewrite E, <- Rmult_minus_distr_l, !Rabs_mult, sgn_abs, !Rmult_1_l, (Rabs_pos_eq x Hx).
  exact Herr.
Qed.

Lemma loc_of_1 N : loc_of (N mod 1) 1 = loc_Exact.
Proof. rewrite Z.mod_1_r. reflexivity. Qed.

Lemma magnitude_pos p e : 0 < IZR (Zpos p) * pow2 e.
Proof.
  apply Rmult_lt_0_compat; [apply IZR_lt; lia|apply pow2_pos].
Qed.

(** Rounding the integer [p] at exponent [e]. *)
Lemma binary_round_aux_integer s p e :
  IZR (Zpos p) * pow2 e < pow2 970 ->
  rounds (binary_round_aux prec emax s (Zpos p) e loc_Exact) (sgn s * (IZR (Zpos p) * pow2 e)).
Proof.
  intros Hx. pose proof (magnitude_pos p e) as Hpos.
  assert (E : IZR (Zpos p) * pow2 e = IZR (Zpos p) / IZR 1 * pow2 e) by (field).
  rewrite E in Hx.
  destruct (binary_round_aux_error s (Zpos p) 1 e
              ltac:(lia) ltac:(lia) ltac:(right; apply Z.mod_1_r) Hx)
    as (v & Hv & Herr & Hr).
  rewrite Z.div_1_r, loc_of_1 in Hr. rewrite <- E in Herr.
  apply (rounds_signed _ _ _ v); try assumption. lra.
Qed.

(** *** Products *)

Lemma SFmul_rounds a b :
  finite_like a = true -> finite_like b = true ->
  Rabs (SF2R a * SF2R b) < pow2 970 ->
  rounds (SF64mul a b) (SF2R a * SF2R b).
Proof.
  intros Ha Hb Hx.
  destruct a as [sa| | |sa ma ea], b as [sb| | |sb mb eb]; try discriminate.
  - apply rounds_exact; [reflexivity|cbn [SF64mul SFmul]; rewrite !SF2R_zero; ring].
  - apply rounds_exact; [reflexivity|cbn [SF64mul SFmul]; rewrite !SF2R_zero; ring].
  - apply rounds_exact; [reflexivity|cbn [SF64mul SFmul]; rewrite !SF2R_zero; ring].
  - rewrite !SF2R_finite in *.
    assert (E : sgn sa * (IZR (Zpos ma) * pow2 ea) * (sgn sb * (IZR (Zpos mb) * pow2 eb)) =
                sgn (xorb sa sb) * (IZR (Zpos (ma * mb)) * pow2 (ea + eb))).
    { rewrite sgn_xorb, Pos2Z.inj_mul, mult_IZR, pow2_add. ring. }
    rewrite E in *.
    rewrite Rabs_mult, sgn_abs, Rmult_1_l, Rabs_pos_eq in Hx
      by (apply Rlt_le, magnitude_pos).
    apply binary_round_aux_integer. exact Hx.
Qed.

(** *** Sums and differences *)

Lemma binary_round_rounds s p e :
  IZR (Zpos p) * pow2 e < pow2 970 ->
  rounds (binary_round prec emax s p e) (sgn s * (IZR (Zpos p) * pow2 e)).
Proof.
  intros Hx. unfold binary_round.
  pose proof (shl_align_spec p e (fexp prec emax (Zpos (digits2_pos p) + e))) as [Hm He].
  destruct (shl_align p e _) as [mz ez]. cbn [fst snd] in Hm, He.
  assert (E : IZR (Zpos p) * pow2 e = IZR (Zpos mz) * pow2 ez).
  { rewrite Hm, mult_IZR, <- pow2_IZR by lia.
    rewrite Rmult_assoc, <- pow2_add. f_equal. f_equal. lia. }
  rewrite E in *. apply binary_round_aux_integer. exact Hx.
Qed.

Lemma binary_normalize_rounds S e :
  Rabs (IZR S * pow2 e) < pow2 970 ->
  rounds (binary_normalize prec emax S e false) (IZR S * pow2 e).
Proof.
  intros Hx. pose proof (pow2_pos e) as He.
  destruct S as [|p|p]; cbn [binary_normalize].
  - apply rounds_exact; [reflexivity|rewrite SF2R_zero; ring].
  - replace (IZR (Zpos p) * pow2 e) with (sgn false * (IZR (Zpos p) * pow2 e))
      by (unfold sgn; ring).
    apply binary_round_rounds.
    rewrite Rabs_pos_eq in Hx; [assumption|apply Rlt_le, magnitude_pos].
  - assert (E : IZR (Zneg p) = - IZR (Zpos p)) by (rewrite <- opp_IZR; reflexivity).
    rewrite E in *.
    replace (- IZR (Zpos p) * pow2 e) with (sgn true * (IZR (Zpos p) * pow2 e))
      by (unfold sgn; ring).
    apply binary_round_rounds.
    rewrite Ropp_mult_distr_l_reverse, Rabs_Ropp, Rabs_pos_eq in Hx;
      [assumption|apply Rlt_le, magnitude_pos].
Qed.

Lemma aligned_value s m e ez : (ez <= e)%Z ->
  IZR (aligned s m e ez) * pow2 ez = SF2R (S754_finite s m e).
Proof.
  intros H. unfold aligned. rewrite sgn_cond, mult_IZR, <- pow2_IZR, SF2R_finite by lia.
  rewrite !Rmult_assoc, <- pow2_add. do 3 f_equal. lia.
Qed.

Lemma SFadd_finite sa ma ea sb mb eb :
  SF64add (S754_finite sa ma ea) (S754_finite sb mb eb) =
  binary_normalize prec emax
    (aligned sa ma ea (Z.min ea eb) + aligned sb mb eb (Z.min ea eb)) (Z.min ea eb) false.
Proof.
  unfold SF64add, SFadd, aligned.
  destruct (shl_align_spec ma ea (Z.min ea eb)) as [-> _].
  destruct (shl_align_spec mb eb (Z.min ea eb)) as [-> _].
  replace (Z.min ea (Z.min ea eb)) with (Z.min ea eb) by lia.
  replace (Z.min eb (Z.min ea eb)) with (Z.min ea eb) by lia.
  reflexivity.
Qed.

Lemma SFadd_rounds a b :
  finite_like a = true -> finite_like b = true ->
  Rabs (SF2R a + SF2R b) < pow2 970 ->
  rounds (SF64add a b) (SF2R a + SF2R b).
Proof.
  intros Ha Hb Hx.
  destruct a as [sa| | |sa ma ea], b as [sb| | |sb mb eb]; try discriminate.
  - apply rounds_exact; [destruct sa, sb; reflexivity|].
    destruct sa, sb; cbn [SF64add SFadd]; rewrite !SF2R_zero; ring.
  - apply rounds_exact; [reflexivity|]. cbn [SF64add SFadd]. rewrite SF2R_zero. ring.
  - apply rounds_exact; [reflexivity|]. cbn [SF64add SFadd]. rewrite SF2R_zero. ring.
  - rewrite SFadd_finite.
    rewrite <- (aligned_value sa ma ea (Z.min ea eb)), <- (aligned_value sb mb eb (Z.min ea eb)),
      <- Rmult_plus_distr_r, <- plus_IZR in * by lia.
    apply binary_normalize_rounds. assumption.
Qed.

Lemma SFsub_rounds a b :
  finite_like a = true -> finite_like b = true ->
  Rabs (SF2R a - SF2R b) < pow2 970 ->
  rounds (SF64sub a b) (SF2R a - SF2R b).
Proof.
  intros Ha Hb Hx.
  destruct a as [sa| | |sa ma ea], b as [sb| | |sb mb eb]; try discriminate.
  - apply rounds_exact; [destruct sa, sb; reflexivity|].
    destruct sa, sb; cbn [SF64sub SFsub]; rewrite !SF2R_zero; ring.
  - apply rounds_exact; [reflexivity|]. cbn [SF64sub SFsub].
    rewrite !SF2R_finite, SF2R_zero. destruct sb; unfold sgn, negb; ring.
  - apply rounds_exact; [reflexivity|]. cbn [SF64sub SFsub]. rewrite SF2R_zero. ring.
  - rewrite SFsub_finite.
    rewrite <- (aligned_value sa ma ea (Z.min ea eb)), <- (aligned_value sb mb eb (Z.min ea eb)),
      <- Rmult_minus_distr_r, <- minus_IZR in * by lia.
    apply binary_normalize_rounds. assumption.
Qed.

End OperationError.

(** ** The error of a quotient *)

Module DivisionError.

Import Reals.
Import SF SpecFacts RoundingFacts Location ShiftFacts RealValue Pow2Facts RoundingError OperationError.
Local Open Scope R_scope.

Lemma new_location_loc D r : (0 < D)%Z -> (0 <= r < D)%Z -> new_location D r = loc_of r D.
Proof.
  intros HD Hr. unfold new_location, new_location_even, new_location_odd, loc_of.
  destruct (Z.even D) eqn:Ev; [reflexivity|].
  destruct (Z.eqb_spec r 0) as [E|E]; [reflexivity|]. f_equal.
  assert (Ho : Z.odd D = true) by (rewrite <- Z.negb_even, Ev; reflexivity).
  apply Z.odd_spec in Ho. destruct Ho as [c Hc].
  destruct (Z.compare_spec (2 * r + 1) D), (Z.compare_spec (2 * r) D); try reflexivity; lia.
Qed.

Lemma digits_pow2 m : (0 < m)%Z -> (2 ^ (Zdigits2 m - 1) <= m < 2 ^ Zdigits2 m)%Z.
Proof.
  intros Hm. destruct m as [|p|p]; try lia.
  rewrite Zdigits2_log2. replace (Z.log2 (Zpos p) + 1 - 1)%Z with (Z.log2 (Zpos p)) by lia.
  replace (Z.log2 (Zpos p) + 1)%Z with (Z.succ (Z.log2 (Zpos p))) by lia.
  apply Z.log2_spec. lia.
Qed.

(** The quotient computed by [SFdiv_core_binary] has enough digits for the
    rounding to happen at its canonical exponent. *)
Lemma SFdiv_core_spec m1 e1 m2 e2 :
  exists N e',
    (0 <= N)%Z /\
    SFdiv_core_binary prec emax (Zpos m1) e1 (Zpos m2) e2 =
      (N / Zpos m2, e', loc_of (N mod Zpos m2) (Zpos m2))%Z /\
    (e' <= fexp prec emax (Zdigits2 (N / Zpos m2) + e'))%Z /\
    IZR N / IZR (Zpos m2) * pow2 e' =
      IZR (Zpos m1) * pow2 e1 / (IZR (Zpos m2) * pow2 e2).
Proof.
  unfold SFdiv_core_binary.
  set (d1 := Zdigits2 (Zpos m1)). set (d2 := Zdigits2 (Zpos m2)).
  set (e' := Z.min (fexp prec emax (d1 + e1 - (d2 + e2))) (e1 - e2)).
  remember (e1 - e2 - e')%Z as s eqn:Es.
  assert (Hs : (0 <= s)%Z) by (subst s e'; lia).
  set (m' := match s with Zpos _ => Z.shiftl (Zpos m1) s | Z0 => Zpos m1 | Zneg _ => 0%Z end).
  assert (Em : m' = (Zpos m1 * 2 ^ s)%Z).
  { subst m'. clear Es. destruct s as [|p|p]; try lia.
    apply Z.shiftl_mul_pow2. lia. }
  assert (Hp : (0 < 2 ^ s)%Z) by (apply Z.pow_pos_nonneg; lia).
  assert (Hm' : (0 < m')%Z) by (rewrite Em; lia).
  exists m', e'. split; [lia|]. split.
  { pose proof (new_location_loc (Zpos m2) (m' mod Zpos m2) ltac:(lia)
                  (Z.mod_pos_bound m' (Zpos m2) ltac:(lia))) as Hl.
    unfold Z.div, Z.modulo in *. destruct (Z.div_eucl m' (Zpos m2)) as [q r].
    rewrite Hl. reflexivity. }
  split.
  - (* enough digits *)
    assert (Hq : (Zdigits2 (m' / Zpos m2) + e' >= d1 + e1 - (d2 + e2))%Z).
    { destruct (Z.le_gt_cases (d1 + s - d2) 0) as [L|L].
      - pose proof (Zdigits2_nonneg (m' / Zpos m2)). lia.
      - assert (Hlow : (2 ^ (d1 + s - d2 - 1) <= m' / Zpos m2)%Z).
        { apply Z.div_le_lower_bound; [lia|].
          pose proof (digits_pow2 (Zpos m1) ltac:(lia)) as [H1 _].
          pose proof (digits_pow2 (Zpos m2) ltac:(lia)) as [_ H2].
          fold d1 in H1. fold d2 in H2.
          assert (0 < d1)%Z by (subst d1; simpl; lia).
          assert (0 < d2)%Z by (subst d2; simpl; lia).
          rewrite Em.
          apply Z.le_trans with (2 ^ d2 * 2 ^ (d1 + s - d2 - 1))%Z.
          - apply Z.mul_le_mono_nonneg_r; [apply Z.pow_nonneg; lia|lia].
          - rewrite <- Z.pow_add_r by lia.
            replace (d2 + (d1 + s - d2 - 1))%Z with (d1 - 1 + s)%Z by lia.
            rewrite Z.pow_add_r by lia.
            apply Z.mul_le_mono_nonneg_r; lia. }
        assert (Hd : ~ (Zdigits2 (m' / Zpos m2) <= d1 + s - d2 - 1)%Z).
        { intros Hc. apply Zdigits2_le in Hc; [lia|apply Z.div_pos; lia|lia]. }
        lia. }
    subst e'. fexp_lia.
  - rewrite Em, mult_IZR, <- pow2_IZR by assumption.
    replace (pow2 e1) with (pow2 (s + e' + e2)) by (f_equal; lia).
    rewrite !pow2_add.
    pose proof (pow2_pos e2). pose proof (pow2_pos e'). pose proof (pow2_pos s).
    pose proof (IZR_lt 0 (Zpos m2) ltac:(lia)).
    field. lra.
Qed.

Lemma SFdiv_rounds a mb sb eb :
  finite_like a = true ->
  Rabs (SF2R a / SF2R (S754_finite sb mb eb)) < pow2 970 ->
  rounds (SF64div a (S754_finite sb mb eb)) (SF2R a / SF2R (S754_finite sb mb eb)).
Proof.
  intros Ha Hx.
  destruct a as [sa| | |sa ma ea]; try discriminate.
  - apply rounds_exact; [reflexivity|]. cbn [SF64div SFdiv]. rewrite !SF2R_zero.
    unfold Rdiv. ring.
  - pose proof (magnitude_pos ma ea) as Hpa. pose proof (magnitude_pos mb eb) as Hpb.
    assert (E : SF2R (S754_finite sa ma ea) / SF2R (S754_finite sb mb eb) =
                sgn (xorb sa sb) * (IZR (Zpos ma) * pow2 ea / (IZR (Zpos mb) * pow2 eb))).
    { pose proof (pow2_pos eb). pose proof (IZR_lt 0 (Zpos mb) ltac:(lia)).
      rewrite !SF2R_finite, sgn_xorb. destruct sa, sb; unfold sgn; field; split; lra. }
    rewrite E in *.
    assert (Hq : 0 < IZR (Zpos ma) * pow2 ea / (IZR (Zpos mb) * pow2 eb)).
    { apply Rdiv_lt_0_compat; assumption. }
    rewrite Rabs_mult, sgn_abs, Rmult_1_l, Rabs_pos_eq in Hx by lra.
    destruct (SFdiv_core_spec ma ea mb eb) as (N & e' & HN & Hcore & Hcond & Hval).
    unfold SF64div, SFdiv. rewrite Hcore. rewrite <- Hval in *.
    destruct (binary_round_aux_error (xorb sa sb) N (Zpos mb) e'
                HN ltac:(lia) ltac:(left; exact Hcond) Hx)
      as (v & Hv & Herr & Hr).
    apply (rounds_signed _ _ _ v); try assumption. lra.
Qed.

End DivisionError.

(** ** The same on [float], and the order of finite numbers *)

Module FloatError.

Import Reals.
Import SF SpecFacts FloatFacts Location ShiftFacts RealValue Pow2Facts RoundingError OperationError DivisionError.
Local Open Scope R_scope.

Lemma is_finite_like x : is_finite x = finite_like (Prim2SF x).
Proof. rewrite is_finite_spec. reflexivity. Qed.

Lemma approx_rounds z x : rounds (Prim2SF z) x -> approx z x.
Proof. intros [Hf He]. split; [rewrite is_finite_like; exact Hf|exact He]. Qed.

Lemma mul_approx a b :
  is_finite a = true -> is_finite b = true -> Rabs (value a * value b) < pow2 970 ->
  approx (a * b) (value a * value b).
Proof.
  rewrite !is_finite_like. intros Ha Hb Hx. apply approx_rounds. rewrite mul_spec.
  apply SFmul_rounds; assumption.
Qed.

Lemma add_approx a b :
  is_finite a = true -> is_finite b = true -> Rabs (value a + value b) < pow2 970 ->
  approx (a + b) (value a + value b).
Proof.
  rewrite !is_finite_like. intros Ha Hb Hx. apply approx_rounds. rewrite add_spec.
  apply SFadd_rounds; assumption.
Qed.

Lemma sub_approx a b :
  is_finite a = true -> is_finite b = true -> Rabs (value a - value b) < pow2 970 ->
  approx (a - b) (value a - value b).
Proof.
  rewrite !is_finite_like. intros Ha Hb Hx. apply approx_rounds. rewrite sub_spec.
  apply SFsub_rounds; assumption.
Qed.

Lemma div_approx a b :
  is_finite a = true -> is_finite b = true -> value b <> 0 ->
  Rabs (value a / value b) < pow2 970 ->
  approx (a / b) (value a / value b).
Proof.
  rewrite !is_finite_like. unfold value. intros Ha Hb Hn Hx.
  apply approx_rounds. rewrite div_spec.
  destruct (Prim2SF b) as [s|s| |s m e]; try discriminate.
  - exfalso. apply Hn. apply (SF2R_zero s).
  - apply SFdiv_rounds; assumption.
Qed.

(** *** Comparisons *)

Lemma SFleb_value a b :
  valid_binary a = true -> valid_binary b = true ->
  finite_like a = true -> finite_like b = true ->
  SFleb a b = true -> SF2R a <= SF2R b.
Proof.
  intros Va Vb Fa Fb. unfold SFleb.
  destruct a as [sa|sa| |sa ma ea]; try discriminate;
    destruct b as [sb|sb| |sb mb eb]; try discriminate.
  - intros _. rewrite (SF2R_zero sa), (SF2R_zero sb). lra.
  - simpl SFcompare. rewrite (SF2R_zero sa), SF2R_finite.
    pose proof (magnitude_pos mb eb). destruct sb; [discriminate|]. unfold sgn. lra.
  - simpl SFcompare. rewrite (SF2R_zero sb), SF2R_finite.
    pose proof (magnitude_pos ma ea). destruct sa; [|discriminate]. unfold sgn. lra.
  - rewrite (SFcompare_aligned sa ma ea sb mb eb (valid_finite_canonical _ _ _ Va)
               (valid_finite_canonical _ _ _ Vb)).
    intros H.
    assert (Hz : (aligned sa ma ea (Z.min ea eb) <= aligned sb mb eb (Z.min ea eb))%Z).
    { destruct (Z.compare_spec (aligned sa ma ea (Z.min ea eb))
                  (aligned sb mb eb (Z.min ea eb))); [lia|lia|discriminate]. }
    apply IZR_le in Hz.
    rewrite <- (aligned_value sa ma ea (Z.min ea eb)) by lia.
    rewrite <- (aligned_value sb mb eb (Z.min ea eb)) by lia.
    apply Rmult_le_compat_r; [left; apply pow2_pos|assumption].
Qed.

Lemma leb_value a b :
  is_finite a = true -> is_finite b = true -> (a <=? b)%float = true -> value a <= value b.
Proof.
  rewrite !is_finite_like, leb_spec. intros Fa Fb H.
  apply SFleb_value; try assumption; apply Prim2SF_valid.
Qed.

(** A number between two finite numbers is finite. *)
Lemma leb_finite lo x hi :
  is_finite lo = true -> is_finite hi = true ->
  (lo <=? x)%float = true -> (x <=? hi)%float = true -> is_finite x = true.
Proof.
  rewrite !is_finite_like, !leb_spec. unfold SFleb. intros Fl Fh Hl Hh.
  destruct (Prim2SF x) as [s|[]| |s m e]; try reflexivity.
  - destruct (Prim2SF lo) as [sl|sl| |sl ml el]; try discriminate; simpl in Hl; discriminate.
  - destruct (Prim2SF hi) as [sh|sh| |sh mh eh]; try discriminate; simpl in Hh; discriminate.
  - destruct (Prim2SF lo) as [sl|sl| |sl ml el]; try discriminate; simpl in Hl; discriminate.
Qed.

(** *** The constants of the two formulas *)

Lemma pow2_neg k : (0 <= k)%Z -> pow2 (- k) = / IZR (2 ^ k).
Proof.
  intros H. rewrite <- pow2_IZR by assumption.
  apply Rmult_eq_reg_r with (pow2 k); [|apply Rgt_not_eq, pow2_pos].
  rewrite <- pow2_add, Rinv_l by (apply Rgt_not_eq, pow2_pos).
  replace (- k + k)%Z with 0%Z by lia. apply pow2_0.
Qed.

Lemma pow2_Zneg p : pow2 (Zneg p) = / IZR (2 ^ Zpos p).
Proof. apply (pow2_neg (Zpos p)). lia. Qed.

Lemma sgn_false : sgn false = 1.
Proof. reflexivity. Qed.

Lemma sgn_true : sgn true = -1.
Proof. reflexivity. Qed.

Lemma value_finite x s m e :
  Prim2SF x = S754_finite s m e -> value x = sgn s * (IZR (Zpos m) * pow2 e).
Proof. intros E. unfold value. rewrite E. apply SF2R_finite. Qed.

Lemma value_243_5 : value 243.5 = 243.5.
Proof.
  rewrite (value_finite 243.5 false 8567394603630592 (-45)) by reflexivity.
  rewrite sgn_false, (pow2_Zneg 45).
  replace (2 ^ 45)%Z with 35184372088832%Z by reflexivity. lra.
Qed.

Lemma value_100 : value 100 = 100.
Proof.
  rewrite (value_finite 100 false 7036874417766400 (-46)) by reflexivity.
  rewrite sgn_false, (pow2_Zneg 46).
  replace (2 ^ 46)%Z with 70368744177664%Z by reflexivity. lra.
Qed.

Lemma value_17_67 : 17.66 <= value 17.67 <= 17.68.
Proof.
  rewrite (value_finite 17.67 false 4973662838477292 (-48)) by reflexivity.
  rewrite sgn_false, (pow2_Zneg 48).
  replace (2 ^ 48)%Z with 281474976710656%Z by reflexivity. lra.
Qed.

Lemma value_6_112 : 6.11 <= value 6.112 <= 6.12.
Proof.
  rewrite (value_finite 6.112 false 6881500230622118 (-50)) by reflexivity.
  rewrite sgn_false, (pow2_Zneg 50).
  replace (2 ^ 50)%Z with 1125899906842624%Z by reflexivity. lra.
Qed.

End FloatError.

(** ** The round trip over the reals, with every operation perturbed

    [t] is the temperature, [h] the relative humidity in percent; the other
    variables are the intermediate results of the two formulas, each within
    one rounding of what the formula says. *)

Module RealAnalysis.

Import Reals.
Import RealValue Pow2Facts.
Local Open Scope R_scope.

(** The logarithm near 1. *)
Lemma ln_le_minus_1 x : 0 < x -> ln x <= x - 1.
Proof.
  intros Hx. pose proof (exp_ineq1_le (x - 1)) as H.
  replace (1 + (x - 1)) with x in H by ring.
  destruct H as [H|H].
  - left. rewrite <- (ln_exp (x - 1)). apply ln_increasing; assumption.
  - right. rewrite H at 1. apply ln_exp.
Qed.

Lemma ln_ge_minus x : 0 <= x <= / 2 -> - (2 * x) <= ln (1 - x).
Proof.
  intros Hx.
  assert (H1 : exp (- (2 * x)) <= 1 - x).
  { rewrite exp_Ropp. pose proof (exp_ineq1_le (2 * x)) as H.
    assert (Hp : 0 < 1 + 2 * x) by lra.
    apply Rle_trans with (/ (1 + 2 * x)).
    - apply Rinv_le_contravar; assumption.
    - apply Rmult_le_reg_r with (1 + 2 * x); [assumption|].
      rewrite Rinv_l by lra. nra. }
  destruct H1 as [H1|H1].
  - left. rewrite <- (ln_exp (- (2 * x))). apply ln_increasing; [apply exp_pos|assumption].
  - right. rewrite <- H1. symmetry. apply ln_exp.
Qed.

Lemma ln_le a b : 0 < a -> a <= b -> ln a <= ln b.
Proof.
  intros Ha [H|H]; [left; apply ln_increasing; assumption|right; rewrite H; reflexivity].
Qed.

Lemma exp_le a b : a <= b -> exp a <= exp b.
Proof.
  intros [H|H]; [left; apply exp_increasing; assumption|right; rewrite H; reflexivity].
Qed.

Lemma exp_5 : exp 5 <= 243.
Proof.
  replace 5 with (1 + (1 + (1 + (1 + 1)))) by ring. rewrite !exp_plus.
  pose proof exp_le_3. pose proof (exp_pos 1). set (e := exp 1) in *.
  assert (H2 : 0 < e * e <= 9) by nra.
  assert (H3 : 0 < e * (e * e) <= 27) by nra.
  assert (H4 : 0 < e * (e * (e * e)) <= 81) by nra.
  nra.
Qed.

Lemma exp_6 : exp 6 <= 729.
Proof.
  replace 6 with (5 + 1) by ring. rewrite exp_plus.
  pose proof exp_5. pose proof exp_le_3. pose proof (exp_pos 1). pose proof (exp_pos 5). nra.
Qed.

Lemma exp_bounds a : -6 <= a <= 6 -> / 729 <= exp a <= 729.
Proof.
  intros Ha. pose proof exp_6. split.
  - replace a with (- (- a)) by ring. rewrite exp_Ropp.
    apply Rinv_le_contravar; [apply exp_pos|].
    apply Rle_trans with (exp 6); [apply exp_le; lra|assumption].
  - apply Rle_trans with (exp 6); [apply exp_le; lra|assumption].
Qed.

Lemma ln_ge_inv x : 0 < x -> 1 - / x <= ln x.
Proof.
  intros Hx. pose proof (ln_le_minus_1 (/ x) (Rinv_0_lt_compat x Hx)) as H.
  rewrite ln_Rinv in H by assumption. lra.
Qed.

(** Error of a quotient. *)
Lemma quotient_error n n0 d d0 en ed dmin nmax :
  Rabs (n - n0) <= en -> Rabs (d - d0) <= ed ->
  0 < dmin -> dmin <= d -> dmin <= d0 -> Rabs n0 <= nmax ->
  Rabs (n / d - n0 / d0) <= en / dmin + nmax * ed / (dmin * dmin).
Proof.
  intros Hn Hd Hm H1 H2 H0.
  assert (E : n / d - n0 / d0 = (n - n0) / d - n0 * (d - d0) / (d * d0)) by (field; lra).
  rewrite E.
  pose proof (Rabs_pos (n - n0)). pose proof (Rabs_pos (d - d0)). pose proof (Rabs_pos n0).
  eapply Rle_trans; [apply Rabs_triang|]. rewrite Rabs_Ropp.
  unfold Rdiv. rewrite !Rabs_mult, !Rabs_inv, (Rabs_pos_eq d), (Rabs_pos_eq (d * d0)) by nra.
  apply Rplus_le_compat.
  - apply Rmult_le_compat; try lra.
    + apply Rlt_le, Rinv_0_lt_compat; lra.
    + apply Rinv_le_contravar; lra.
  - apply Rmult_le_compat; try nra.
    + apply Rlt_le, Rinv_0_lt_compat; nra.
    + apply Rinv_le_contravar; nra.
Qed.

Lemma ln_div x y : 0 < x -> 0 < y -> ln (x / y) = ln x - ln y.
Proof.
  intros Hx Hy. unfold Rdiv. rewrite ln_mult, ln_Rinv; try assumption; [ring|].
  apply Rinv_0_lt_compat. assumption.
Qed.

Lemma product_between x y a b c d :
  0 <= a -> a <= x <= b -> 0 <= c -> c <= y <= d -> a * c <= x * y <= b * d.
Proof. intros Ha Hx Hc Hy. split; apply Rmult_le_compat; lra. Qed.

Section Perturbed.

Variables u eta hmin : R.
Hypothesis Hu : 0 < u <= 2 / 10 ^ 16.
Hypothesis Heta : 0 < eta.
Hypothesis Hhmin : 0 < hmin <= 1.
Hypothesis Hsmall : eta <= u * (hmin / 10 ^ 6).

Local Abbreviation rnd := (near u eta).

Lemma eta_le_u : eta <= u.
Proof using Hu Heta Hhmin Hsmall. nra. Qed.

Lemma near_abs z x b : rnd z x -> Rabs x <= b -> Rabs (z - x) <= u * b + eta.
Proof using Hu Heta Hhmin Hsmall.
  unfold near. intros H Hb. pose proof (Rabs_pos x).
  assert (u * Rabs x <= u * b) by (apply Rmult_le_compat_l; lra). lra.
Qed.

(** Away from the subnormal numbers a rounding is a relative perturbation. *)
Lemma near_rel z x : rnd z x -> hmin / 10 ^ 6 <= x ->
  x * (1 - 2 * u) <= z <= x * (1 + 2 * u) /\ 0 < z.
Proof using Hu Heta Hhmin Hsmall.
  unfold near. intros H Hx.
  assert (Hx0 : 0 < x) by nra.
  rewrite (Rabs_pos_eq x) in H by lra. apply Rabs_le_inv in H.
  assert (eta <= u * x) by nra. split; nra.
Qed.

Lemma near_coarse z x : rnd z x -> hmin / 10 ^ 6 <= x ->
  0.999 * x <= z <= 1.001 * x.
Proof using Hu Heta Hhmin Hsmall.
  intros H Hx. destruct (near_rel z x H Hx) as [Hz _].
  assert (Hx0 : 0 <= x) by (assert (0 < hmin / 10 ^ 6) by (apply Rdiv_lt_0_compat; lra); lra).
  assert (0 <= x * u <= x * 0.0005) by (split; [apply Rmult_le_pos|apply Rmult_le_compat_l]; lra).
  lra.
Qed.

Lemma near_ln z x : rnd z x -> hmin / 10 ^ 6 <= x ->
  0 < z /\ ln x - 4 * u <= ln z <= ln x + 2 * u.
Proof using Hu Heta Hhmin Hsmall.
  intros H Hx. destruct (near_rel z x H Hx) as [Hz Hz0].
  assert (Hx0 : 0 < x) by nra.
  split; [assumption|]. split.
  - apply Rle_trans with (ln (x * (1 - 2 * u))); [|apply ln_le; [nra|lra]].
    rewrite ln_mult by lra. pose proof (ln_ge_minus (2 * u) ltac:(lra)). lra.
  - apply Rle_trans with (ln (x * (1 + 2 * u))); [apply ln_le; [assumption|lra]|].
    rewrite ln_mult by lra. pose proof (ln_le_minus_1 (1 + 2 * u) ltac:(lra)). lra.
Qed.

(** *** The Magnus exponent *)

Section Exponent.

Variables t A n1 d1 a : R.
Hypothesis Ht : -40 <= t <= 60.
Hypothesis HA : 17.66 <= A <= 17.68.
Hypothesis R1 : rnd n1 (A * t).
Hypothesis R2 : rnd d1 (t + 243.5).
Hypothesis R3 : rnd a (n1 / d1).

Lemma product_bound : Rabs (A * t) <= 1061.
Proof using Hu Heta Hhmin Hsmall Ht HA. apply Rabs_le. nra. Qed.

Lemma n1_bound : Rabs (n1 - A * t) <= 1062 * u /\ Rabs n1 <= 1062.
Proof using Hu Heta Hhmin Hsmall Ht HA R1.
  pose proof (near_abs _ _ _ R1 product_bound) as H. pose proof eta_le_u.
  pose proof product_bound as Hp. apply Rabs_le_inv in Hp.
  assert (H1 : Rabs (n1 - A * t) <= 1062 * u) by lra.
  split; [assumption|]. apply Rabs_le_inv in H1. apply Rabs_le. lra.
Qed.

Lemma d1_bound : Rabs (d1 - (t + 243.5)) <= 305 * u /\ 203 <= d1 <= 304.
Proof using Hu Heta Hhmin Hsmall Ht R2.
  assert (Hb : Rabs (t + 243.5) <= 303.5) by (apply Rabs_le; lra).
  pose proof (near_abs _ _ _ R2 Hb) as H. pose proof eta_le_u.
  assert (H1 : Rabs (d1 - (t + 243.5)) <= 305 * u) by lra.
  split; [assumption|]. apply Rabs_le_inv in H1. lra.
Qed.

Lemma quotient_bound : Rabs (n1 / d1) <= 5.3.
Proof using Hu Heta Hhmin Hsmall Ht HA R1 R2.
  destruct n1_bound as [_ Hn]. destruct d1_bound as [_ Hd].
  unfold Rdiv. rewrite Rabs_mult, Rabs_inv, (Rabs_pos_eq d1) by lra.
  apply Rmult_le_reg_r with d1; [lra|].
  rewrite Rmult_assoc, Rinv_l by lra. lra.
Qed.

Lemma exponent_error :
  Rabs (a - A * t / (t + 243.5)) <= 22 * u /\ -5.3 <= a <= 5.3 /\
  Rabs (A * t / (t + 243.5)) <= 5.25.
Proof using Hu Heta Hhmin Hsmall Ht HA R1 R2 R3.
  destruct n1_bound as [Hn _]. destruct d1_bound as [Hd Hd'].
  pose proof (quotient_error n1 (A * t) d1 (t + 243.5) (1062 * u) (305 * u) 203 1061
                Hn Hd ltac:(lra) ltac:(lra) ltac:(lra) product_bound) as Hq.
  pose proof (near_abs _ _ _ R3 quotient_bound) as H3. pose proof eta_le_u.
  assert (Hq' : Rabs (n1 / d1 - A * t / (t + 243.5)) <= 14 * u).
  { eapply Rle_trans; [exact Hq|].
    replace (1062 * u / 203 + 1061 * (305 * u) / (203 * 203))
      with (u * (1062 / 203 + 1061 * 305 / (203 * 203))) by field. nra. }
  assert (Hs : Rabs (A * t / (t + 243.5)) <= 5.25).
  { pose proof product_bound as Hp.
    unfold Rdiv. rewrite Rabs_mult, Rabs_inv, (Rabs_pos_eq (t + 243.5)) by lra.
    apply Rmult_le_reg_r with (t + 243.5); [lra|].
    rewrite Rmult_assoc, Rinv_l by lra. lra. }
  assert (He : Rabs (a - A * t / (t + 243.5)) <= 22 * u).
  { replace (a - A * t / (t + 243.5))
      with ((a - n1 / d1) + (n1 / d1 - A * t / (t + 243.5))) by ring.
    eapply Rle_trans; [apply Rabs_triang|]. lra. }
  split; [assumption|]. split; [|assumption].
  apply Rabs_le_inv in He. apply Rabs_le_inv in Hs. lra.
Qed.

End Exponent.

(** *** The vapor pressure and its logarithm *)

Section Pressure.

Variables a eps E C h ps w p q L : R.
Hypothesis Ha : -5.3 <= a <= 5.3.
Hypothesis Heps : 0 <= eps <= / 1000.
Hypothesis HC : 6.11 <= C <= 6.12.
Hypothesis Hh : hmin <= h <= 100.
Hypothesis R4 : Rabs (E - exp a) <= eps * exp a.
Hypothesis R5 : rnd ps (C * E).
Hypothesis R6 : rnd w (ps * h).
Hypothesis R7 : rnd p (w / 100).
Hypothesis R8 : rnd q (p / C).
Hypothesis R9 : Rabs (L - ln q) <= eps.

Lemma E_bound : / 750 <= E <= 750 /\ a - 2 * eps <= ln E <= a + eps.
Proof using Hu Heta Hhmin Hsmall Ha Heps R4.
  pose proof (exp_bounds a ltac:(lra)) as Hb. pose proof (exp_pos a) as Hp.
  pose proof R4 as H. apply Rabs_le_inv in H.
  assert (H1 : exp a * (1 - eps) <= E <= exp a * (1 + eps)) by lra.
  assert (He : 0 <= exp a * eps <= exp a * / 1000)
    by (split; [apply Rmult_le_pos|apply Rmult_le_compat_l]; lra).
  assert (HE : 0 < E) by lra.
  split; [lra|]. split.
  - apply Rle_trans with (ln (exp a * (1 - eps)));
      [|apply ln_le; [apply Rmult_lt_0_compat; lra|lra]].
    rewrite ln_mult, ln_exp by lra. pose proof (ln_ge_minus eps ltac:(lra)). lra.
  - apply Rle_trans with (ln (exp a * (1 + eps))); [apply ln_le; [assumption|lra]|].
    rewrite ln_mult, ln_exp by lra. pose proof (ln_le_minus_1 (1 + eps) ltac:(lra)). lra.
Qed.

Lemma CE_bound : hmin / 10 ^ 6 <= C * E /\ Rabs (C * E) <= 4600.
Proof using Hu Heta Hhmin Hsmall Ha Heps HC R4.
  destruct E_bound as [HE _].
  pose proof (product_between C E 6.11 6.12 (/ 750) 750 ltac:(lra) HC ltac:(lra) HE).
  assert (0.008 <= C * E <= 4600) by lra.
  split; [lra|apply Rabs_le; lra].
Qed.

Lemma ps_bound : 0.007 <= ps <= 4700 /\ ln C + ln E - 4 * u <= ln ps <= ln C + ln E + 2 * u.
Proof using Hu Heta Hhmin Hsmall Ha Heps HC R4 R5.
  destruct E_bound as [HE _]. destruct CE_bound as [Hm Hb]. apply Rabs_le_inv in Hb.
  pose proof (near_coarse _ _ R5 Hm) as H. destruct (near_ln _ _ R5 Hm) as [_ Hl].
  pose proof (product_between C E 6.11 6.12 (/ 750) 750 ltac:(lra) HC ltac:(lra) HE).
  split; [lra|]. rewrite ln_mult in Hl by lra. exact Hl.
Qed.

Lemma psh_bound : hmin / 10 ^ 6 <= ps * h /\ Rabs (ps * h) <= 470000.
Proof using Hu Heta Hhmin Hsmall Ha Heps HC Hh R4 R5.
  destruct ps_bound as [H _].
  pose proof (product_between ps h 0.007 4700 hmin 100 ltac:(lra) H ltac:(lra) Hh).
  split; [lra|apply Rabs_le; lra].
Qed.

Lemma w_bound :
  0.006 * hmin <= w <= 480000 /\ ln ps + ln h - 4 * u <= ln w <= ln ps + ln h + 2 * u.
Proof using Hu Heta Hhmin Hsmall Ha Heps HC Hh R4 R5 R6.
  destruct ps_bound as [Hps _]. destruct psh_bound as [Hm Hb]. apply Rabs_le_inv in Hb.
  pose proof (near_coarse _ _ R6 Hm) as H. destruct (near_ln _ _ R6 Hm) as [_ Hl].
  pose proof (product_between ps h 0.007 4700 hmin 100 ltac:(lra) Hps ltac:(lra) Hh).
  split; [lra|]. rewrite ln_mult in Hl by lra. exact Hl.
Qed.

Lemma w100_bound : hmin / 10 ^ 6 <= w / 100 /\ Rabs (w / 100) <= 4800.
Proof using Hu Heta Hhmin Hsmall Ha Heps HC Hh R4 R5 R6.
  destruct w_bound as [H _]. split; [lra|apply Rabs_le; lra].
Qed.

Lemma p_bound :
  0.00005 * hmin <= p <= 4900 /\ ln w - ln 100 - 4 * u <= ln p <= ln w - ln 100 + 2 * u.
Proof using Hu Heta Hhmin Hsmall Ha Heps HC Hh R4 R5 R6 R7.
  destruct w_bound as [Hw _]. destruct w100_bound as [Hm Hb]. apply Rabs_le_inv in Hb.
  pose proof (near_coarse _ _ R7 Hm) as H. destruct (near_ln _ _ R7 Hm) as [_ Hl].
  split; [lra|]. rewrite ln_div in Hl by lra. exact Hl.
Qed.

Lemma pC_bound : hmin / 10 ^ 6 <= p / C /\ Rabs (p / C) <= 810.
Proof using Hu Heta Hhmin Hsmall Ha Heps HC Hh R4 R5 R6 R7.
  destruct p_bound as [H _].
  assert (H1 : 0.00005 * hmin / 6.12 <= p / C <= 4900 / 6.11).
  { split.
    - apply Rle_trans with (p / 6.12); [lra|].
      unfold Rdiv. apply Rmult_le_compat_l; [lra|]. apply Rinv_le_contravar; lra.
    - apply Rle_trans with (p / 6.11); [|lra].
      unfold Rdiv. apply Rmult_le_compat_l; [lra|]. apply Rinv_le_contravar; lra. }
  split; [lra|apply Rabs_le; lra].
Qed.

Lemma q_bound :
  hmin / (2 * 10 ^ 6) <= q <= 820 /\
  a + ln (h / 100) - 2 * eps - 16 * u <= ln q <= a + ln (h / 100) + eps + 8 * u.
Proof using Hu Heta Hhmin Hsmall Ha Heps HC Hh R4 R5 R6 R7 R8.
  destruct E_bound as [_ HE]. destruct ps_bound as [_ Hps]. destruct w_bound as [_ Hw].
  destruct p_bound as [Hp Hlp]. destruct pC_bound as [Hm Hb]. apply Rabs_le_inv in Hb.
  pose proof (near_coarse _ _ R8 Hm) as H. destruct (near_ln _ _ R8 Hm) as [_ Hl].
  split; [lra|]. rewrite ln_div in Hl by lra. rewrite ln_div by lra. lra.
Qed.

Lemma humidity_log : ln (h / 100) <= 0.
Proof using Hu Heta Hhmin Hsmall Hh.
  rewrite <- ln_1. apply ln_le; lra.
Qed.

Lemma log_bound :
  Rabs L <= 2 * 10 ^ 6 / hmin + 10 /\
  a + ln (h / 100) - 3 * eps - 16 * u <= L <= a + ln (h / 100) + 2 * eps + 8 * u.
Proof using Hu Heta Hhmin Hsmall Ha Heps HC Hh R4 R5 R6 R7 R8 R9.
  destruct q_bound as [Hq Hl]. pose proof humidity_log as Hh0.
  pose proof R9 as H9. apply Rabs_le_inv in H9.
  assert (Hq0 : 0 < q) by (assert (0 < hmin / (2 * 10 ^ 6)) by (apply Rdiv_lt_0_compat; lra); lra).
  pose proof (ln_ge_inv q Hq0) as Hg.
  assert (Hi : / q <= 2 * 10 ^ 6 / hmin).
  { replace (2 * 10 ^ 6 / hmin) with (/ (hmin / (2 * 10 ^ 6))) by (field; lra).
    apply Rinv_le_contravar; [apply Rdiv_lt_0_compat; lra|lra]. }
  split; [|lra]. apply Rabs_le. lra.
Qed.

End Pressure.

(** *** The inverse formula *)

Section DewPoint.

Variables t A m L N Dn D : R.
Hypothesis Ht : -40 <= t <= 60.
Hypothesis HA : 17.66 <= A <= 17.68.
Hypothesis Hm : 0 <= m <= / 10.
Hypothesis HL : L <= A * t / (t + 243.5) + m.
Hypothesis Hs : Rabs (A * t / (t + 243.5)) <= 5.25.
Hypothesis R10 : rnd N (243.5 * L).
Hypothesis R11 : rnd Dn (A - L).
Hypothesis R12 : rnd D (N / Dn).

Lemma denominator_bound : 12.3 <= A - L /\ Rabs L <= A - L.
Proof using Hu Heta Hhmin Hsmall Ht HA Hm HL Hs.
  pose proof Hs as H. apply Rabs_le_inv in H.
  assert (L <= 5.35) by lra.
  split; [lra|]. apply Rabs_le. lra.
Qed.

Lemma inverse_at_exponent :
  243.5 * (A * t / (t + 243.5)) / (A - A * t / (t + 243.5)) = t.
Proof using Hu Heta Hhmin Hsmall Ht HA. field. split; lra. Qed.

Lemma inverse_difference s :
  Rabs s <= 5.25 ->
  243.5 * L / (A - L) - 243.5 * s / (A - s) = 243.5 * A * (L - s) / ((A - L) * (A - s)).
Proof using Hu Heta Hhmin Hsmall Ht HA Hm HL Hs.
  intros H. destruct denominator_bound as [HG _]. apply Rabs_le_inv in H.
  field. split; lra.
Qed.

(** The size of [243.5 A] and of the two denominators. *)
Lemma slope_bounds s :
  Rabs s <= 5.25 ->
  4300 <= 243.5 * A <= 4306 /\ 12.4 <= A - s <= 22.93 /\ 152 <= (A - L) * (A - s).
Proof using Hu Heta Hhmin Hsmall Ht HA Hm HL Hs.
  intros H. destruct denominator_bound as [HG _]. apply Rabs_le_inv in H.
  split; [lra|]. split; [lra|].
  apply Rle_trans with (12.3 * 12.4); [lra|apply Rmult_le_compat; lra].
Qed.

Lemma inverse_above : 243.5 * L / (A - L) <= t + 29 * m.
Proof using Hu Heta Hhmin Hsmall Ht HA Hm HL Hs.
  pose proof (inverse_difference _ Hs) as Hd. rewrite inverse_at_exponent in Hd.
  destruct (slope_bounds _ Hs) as (HK & Hg & Hp).
  remember (A * t / (t + 243.5)) as s eqn:Es.
  assert (Hq : 243.5 * A * (L - s) / ((A - L) * (A - s)) <= 29 * m).
  { apply Rmult_le_reg_r with ((A - L) * (A - s)); [lra|].
    unfold Rdiv. rewrite Rmult_assoc, Rinv_l, Rmult_1_r by lra.
    apply Rle_trans with (243.5 * A * m); [apply Rmult_le_compat_l; lra|].
    apply Rle_trans with (4306 * m); [apply Rmult_le_compat_r; lra|].
    apply Rle_trans with (29 * m * 152); [lra|apply Rmult_le_compat_l; lra]. }
  lra.
Qed.

Lemma inverse_below :
  A * t / (t + 243.5) - m <= L -> t - 29 * m <= 243.5 * L / (A - L).
Proof using Hu Heta Hhmin Hsmall Ht HA Hm HL Hs.
  intros Hl.
  pose proof (inverse_difference _ Hs) as Hd. rewrite inverse_at_exponent in Hd.
  destruct (slope_bounds _ Hs) as (HK & Hg & Hp).
  remember (A * t / (t + 243.5)) as s eqn:Es.
  assert (Hq : - (29 * m) <= 243.5 * A * (L - s) / ((A - L) * (A - s))).
  { apply Rmult_le_reg_r with ((A - L) * (A - s)); [lra|].
    unfold Rdiv. rewrite Rmult_assoc, Rinv_l, Rmult_1_r by lra.
    apply Rle_trans with (243.5 * A * - m); [|apply Rmult_le_compat_l; lra].
    assert (243.5 * A * m <= 4306 * m) by (apply Rmult_le_compat_r; lra).
    assert (29 * m * 152 <= 29 * m * ((A - L) * (A - s))) by (apply Rmult_le_compat_l; lra).
    lra. }
  lra.
Qed.

(** Below the exact exponent by [mu], the formula stays below [t] by [7 mu]. *)
Lemma inverse_below_margin mu :
  0 <= mu <= 1 -> L <= A * t / (t + 243.5) - mu -> 243.5 * L / (A - L) <= t - 7 * mu.
Proof using Hu Heta Hhmin Hsmall Ht HA Hm HL Hs.
  intros Hmu Hl.
  pose proof (inverse_difference _ Hs) as Hd. rewrite inverse_at_exponent in Hd.
  destruct (slope_bounds _ Hs) as (HK & Hg & Hp).
  remember (A * t / (t + 243.5)) as s eqn:Es.
  assert (Hq : 243.5 * A * (L - s) / ((A - L) * (A - s)) <= - (7 * mu)).
  { apply Rmult_le_reg_r with ((A - L) * (A - s)); [lra|].
    unfold Rdiv. rewrite Rmult_assoc, Rinv_l, Rmult_1_r by lra.
    assert (Hx : mu <= s - L) by lra.
    assert (H1 : (A - s) * (A - s) <= 22.93 * 22.93) by (apply Rmult_le_compat; lra).
    assert (H2 : mu * ((A - s) * (A - s)) <= (s - L) * (22.93 * 22.93)).
    { apply Rmult_le_compat; try lra. apply Rmult_le_pos; lra. }
    assert (Hy : mu * (A - s) <= 1 * 22.93) by (apply Rmult_le_compat; lra).
    assert (H3 : (s - L) * (mu * (A - s)) <= (s - L) * (1 * 22.93))
      by (apply Rmult_le_compat_l; lra).
    assert (H4 : 4300 * (s - L) <= 243.5 * A * (s - L)) by (apply Rmult_le_compat_r; lra).
    lra. }
  lra.
Qed.

Lemma Dn_bound : 12 <= Dn /\ Rabs (Dn / (A - L) - 1) <= 2 * u.
Proof using Hu Heta Hhmin Hsmall Ht HA Hm HL Hs R11.
  destruct denominator_bound as [HG HLG]. pose proof eta_le_u.
  pose proof R11 as H1. unfold near in H1.
  rewrite (Rabs_pos_eq (A - L)) in H1 by lra.
  pose proof H1 as H2. apply Rabs_le_inv in H2.
  split; [nra|].
  replace (Dn / (A - L) - 1) with ((Dn - (A - L)) / (A - L)) by (field; lra).
  unfold Rdiv. rewrite Rabs_mult, Rabs_inv, (Rabs_pos_eq (A - L)) by lra.
  apply Rmult_le_reg_r with (A - L); [lra|].
  rewrite Rmult_assoc, Rinv_l by lra. nra.
Qed.

Lemma N_bound :
  Rabs (N / (A - L) - 243.5 * (L / (A - L))) <= 244 * u /\
  Rabs (243.5 * (L / (A - L))) <= 243.5.
Proof using Hu Heta Hhmin Hsmall Ht HA Hm HL Hs R10.
  destruct denominator_bound as [HG HLG]. pose proof eta_le_u.
  pose proof R10 as H1. unfold near in H1.
  rewrite Rabs_mult, (Rabs_pos_eq 243.5) in H1 by lra.
  split.
  - replace (N / (A - L) - 243.5 * (L / (A - L))) with ((N - 243.5 * L) / (A - L))
      by (field; lra).
    unfold Rdiv. rewrite Rabs_mult, Rabs_inv, (Rabs_pos_eq (A - L)) by lra.
    apply Rmult_le_reg_r with (A - L); [lra|].
    rewrite Rmult_assoc, Rinv_l by lra. pose proof (Rabs_pos L). nra.
  - unfold Rdiv. rewrite !Rabs_mult, Rabs_inv, (Rabs_pos_eq (A - L)), (Rabs_pos_eq 243.5) by lra.
    assert (Rabs L * / (A - L) <= 1); [|lra].
    apply Rmult_le_reg_r with (A - L); [lra|].
    rewrite Rmult_assoc, Rinv_l by lra. lra.
Qed.

Lemma ratio_error :
  Rabs (N / Dn - 243.5 * L / (A - L)) <= 750 * u /\ Rabs (N / Dn) <= 244.
Proof using Hu Heta Hhmin Hsmall Ht HA Hm HL Hs R10 R11.
  destruct denominator_bound as [HG HLG]. destruct Dn_bound as [HD HD'].
  destruct N_bound as [HN HN'].
  assert (Hd1 : 0.99 <= Dn / (A - L)) by (apply Rabs_le_inv in HD'; lra).
  pose proof (quotient_error (N / (A - L)) (243.5 * (L / (A - L))) (Dn / (A - L)) 1
                (244 * u) (2 * u) 0.99 243.5
                HN HD' ltac:(lra) Hd1 ltac:(lra) HN') as Hq.
  assert (E1 : N / (A - L) / (Dn / (A - L)) = N / Dn) by (field; lra).
  assert (E2 : 243.5 * (L / (A - L)) / 1 = 243.5 * L / (A - L)) by (field; lra).
  rewrite E1, E2 in Hq.
  assert (Hq' : Rabs (N / Dn - 243.5 * L / (A - L)) <= 750 * u).
  { eapply Rle_trans; [exact Hq|].
    replace (244 * u / 0.99 + 243.5 * (2 * u) / (0.99 * 0.99))
      with (u * (244 / 0.99 + 243.5 * 2 / (0.99 * 0.99))) by lra.
    assert (244 / 0.99 + 243.5 * 2 / (0.99 * 0.99) <= 750) by lra.
    apply Rle_trans with (u * 750); [apply Rmult_le_compat_l; lra|lra]. }
  split; [assumption|].
  rewrite <- E2 in Hq'. apply Rabs_le_inv in Hq'. apply Rabs_le_inv in HN'.
  apply Rabs_le. lra.
Qed.

Lemma dew_point_error : Rabs (D - 243.5 * L / (A - L)) <= 1000 * u.
Proof using Hu Heta Hhmin Hsmall Ht HA Hm HL Hs R10 R11 R12.
  destruct ratio_error as [Hr Hb]. pose proof eta_le_u as He.
  pose proof (near_abs _ _ _ R12 Hb) as H.
  replace (D - 243.5 * L / (A - L))
    with ((D - N / Dn) + (N / Dn - 243.5 * L / (A - L))) by ring.
  eapply Rle_trans; [apply Rabs_triang|]. lra.
Qed.

Lemma dew_point_above : D <= t + 29 * m + 1000 * u.
Proof using Hu Heta Hhmin Hsmall Ht HA Hm HL Hs R10 R11 R12.
  pose proof dew_point_error as H. apply Rabs_le_inv in H.
  pose proof inverse_above. lra.
Qed.

Lemma dew_point_below :
  A * t / (t + 243.5) - m <= L -> t - 29 * m - 1000 * u <= D.
Proof using Hu Heta Hhmin Hsmall Ht HA Hm HL Hs R10 R11 R12.
  intros Hl. pose proof dew_point_error as H. apply Rabs_le_inv in H.
  pose proof (inverse_below Hl). lra.
Qed.

Lemma dew_point_below_margin mu :
  0 <= mu <= 1 -> L <= A * t / (t + 243.5) - mu -> D <= t - 7 * mu + 1000 * u.
Proof using Hu Heta Hhmin Hsmall Ht HA Hm HL Hs R10 R11 R12.
  intros Hmu Hl. pose proof dew_point_error as H. apply Rabs_le_inv in H.
  pose proof (inverse_below_margin mu Hmu Hl). lra.
Qed.

End DewPoint.

(** *** The whole chain *)

Section Chain.

Variables t A C h eps n1 d1 a E ps w p q L N Dn D : R.
Hypothesis Ht : -40 <= t <= 60.
Hypothesis HA : 17.66 <= A <= 17.68.
Hypothesis HC : 6.11 <= C <= 6.12.
Hypothesis Hh : hmin <= h <= 100.
Hypothesis Heps : 0 <= eps <= / 1000.
Hypothesis R1 : rnd n1 (A * t).
Hypothesis R2 : rnd d1 (t + 243.5).
Hypothesis R3 : rnd a (n1 / d1).
Hypothesis R4 : Rabs (E - exp a) <= eps * exp a.
Hypothesis R5 : rnd ps (C * E).
Hypothesis R6 : rnd w (ps * h).
Hypothesis R7 : rnd p (w / 100).
Hypothesis R8 : rnd q (p / C).
Hypothesis R9 : Rabs (L - ln q) <= eps.
Hypothesis R10 : rnd N (243.5 * L).
Hypothesis R11 : rnd Dn (A - L).
Hypothesis R12 : rnd D (N / Dn).

Lemma chain_log :
  A * t / (t + 243.5) + ln (h / 100) - (3 * eps + 38 * u) <= L /\
  L <= A * t / (t + 243.5) + ln (h / 100) + (2 * eps + 30 * u) /\
  Rabs (A * t / (t + 243.5)) <= 5.25.
Proof using Hu Heta Hhmin Hsmall Ht HA HC Hh Heps R1 R2 R3 R4 R5 R6 R7 R8 R9.
  destruct (exponent_error t A n1 d1 a Ht HA R1 R2 R3) as (He & Ha & Hs).
  destruct (log_bound a eps E C h ps w p q L Ha Heps HC Hh R4 R5 R6 R7 R8 R9) as [_ Hl].
  apply Rabs_le_inv in He. repeat split; [lra|lra|assumption].
Qed.

Lemma round_trip_above : D <= t + 100 * eps + / 10 ^ 12.
Proof using Hu Heta Hhmin Hsmall Ht HA HC Hh Heps R1 R2 R3 R4 R5 R6 R7 R8 R9 R10 R11 R12.
  destruct chain_log as (_ & Hup & Hs).
  pose proof (humidity_log h Hh) as Hh0.
  assert (Hm : 0 <= 2 * eps + 30 * u <= / 10) by lra.
  assert (HL : L <= A * t / (t + 243.5) + (2 * eps + 30 * u)) by lra.
  pose proof (dew_point_above t A _ L N Dn D Ht HA Hm HL Hs R10 R11 R12). lra.
Qed.

Lemma round_trip_below : h = 100 -> t - 100 * eps - / 10 ^ 12 <= D.
Proof using Hu Heta Hhmin Hsmall Ht HA HC Hh Heps R1 R2 R3 R4 R5 R6 R7 R8 R9 R10 R11 R12.
  intros E100. destruct chain_log as (Hlo & Hup & Hs).
  rewrite E100 in Hlo, Hup. replace (100 / 100) with 1 in Hlo, Hup by lra.
  rewrite ln_1 in Hlo, Hup.
  assert (Hm : 0 <= 3 * eps + 38 * u <= / 10) by lra.
  assert (HL : L <= A * t / (t + 243.5) + (3 * eps + 38 * u)) by lra.
  pose proof (dew_point_below t A _ L N Dn D Ht HA Hm HL Hs R10 R11 R12 ltac:(lra)). lra.
Qed.

(** Air that is short of saturation by more than the errors can make up
    for: the computed dew point is at most [t]. *)
Lemma round_trip_margin : h <= 100 * (1 - (3 * eps + / 10 ^ 12)) -> D <= t.
Proof using Hu Heta Hhmin Hsmall Ht HA HC Hh Heps R1 R2 R3 R4 R5 R6 R7 R8 R9 R10 R11 R12.
  intros Hlt. destruct chain_log as (_ & Hup & Hs).
  assert (Hh0 : 0 < h) by lra.
  pose proof (ln_le_minus_1 (h / 100) ltac:(lra)) as Hln.
  assert (Hm : 0 <= 0 <= / 10) by lra.
  assert (HL : L <= A * t / (t + 243.5) + 0) by lra.
  assert (Hmu : 0 <= eps + / 10 ^ 12 - 30 * u <= 1) by lra.
  assert (Hl : L <= A * t / (t + 243.5) - (eps + / 10 ^ 12 - 30 * u)) by lra.
  pose proof (dew_point_below_margin t A 0 L N Dn D Ht HA Hm HL Hs R10 R11 R12 _ Hmu Hl). lra.
Qed.

End Chain.

End Perturbed.

End RealAnalysis.

(** ** The round trip on [float] *)

Module RoundTripFacts.

Import Reals.
Import JS Calc SF SpecFacts FloatFacts Location ShiftFacts RealValue Pow2Facts OperationError FloatError.
Import RealAnalysis Accuracy.
Local Open Scope R_scope.

(** *** The constants of the analysis *)

(** The smallest relative humidity of the round trip, as a real number
    below the binary64 value of [1e-200]. *)
Local Abbreviation hmin := (/ IZR (10 ^ 201)).

Lemma unit_roundoff_small : 0 < unit_roundoff <= 2 / 10 ^ 16.
Proof.
  unfold unit_roundoff. rewrite (pow2_Zneg 53).
  replace (2 ^ 53)%Z with 9007199254740992%Z by reflexivity. lra.
Qed.

Lemma floor_power : 1 <= IZR (10 ^ 201).
Proof. apply IZR_le, Z.leb_le. reflexivity. Qed.

Lemma hmin_small : 0 < hmin <= 1.
Proof.
  pose proof floor_power. split.
  - apply Rinv_0_lt_compat. lra.
  - rewrite <- Rinv_1. apply Rinv_le_contravar; lra.
Qed.

Lemma eta_small : eta <= unit_roundoff * (hmin / 10 ^ 6).
Proof.
  unfold eta, unit_roundoff.
  replace (-1075)%Z with (-53 + -1022)%Z by lia. rewrite pow2_add.
  apply Rmult_le_compat_l; [left; apply pow2_pos|].
  rewrite (pow2_Zneg 1022).
  assert (Hz : IZR (1000000 * 10 ^ 201) <= IZR (2 ^ 1022)) by (apply IZR_le, Z.leb_le; reflexivity).
  rewrite mult_IZR in Hz. pose proof floor_power as Hy.
  replace (/ IZR (10 ^ 201) / 10 ^ 6) with (/ (1000000 * IZR (10 ^ 201))) by (field; lra).
  apply Rinv_le_contravar; lra.
Qed.

Lemma no_overflow x b : Rabs x <= b -> b <= 10 ^ 9 -> Rabs x < pow2 970.
Proof.
  intros Hx Hb. rewrite pow2_IZR by lia.
  assert (Hz : IZR 10000000000 <= IZR (2 ^ 970)) by (apply IZR_le, Z.leb_le; reflexivity).
  lra.
Qed.

Lemma no_overflow_log x b :
  Rabs x <= b -> b <= 10 ^ 9 * (2 * 10 ^ 6 / hmin + 10) -> Rabs x < pow2 970.
Proof.
  intros Hx Hb. rewrite pow2_IZR by lia.
  assert (Hz : IZR (10000000000000000000 * 10 ^ 201) <= IZR (2 ^ 970))
    by (apply IZR_le, Z.leb_le; reflexivity).
  rewrite mult_IZR in Hz. pose proof floor_power as Hy.
  replace (2 * 10 ^ 6 / / IZR (10 ^ 201)) with (2000000 * IZR (10 ^ 201)) in Hb by (field; lra).
  lra.
Qed.

Lemma value_minus_40 : value (-40) = -40.
Proof.
  rewrite (value_finite (-40) true 5629499534213120 (-47)) by reflexivity.
  rewrite sgn_true, (pow2_Zneg 47).
  replace (2 ^ 47)%Z with 140737488355328%Z by reflexivity. lra.
Qed.

Lemma value_60 : value 60 = 60.
Proof.
  rewrite (value_finite 60 false 8444249301319680 (-47)) by reflexivity.
  rewrite sgn_false, (pow2_Zneg 47).
  replace (2 ^ 47)%Z with 140737488355328%Z by reflexivity. lra.
Qed.

Lemma value_floor : hmin <= value 1e-200.
Proof.
  rewrite (value_finite 1e-200 false 6894565328877484 (-717)) by reflexivity.
  rewrite sgn_false, (pow2_Zneg 717).
  assert (Hz : IZR (2 ^ 717) <= IZR (6894565328877484 * 10 ^ 201))
    by (apply IZR_le, Z.leb_le; reflexivity).
  rewrite mult_IZR in Hz. pose proof floor_power as Hy.
  assert (Hp : 1 <= IZR (2 ^ 717)) by (apply IZR_le, Z.leb_le; reflexivity).
  apply Rmult_le_reg_r with (IZR (10 ^ 201) * IZR (2 ^ 717)); [nra|].
  replace (/ IZR (10 ^ 201) * (IZR (10 ^ 201) * IZR (2 ^ 717))) with (IZR (2 ^ 717))
    by (field; lra).
  replace (1 * (IZR 6894565328877484 * / IZR (2 ^ 717)) * (IZR (10 ^ 201) * IZR (2 ^ 717)))
    with (IZR 6894565328877484 * IZR (10 ^ 201)) by (field; lra).
  exact Hz.
Qed.

(** *** The operations of the two formulas, one by one *)

Section Steps.

Context (host : MathHost) (T RH : float) (eps : R).
Hypothesis HT1 : (-40 <=? T)%float = true.
Hypothesis HT2 : (T <=? 60)%float = true.
Hypothesis HRH1 : (1e-200 <=? RH)%float = true.
Hypothesis HRH2 : (RH <=? 100)%float = true.
Hypothesis Heps : 0 <= eps <= / 1000.
Hypothesis Hexp : accurate_exp host eps ((17.67 * T) / (T + 243.5))%float.
Hypothesis Hlog :
  accurate_log host eps
    ((6.112 * Math_exp ((17.67 * T) / (T + 243.5)) * RH / 100) / 6.112)%float.

Local Abbreviation at_model l :=
  (l unit_roundoff eta hmin unit_roundoff_small eta_pos hmin_small eta_small).
Local Abbreviation af := ((17.67 * T) / (T + 243.5))%float.
Local Abbreviation psf := (6.112 * Math_exp af)%float.
Local Abbreviation qf := ((psf * RH / 100) / 6.112)%float.
Local Abbreviation Lf := (Math_log qf).

Lemma temperature_value : is_finite T = true /\ -40 <= value T <= 60.
Proof using All.
  assert (F : is_finite T = true) by (apply (leb_finite (-40) T 60); auto).
  split; [assumption|]. rewrite <- value_minus_40, <- value_60.
  split; apply leb_value; auto.
Qed.

Lemma humidity_value : is_finite RH = true /\ hmin <= value RH <= 100.
Proof using All.
  assert (F : is_finite RH = true) by (apply (leb_finite 1e-200 RH 100); auto).
  split; [assumption|]. split.
  - apply Rle_trans with (value 1e-200); [apply value_floor|apply leb_value; auto].
  - rewrite <- value_100. apply leb_value; auto.
Qed.

Lemma step_product : approx (17.67 * T) (value 17.67 * value T).
Proof using All.
  destruct temperature_value as [F Ht].
  apply mul_approx; [reflexivity|assumption|].
  apply no_overflow with 1061; [|lra].
  exact (at_model product_bound _ _ Ht value_17_67).
Qed.

Lemma step_sum : approx (T + 243.5) (value T + 243.5).
Proof using All.
  destruct temperature_value as [F Ht].
  rewrite <- value_243_5.
  apply add_approx; [assumption|reflexivity|].
  rewrite value_243_5. apply no_overflow with 303.5; [apply Rabs_le|]; lra.
Qed.

Lemma step_exponent :
  approx af (value (17.67 * T) / value (T + 243.5)) /\
  Rabs (value af - value 17.67 * value T / (value T + 243.5)) <= 22 * unit_roundoff /\
  -5.3 <= value af <= 5.3 /\
  Rabs (value 17.67 * value T / (value T + 243.5)) <= 5.25.
Proof using All.
  destruct temperature_value as [F Ht].
  destruct step_product as [F1 R1]. destruct step_sum as [F2 R2].
  pose proof (at_model d1_bound _ _ Ht R2) as [_ Hd].
  pose proof (at_model quotient_bound _ _ _ _ Ht value_17_67 R1 R2) as Hq.
  assert (R3 : approx af (value (17.67 * T) / value (T + 243.5))).
  { apply div_approx; [assumption|assumption|lra|].
    apply no_overflow with 5.3; [assumption|lra]. }
  split; [assumption|].
  exact (at_model exponent_error _ _ _ _ _ Ht value_17_67 R1 R2 (proj2 R3)).
Qed.

Lemma step_saturation :
  approx psf (value 6.112 * value (Math_exp af)) /\
  Rabs (value (Math_exp af) - exp (value af)) <= eps * exp (value af).
Proof using All.
  destruct step_exponent as (_ & _ & Ha & _). destruct Hexp as [F4 R4].
  split; [|assumption].
  apply mul_approx; [reflexivity|assumption|].
  apply no_overflow with 4600; [|lra].
  exact (proj2 (at_model CE_bound _ _ _ _ Ha Heps value_6_112 R4)).
Qed.

Lemma step_scaled : approx (psf * RH) (value psf * value RH).
Proof using All.
  destruct step_exponent as (_ & _ & Ha & _). destruct humidity_value as [Fh Hh].
  destruct step_saturation as [[F5 R5] R4].
  apply mul_approx; [assumption|assumption|].
  apply no_overflow with 470000; [|lra].
  exact (proj2 (at_model psh_bound _ _ _ _ _ _ Ha Heps value_6_112 Hh R4 R5)).
Qed.

Lemma step_percent : approx (psf * RH / 100) (value (psf * RH) / 100).
Proof using All.
  destruct step_exponent as (_ & _ & Ha & _). destruct humidity_value as [Fh Hh].
  destruct step_saturation as [[F5 R5] R4]. destruct step_scaled as [F6 R6].
  rewrite <- value_100.
  apply div_approx; [assumption|reflexivity|rewrite value_100; lra|].
  rewrite value_100. apply no_overflow with 4800; [|lra].
  exact (proj2 (at_model w100_bound _ _ _ _ _ _ _ Ha Heps value_6_112 Hh R4 R5 R6)).
Qed.

Lemma step_ratio : approx qf (value (psf * RH / 100) / value 6.112).
Proof using All.
  destruct step_exponent as (_ & _ & Ha & _). destruct humidity_value as [Fh Hh].
  destruct step_saturation as [[F5 R5] R4]. destruct step_scaled as [F6 R6].
  destruct step_percent as [F7 R7]. pose proof value_6_112 as HC.
  apply div_approx; [assumption|reflexivity|lra|].
  apply no_overflow with 810; [|lra].
  exact (proj2 (at_model pC_bound _ _ _ _ _ _ _ _ Ha Heps HC Hh R4 R5 R6 R7)).
Qed.

(** The logarithm that the host returns, against the exact exponent
    [17.67 t / (t + 243.5)] and the logarithm of the relative humidity. *)
Lemma step_log :
  Rabs (value Lf) <= 2 * 10 ^ 6 / hmin + 10 /\
  value 17.67 * value T / (value T + 243.5) + ln (value RH / 100)
    - (3 * eps + 38 * unit_roundoff) <= value Lf /\
  value Lf <= value 17.67 * value T / (value T + 243.5) + ln (value RH / 100)
    + (2 * eps + 30 * unit_roundoff).
Proof using All.
  destruct step_exponent as (_ & He & Ha & _). destruct humidity_value as [Fh Hh].
  destruct step_saturation as [[F5 R5] R4]. destruct step_scaled as [F6 R6].
  destruct step_percent as [F7 R7]. destruct step_ratio as [F8 R8].
  destruct Hlog as [F9 R9].
  destruct (at_model log_bound _ _ _ _ _ _ _ _ _ _ Ha Heps value_6_112 Hh R4 R5 R6 R7 R8 R9)
    as [Hb Hl].
  apply Rabs_le_inv in He. split; [assumption|]. split; lra.
Qed.

Lemma log_magnitude : 10 <= 2 * 10 ^ 6 / hmin + 10.
Proof using All.
  pose proof hmin_small as Hh.
  assert (0 < 2 * 10 ^ 6 / hmin) by (apply Rdiv_lt_0_compat; lra). lra.
Qed.

Lemma step_numerator : approx (243.5 * Lf) (243.5 * value Lf).
Proof using All.
  destruct step_log as [Hb _]. destruct Hlog as [F9 _].
  rewrite <- value_243_5.
  apply mul_approx; [reflexivity|assumption|].
  rewrite value_243_5. pose proof log_magnitude as Hx.
  apply no_overflow_log with (243.5 * (2 * 10 ^ 6 / hmin + 10)).
  - remember (2 * 10 ^ 6 / hmin + 10) as X eqn:EX. clear EX.
    rewrite Rabs_mult, (Rabs_pos_eq 243.5) by lra. lra.
  - remember (2 * 10 ^ 6 / hmin + 10) as X eqn:EX. clear EX. lra.
Qed.

Lemma step_denominator : approx (17.67 - Lf) (value 17.67 - value Lf).
Proof using All.
  destruct step_log as [Hb _]. destruct Hlog as [F9 _]. pose proof value_17_67 as HA.
  apply sub_approx; [reflexivity|assumption|].
  pose proof log_magnitude as Hx.
  apply no_overflow_log with (18 + (2 * 10 ^ 6 / hmin + 10)).
  - remember (2 * 10 ^ 6 / hmin + 10) as X eqn:EX. clear EX.
    apply Rabs_le_inv in Hb. apply Rabs_le. lra.
  - remember (2 * 10 ^ 6 / hmin + 10) as X eqn:EX. clear EX. lra.
Qed.

Lemma exponent_margin :
  0 <= 2 * eps + 30 * unit_roundoff <= / 10 /\ 0 <= 3 * eps + 38 * unit_roundoff <= / 10.
Proof using All. pose proof unit_roundoff_small. lra. Qed.

Lemma step_dew_point :
  approx ((243.5 * Lf) / (17.67 - Lf)) (value (243.5 * Lf) / value (17.67 - Lf)).
Proof using All.
  destruct temperature_value as [_ Ht]. destruct step_exponent as (_ & _ & _ & Hs).
  destruct step_log as (_ & _ & HL). destruct humidity_value as [_ Hh].
  pose proof (at_model humidity_log _ Hh) as Hh0.
  destruct step_numerator as [F10 R10]. destruct step_denominator as [F11 R11].
  destruct exponent_margin as [Hm _].
  assert (HL' : value Lf <= value 17.67 * value T / (value T + 243.5)
                             + (2 * eps + 30 * unit_roundoff)) by lra.
  destruct (at_model Dn_bound _ _ _ _ _ Ht value_17_67 Hm HL' Hs R11) as [Hd _].
  destruct (at_model ratio_error _ _ _ _ _ _ Ht value_17_67 Hm HL' Hs R10 R11) as [_ Hr].
  apply div_approx; [assumption|assumption|lra|].
  apply no_overflow with 244; [assumption|lra].
Qed.

End Steps.

(** *** The reference host at the arguments of the round trip at 0 degrees *)

Lemma value_zero : value 0 = 0.
Proof. reflexivity. Qed.

Lemma value_one : value 1 = 1.
Proof.
  rewrite (value_finite 1 false 4503599627370496 (-52)) by reflexivity.
  rewrite sgn_false, (pow2_Zneg 52).
  replace (2 ^ 52)%Z with 4503599627370496%Z by reflexivity. lra.
Qed.

Lemma reference_exp_at_zero eps :
  0 <= eps -> accurate_exp reference_host eps ((17.67 * 0) / (0 + 243.5))%float.
Proof.
  intros Heps.
  assert (Ex : ((17.67 * 0) / (0 + 243.5))%float = 0%float) by reflexivity.
  rewrite Ex. unfold accurate_exp. rewrite exp_pos_zero. split; [reflexivity|].
  rewrite value_one, value_zero, exp_0.
  replace (1 - 1) with 0 by ring. rewrite Rabs_R0. lra.
Qed.

Lemma reference_log_at_one :
  accurate_log reference_host 0
    ((calculateSaturationVaporPressure reference_host 0 * 100 / 100) / 6.112)%float.
Proof.
  assert (Ex : ((calculateSaturationVaporPressure reference_host 0 * 100 / 100) / 6.112)%float
               = 1%float) by (vm_compute; reflexivity).
  rewrite Ex. unfold accurate_log. rewrite log_one. split; [reflexivity|].
  rewrite value_one, value_zero, ln_1.
  replace (0 - 0) with 0 by ring. rewrite Rabs_R0. lra.
Qed.

(** *** The reference host at half saturation: the logarithm of 2

    The bounds come from [1 + y <= exp y <= 1 / (1 - y)] at [y = x / 1024],
    squared ten times. *)

Lemma exp_square_ge y b b' : 0 <= b -> b <= exp y -> b' <= b * b -> b' <= exp (2 * y).
Proof.
  intros Hb H H'. replace (2 * y) with (y + y) by ring. rewrite exp_plus. nra.
Qed.

Lemma exp_square_le y c c' : exp y <= c -> c * c <= c' -> exp (2 * y) <= c'.
Proof.
  intros H H'. replace (2 * y) with (y + y) by ring. rewrite exp_plus.
  pose proof (exp_pos y). nra.
Qed.

Lemma exp_le_inv y : y < 1 -> exp y <= / (1 - y).
Proof.
  intros Hy. pose proof (exp_ineq1_le (- y)) as H. rewrite exp_Ropp in H.
  pose proof (exp_pos y) as Hp.
  apply Rmult_le_reg_r with (1 - y); [lra|]. rewrite Rinv_l by lra.
  apply Rmult_le_reg_r with (/ exp y); [apply Rinv_0_lt_compat; assumption|].
  replace (exp y * (1 - y) * / exp y) with (1 - y) by (field; lra). lra.
Qed.

Lemma exp_above_2 : 2 <= exp 0.6935.
Proof.
  replace 0.6935 with (2 * (2 * (2 * (2 * (2 * (2 * (2 * (2 * (2 * (2 * (0.6935 / 1024))))))))))) by lra.
  apply Rle_trans with 2.000236192087; [lra|].
  apply exp_square_ge with 1.414297066421; [lra| |lra].
  apply exp_square_ge with 1.189242223612; [lra| |lra].
  apply exp_square_ge with 1.090523829915; [lra| |lra].
  apply exp_square_ge with 1.044281489789; [lra| |lra].
  apply exp_square_ge with 1.021900919752; [lra| |lra].
  apply exp_square_ge with 1.010891151288; [lra| |lra].
  apply exp_square_ge with 1.005430828694; [lra| |lra].
  apply exp_square_ge with 1.002711737587; [lra| |lra].
  apply exp_square_ge with 1.001354950848; [lra| |lra].
  apply exp_square_ge with 1.000677246093; [lra| |lra].
  apply Rle_trans with (1 + 0.6935 / 1024); [lra|apply exp_ineq1_le].
Qed.

Lemma exp_below_2 : exp 0.6928 <= 2.
Proof.
  replace 0.6928 with (2 * (2 * (2 * (2 * (2 * (2 * (2 * (2 * (2 * (2 * (0.6928 / 1024))))))))))) by lra.
  apply Rle_trans with 1.999774586769; [|lra].
  apply exp_square_le with 1.414133864515; [|lra].
  apply exp_square_le with 1.189173605709; [|lra].
  apply exp_square_le with 1.090492368478; [|lra].
  apply exp_square_le with 1.044266426003; [|lra].
  apply exp_square_le with 1.021893549252; [|lra].
  apply exp_square_le with 1.010887505735; [|lra].
  apply exp_square_le with 1.005429015761; [|lra].
  apply exp_square_le with 1.002710833571; [|lra].
  apply exp_square_le with 1.001354499451; [|lra].
  apply exp_square_le with 1.000677020547; [|lra].
  apply Rle_trans with (/ (1 - 0.6928 / 1024)); [apply exp_le_inv; lra|].
  apply Rmult_le_reg_r with (1 - 0.6928 / 1024); [lra|]. rewrite Rinv_l by lra. lra.
Qed.

Lemma ln_2_bounds : 0.6928 <= ln 2 <= 0.6935.
Proof.
  split.
  - rewrite <- (ln_exp 0.6928). apply ln_le; [apply exp_pos|apply exp_below_2].
  - rewrite <- (ln_exp 0.6935). apply ln_le; [lra|apply exp_above_2].
Qed.

Lemma value_50 : value 50 = 50.
Proof.
  rewrite (value_finite 50 false 7036874417766400 (-47)) by reflexivity.
  rewrite sgn_false, (pow2_Zneg 47).
  replace (2 ^ 47)%Z with 140737488355328%Z by reflexivity. lra.
Qed.

Lemma value_half : value 0.5 = / 2.
Proof.
  rewrite (value_finite 0.5 false 4503599627370496 (-53)) by reflexivity.
  rewrite sgn_false, (pow2_Zneg 53).
  replace (2 ^ 53)%Z with 9007199254740992%Z by reflexivity. lra.
Qed.

Lemma reference_log_at_half :
  accurate_log reference_host (/ 1000)
    ((calculateSaturationVaporPressure reference_host 0 * 50 / 100) / 6.112)%float.
Proof.
  assert (Ex : ((calculateSaturationVaporPressure reference_host 0 * 50 / 100) / 6.112)%float
               = 0.5%float) by (vm_compute; reflexivity).
  rewrite Ex. unfold accurate_log. split; [vm_compute; reflexivity|].
  rewrite (value_finite (@Math_log reference_host 0.5%float) true 6243314768165359 (-53))
    by (vm_compute; reflexivity).
  rewrite value_half, ln_Rinv, sgn_true, (pow2_Zneg 53) by lra.
  replace (2 ^ 53)%Z with 9007199254740992%Z by reflexivity.
  pose proof ln_2_bounds. apply Rabs_le. lra.
Qed.

End RoundTripFacts.

(** * The claims *)

(** C1. For every input snapshot the engine returns a result whose
    [isHeating] is [targetTemp > outsideTemp] (strictly), whose
    [sensiblePower] is [(volumeFlow * 1.204 / 3600) * 1.005 *
    (targetTemp - outsideTemp)] and whose [totalPower] is
    [sensiblePower + latentPower]. *)
Theorem C1_mode_and_power (host : MathHost) (inputs : HvacInputs) :
  exists r, calculateHvacPerformance host inputs = Some r /\
    isHeating r = (outsideTemp inputs <? targetTemp inputs) /\
    sensiblePower r =
      (volumeFlow inputs * 1.204 / 3600) * 1.005 * (targetTemp inputs - outsideTemp inputs) /\
    totalPower r = sensiblePower r + latentPower r.
Proof.
  eexists. split; [apply Run.calculateHvacPerformance_eq|]. cbn [isHeating sensiblePower totalPower latentPower].
  split; [apply FloatFacts.sub_positive|]. split; reflexivity.
Qed.

(** C2 (as amended). In cooling mode with [targetTemp < dewPoint] the
    result has [finalHumidity = 100], [finalAbsoluteHumidity =
    absoluteHumidity(p_sat(targetTemp))] and [latentPower = -|airMassFlow *
    ((initialAbsoluteHumidity - finalAbsoluteHumidity) / 1000) * 2260|].
    For every input, [latentPower != 0] implies that [latentPower] is NaN
    or [<= 0], and that [isHeating] is false. *)
Theorem C2_condensation (host : MathHost) (inputs : HvacInputs) :
  exists r, calculateHvacPerformance host inputs = Some r /\
    let airMassFlow := (volumeFlow inputs * 1.204) / 3600 in
    (isHeating r = false -> (targetTemp inputs <? dewPoint r) = true ->
       finalHumidity r = 100 /\
       finalAbsoluteHumidity r =
         calculateAbsoluteHumidity
           (calculateSaturationVaporPressure host (targetTemp inputs)) /\
       latentPower r =
         - abs (airMassFlow *
                ((initialAbsoluteHumidity r - finalAbsoluteHumidity r) / 1000) * 2260)) /\
    ((latentPower r =? 0) = false ->
       (is_nan (latentPower r) = true \/ (latentPower r <=? 0) = true) /\
       isHeating r = false).
Proof.
  eexists. split; [apply Run.calculateHvacPerformance_eq|].
  cbn [isHeating dewPoint finalHumidity finalAbsoluteHumidity latentPower initialAbsoluteHumidity].
  unfold humidityPath. split.
  - intros Hh Hlt. rewrite Hh, (FloatFacts.ltb_not_leb _ _ Hlt). cbn [fst snd].
    repeat split.
  - destruct (0 <? _ - _); [intros H; discriminate H|].
    destruct (_ <=? _); [intros H; discriminate H|]. cbn [fst snd]. intros _.
    split; [|reflexivity]. unfold Math_abs.
    match goal with |- context [- abs ?x] => destruct (is_nan x) eqn:E end.
    + left. rewrite FloatFacts.opp_abs_nan. assumption.
    + right. apply FloatFacts.opp_abs_nonpos. assumption.
Qed.

Lemma C2_witness :
  exists r, calculateHvacPerformance reference_host Inputs.scenario_cooling = Some r /\
    finalHumidity r = 100 /\
    (latentPower r <=? 0) = true /\ isHeating r = false.
Proof.
  destruct (C2_condensation reference_host Inputs.scenario_cooling) as (r & Hr & H1 & H2).
  assert (E := Hr). vm_compute in E. injection E as E.
  assert (Hh : isHeating r = false) by (rewrite <- E; reflexivity).
  assert (Hd : (targetTemp Inputs.scenario_cooling <? dewPoint r) = true)
    by (rewrite <- E; reflexivity).
  assert (Hl : (latentPower r =? 0) = false) by (rewrite <- E; reflexivity).
  assert (Hn : is_nan (latentPower r) = false) by (rewrite <- E; reflexivity).
  destruct (H1 Hh Hd) as (Hf & _). destruct (H2 Hl) as ([Hnan|Hle] & _); [congruence|].
  exists r. repeat split; assumption.
Defined.

(** C2 fails as stated: when the volume flow overflows and the humidity
    difference is 0, the latent power is -|Infinity * 0| = NaN, which is
    different from 0 and yet not [<= 0]. *)
Lemma C2_counterexample :
  exists r, calculateHvacPerformance reference_host Inputs.cold_dry_overflow = Some r /\
    (latentPower r =? 0) = false /\ (latentPower r <=? 0) = false.
Proof.
  destruct (Extremes.cold_dry_overflow_any_host reference_host) as (r & Hr & Hl).
  exists r. split; [exact Hr|]. rewrite Hl. split; reflexivity.
Qed.

(** C3. When the result is in heating mode, and likewise when it is in
    cooling mode with [targetTemp >= dewPoint], the absolute humidity is
    unchanged, the latent power is 0 and the final humidity is
    [(initialVaporPressure / p_sat(targetTemp)) * 100] clamped to [0,100]. *)
Theorem C3_no_condensation (host : MathHost) (inputs : HvacInputs) :
  exists r, calculateHvacPerformance host inputs = Some r /\
    (isHeating r = true \/
     (isHeating r = false /\ (dewPoint r <=? targetTemp inputs) = true) ->
     let initialVaporPressure :=
       (outsideHumidity inputs / 100) *
       calculateSaturationVaporPressure host (outsideTemp inputs) in
     finalAbsoluteHumidity r = initialAbsoluteHumidity r /\
     latentPower r = 0 /\
     finalHumidity r =
       Math_max 0 (Math_min
         ((initialVaporPressure / calculateSaturationVaporPressure host (targetTemp inputs)) * 100)
         100)).
Proof.
  eexists. split; [apply Run.calculateHvacPerformance_eq|].
  cbn [isHeating dewPoint finalAbsoluteHumidity initialAbsoluteHumidity latentPower finalHumidity].
  unfold humidityPath. intros [H|[H1 H2]].
  - rewrite H. cbn [fst snd]. repeat split.
  - rewrite H1, H2. cbn [fst snd]. repeat split.
Qed.

Lemma C3_witness :
  (exists r, calculateHvacPerformance reference_host Inputs.scenario_heating = Some r /\
     isHeating r = true /\
     finalAbsoluteHumidity r = initialAbsoluteHumidity r /\ latentPower r = 0) /\
  (exists r, calculateHvacPerformance reference_host Inputs.scenario_dry_cooling = Some r /\
     isHeating r = false /\ (dewPoint r <=? 25) = true /\
     finalAbsoluteHumidity r = initialAbsoluteHumidity r /\ latentPower r = 0).
Proof.
  split.
  - destruct (C3_no_condensation reference_host Inputs.scenario_heating) as (r & Hr & H).
    assert (E := Hr). vm_compute in E. injection E as E.
    assert (H1 : isHeating r = true) by (rewrite <- E; reflexivity).
    destruct (H (or_introl H1)) as (Ha & Hl & _).
    exists r. repeat split; assumption.
  - destruct (C3_no_condensation reference_host Inputs.scenario_dry_cooling) as (r & Hr & H).
    assert (E := Hr). vm_compute in E. injection E as E.
    assert (H1 : isHeating r = false) by (rewrite <- E; reflexivity).
    assert (H2 : (dewPoint r <=? 25) = true) by (rewrite <- E; reflexivity).
    destruct (H (or_intror (conj H1 H2))) as (Ha & Hl & _).
    exists r. repeat split; assumption.
Defined.

(** C4 (as amended). The clamps let NaN through: [finalHumidity] is NaN or
    lies in [0,100], and [efficiency] is NaN or lies in [0,1]. *)
Theorem C4_clamped_or_nan (host : MathHost) (inputs : HvacInputs) :
  exists r, calculateHvacPerformance host inputs = Some r /\
    (is_nan (finalHumidity r) = true \/
     ((0 <=? finalHumidity r) = true /\ (finalHumidity r <=? 100) = true)) /\
    (is_nan (efficiency r) = true \/
     ((0 <=? efficiency r) = true /\ (efficiency r <=? 1) = true)).
Proof.
  eexists. split; [apply Run.calculateHvacPerformance_eq|].
  cbn [finalHumidity efficiency]. unfold efficiencyOf. split.
  - match goal with |- context [Math_min ?x 100] => destruct (is_nan x) eqn:E end.
    + left. rewrite FloatFacts.clamp_nan by assumption. reflexivity.
    + right. apply FloatFacts.clamp_range; [assumption|reflexivity|reflexivity].
  - match goal with |- context [Math_min ?x 1] => destruct (is_nan x) eqn:E end.
    + left. rewrite FloatFacts.clamp_nan by assumption. reflexivity.
    + right. apply FloatFacts.clamp_range; [assumption|reflexivity|reflexivity].
Qed.

(** C4 fails as stated: heating dry air from -250 to -243.5 degrees divides
    0 by 0, and the clamp returns NaN, which is not between 0 and 100. *)
Lemma C4_counterexample :
  exists r, calculateHvacPerformance reference_host Inputs.cold_dry_heating = Some r /\
    finalHumidity r = NaN /\
    (0 <=? finalHumidity r) = false /\ (finalHumidity r <=? 100) = false.
Proof.
  destruct (Extremes.cold_dry_heating_any_host reference_host) as (r & Hr & Hf).
  exists r. split; [exact Hr|]. rewrite Hf. repeat split.
Qed.

(** C5 (as amended). If [|supplyTemp - returnTemp| > 0] then
    [waterVolumeFlow = (|totalPower| / (4.186 * |supplyTemp - returnTemp|))
    * 3600 / 1000], and [recommendedPipeDiameter] is
    [1000 * sqrt(4 * ((waterVolumeFlow/3600) / 1.5) / PI)] unless
    [waterVolumeFlow] is NaN, in which case the [isFinite] guard leaves it at
    +Infinity.  If [supplyTemp] equals [returnTemp] (as [==] compares them,
    or as the same value) both are +Infinity. *)
Theorem C5_water_sizing (host : MathHost) (inputs : HvacInputs) :
  exists r, calculateHvacPerformance host inputs = Some r /\
    let deltaT_water := abs (supplyTemp inputs - returnTemp inputs) in
    let diameter_mm :=
      1000 * sqrt (4 * ((waterVolumeFlow r / 3600) / 1.5) / Math_PI) in
    ((0 <? deltaT_water) = true ->
       waterVolumeFlow r = (abs (totalPower r) / (4.186 * deltaT_water)) * 3600 / 1000 /\
       (is_nan (waterVolumeFlow r) = false -> recommendedPipeDiameter r = diameter_mm) /\
       (is_nan (waterVolumeFlow r) = true -> recommendedPipeDiameter r = Infinity)) /\
    ((supplyTemp inputs =? returnTemp inputs) = true \/
     supplyTemp inputs = returnTemp inputs ->
       waterVolumeFlow r = Infinity /\ recommendedPipeDiameter r = Infinity).
Proof.
  eexists. split; [apply Run.calculateHvacPerformance_eq|].
  cbn [waterVolumeFlow recommendedPipeDiameter totalPower].
  rewrite SizingFacts.waterSizing_eq. unfold Math_abs. split.
  - intros Hd. rewrite Hd. cbn [fst snd]. split; [reflexivity|].
    match goal with |- context [isFinite ?f] =>
      pose proof (SizingFacts.flowOf_sign _ _ Hd : is_nan f = true \/ SF.nonneg f) as Hs;
      set (flow := f) in *
    end.
    split.
    + intros Hn. destruct Hs as [Hs|Hs]; [congruence|].
      destruct (isFinite flow) eqn:Hf.
      * unfold Parts.diameterOf, Math_sqrt. apply FloatFacts.mul_comm.
      * rewrite (FloatFacts.nonneg_not_finite flow Hs Hf). reflexivity.
    + intros Hn. unfold isFinite, is_finite. rewrite Hn. reflexivity.
  - intros He. rewrite FloatFacts.abs_sub_positive.
    assert (Hlt : (returnTemp inputs <? supplyTemp inputs) = false /\
                  (supplyTemp inputs <? returnTemp inputs) = false).
    { destruct He as [He|He].
      - destruct (FloatFacts.eqb_not_ltb _ _ He). split; assumption.
      - rewrite He. split; apply FloatFacts.ltb_irrefl. }
    destruct Hlt as [-> ->]. split; reflexivity.
Qed.

Lemma C5_witness :
  (exists r, calculateHvacPerformance reference_host Inputs.scenario_heating = Some r /\
     waterVolumeFlow r = (abs (totalPower r) / (4.186 * abs (60 - 40))) * 3600 / 1000 /\
     recommendedPipeDiameter r =
       1000 * sqrt (4 * ((waterVolumeFlow r / 3600) / 1.5) / Math_PI)) /\
  (exists r, calculateHvacPerformance reference_host Inputs.idle_water_loop = Some r /\
     waterVolumeFlow r = Infinity /\ recommendedPipeDiameter r = Infinity).
Proof.
  split.
  - destruct (C5_water_sizing reference_host Inputs.scenario_heating) as (r & Hr & H & _).
    destruct (H eq_refl) as (Hw & Hd & _).
    assert (E := Hr). vm_compute in E. injection E as E.
    assert (Hn : is_nan (waterVolumeFlow r) = false) by (rewrite <- E; reflexivity).
    exists r. split; [assumption|]. split; [exact Hw|exact (Hd Hn)].
  - destruct (C5_water_sizing reference_host Inputs.idle_water_loop) as (r & Hr & _ & H).
    exists r. split; [assumption|]. apply H. left. reflexivity.
Defined.

(** C5 fails as stated: with a NaN total power (overflowing volume flow,
    unchanged temperature) and [supplyTemp <> returnTemp], the water volume
    flow is NaN and the pipe diameter stays +Infinity although the formula
    of the claim yields NaN. *)
Lemma C5_counterexample :
  exists r, calculateHvacPerformance reference_host Inputs.overflowing_flow = Some r /\
    (0 <? abs (supplyTemp Inputs.overflowing_flow - returnTemp Inputs.overflowing_flow)) = true /\
    recommendedPipeDiameter r = Infinity /\
    1000 * sqrt (4 * ((waterVolumeFlow r / 3600) / 1.5) / Math_PI) = NaN /\
    Infinity <> NaN.
Proof.
  destruct (Extremes.overflowing_flow_any_host reference_host) as (r & Hr & Hw & Hd).
  exists r. split; [exact Hr|]. rewrite Hw, Hd. repeat split.
  intros H. apply (f_equal is_nan) in H. discriminate H.
Qed.


(** C7 (what the code does). The engine never returns [null]; on dry
    outside air, where the logarithm of the dew-point formula receives 0,
    it returns a result snapshot whose [dewPoint] is NaN. *)
Theorem C7_dry_air_is_not_null (host : MathHost) :
  (forall inputs, calculateHvacPerformance host inputs <> None) /\
  exists r, calculateHvacPerformance host Inputs.dry_air = Some r /\
    Math_log ((outsideHumidity Inputs.dry_air / 100 *
               calculateSaturationVaporPressure host (outsideTemp Inputs.dry_air)) / 6.112)
      = - Infinity /\
    dewPoint r = NaN.
Proof.
  split.
  - intros inputs. rewrite Run.calculateHvacPerformance_eq. discriminate.
  - eexists. split; [apply Run.calculateHvacPerformance_eq|].
    cbn [dewPoint outsideHumidity outsideTemp Inputs.dry_air]. split.
    + unfold calculateSaturationVaporPressure.
      change ((17.67 * 0) / (0 + 243.5)) with 0. rewrite exp_pos_zero.
      change ((0 / 100 * (6.112 * 1)) / 6.112) with 0. apply log_pos_zero.
    + apply Extremes.dry_air_dew_point.
Qed.

Module RoundTrip.

Import Reals.
Import RealValue Accuracy.

(** C8 (as amended). On a host whose [Math.exp] and [Math.log] are
    accurate to [eps] at the two arguments the round trip passes to them,
    for every temperature [T] from -40 to 60 degrees and every relative
    humidity [RH] from 1e-200 to 100 percent,
    [calculateDewPoint(calculateSaturationVaporPressure(T) * RH/100)] is a
    finite number and at most [T] up to the tolerance [100 eps + 1e-12]; it
    is at most [T] itself when [RH <= 100 (1 - 3 eps - 1e-12)], and it is
    within the tolerance of [T] when [RH = 100]. *)
Theorem C8_round_trip (host : MathHost) (T RH : float) (eps : R) :
  (-40 <=? T)%float = true -> (T <=? 60)%float = true ->
  (1e-200 <=? RH)%float = true -> (RH <=? 100)%float = true ->
  (0 <= eps <= / 1000)%R ->
  accurate_exp host eps ((17.67 * T) / (T + 243.5))%float ->
  accurate_log host eps
    ((calculateSaturationVaporPressure host T * RH / 100) / 6.112)%float ->
  let D := calculateDewPoint host (calculateSaturationVaporPressure host T * RH / 100)%float in
  is_finite D = true /\
  (value D <= value T + tolerance eps)%R /\
  (value RH <= 100 * (1 - margin eps) -> value D <= value T)%R /\
  (RH = 100%float -> Rabs (value D - value T) <= tolerance eps)%R.
Proof.
  intros HT1 HT2 HRH1 HRH2 Heps Hexp Hlog.
  unfold calculateDewPoint, calculateSaturationVaporPressure in *. cbv zeta.
  destruct (RoundTripFacts.temperature_value host T RH eps HT1 HT2 HRH1 HRH2 Heps Hexp Hlog)
    as [_ Ht].
  destruct (RoundTripFacts.humidity_value host T RH eps HT1 HT2 HRH1 HRH2 Heps Hexp Hlog)
    as [_ Hh].
  destruct (RoundTripFacts.step_product host T RH eps HT1 HT2 HRH1 HRH2 Heps Hexp Hlog)
    as [_ R1].
  destruct (RoundTripFacts.step_sum host T RH eps HT1 HT2 HRH1 HRH2 Heps Hexp Hlog)
    as [_ R2].
  destruct (RoundTripFacts.step_exponent host T RH eps HT1 HT2 HRH1 HRH2 Heps Hexp Hlog)
    as [[_ R3] _].
  destruct (RoundTripFacts.step_saturation host T RH eps HT1 HT2 HRH1 HRH2 Heps Hexp Hlog)
    as [[_ R5] R4].
  destruct (RoundTripFacts.step_scaled host T RH eps HT1 HT2 HRH1 HRH2 Heps Hexp Hlog)
    as [_ R6].
  destruct (RoundTripFacts.step_percent host T RH eps HT1 HT2 HRH1 HRH2 Heps Hexp Hlog)
    as [_ R7].
  destruct (RoundTripFacts.step_ratio host T RH eps HT1 HT2 HRH1 HRH2 Heps Hexp Hlog)
    as [_ R8].
  destruct (RoundTripFacts.step_numerator host T RH eps HT1 HT2 HRH1 HRH2 Heps Hexp Hlog)
    as [_ R10].
  destruct (RoundTripFacts.step_denominator host T RH eps HT1 HT2 HRH1 HRH2 Heps Hexp Hlog)
    as [_ R11].
  destruct (RoundTripFacts.step_dew_point host T RH eps HT1 HT2 HRH1 HRH2 Heps Hexp Hlog)
    as [F12 R12].
  destruct Hlog as [_ R9].
  pose proof (RealAnalysis.round_trip_above _ _ _
           RoundTripFacts.unit_roundoff_small OperationError.eta_pos
           RoundTripFacts.hmin_small RoundTripFacts.eta_small
           _ _ _ _ _ _ _ _ _ _ _ _ _ _ _ _ _
           Ht FloatError.value_17_67 FloatError.value_6_112 Hh Heps
           R1 R2 R3 R4 R5 R6 R7 R8 R9 R10 R11 R12) as Hup.
  split; [exact F12|]. unfold tolerance, margin. split; [lra|]. split.
  - intros Hgap.
    exact (RealAnalysis.round_trip_margin _ _ _
             RoundTripFacts.unit_roundoff_small OperationError.eta_pos
             RoundTripFacts.hmin_small RoundTripFacts.eta_small
             _ _ _ _ _ _ _ _ _ _ _ _ _ _ _ _ _
             Ht FloatError.value_17_67 FloatError.value_6_112 Hh Heps
             R1 R2 R3 R4 R5 R6 R7 R8 R9 R10 R11 R12 Hgap).
  - intros E100.
    assert (Hh100 : value RH = 100%R) by (rewrite E100; apply FloatError.value_100).
    pose proof (RealAnalysis.round_trip_below _ _ _
             RoundTripFacts.unit_roundoff_small OperationError.eta_pos
             RoundTripFacts.hmin_small RoundTripFacts.eta_small
             _ _ _ _ _ _ _ _ _ _ _ _ _ _ _ _ _
             Ht FloatError.value_17_67 FloatError.value_6_112 Hh Heps
             R1 R2 R3 R4 R5 R6 R7 R8 R9 R10 R11 R12 Hh100) as Hlo.
    apply Rabs_le. lra.
Qed.

Lemma C8_witness :
  (is_finite (calculateDewPoint reference_host
                (calculateSaturationVaporPressure reference_host 0 * 100 / 100)%float) = true /\
   (value (calculateDewPoint reference_host
             (calculateSaturationVaporPressure reference_host 0 * 100 / 100)%float)
    <= value 0 + tolerance 0)%R /\
   (Rabs (value (calculateDewPoint reference_host
                   (calculateSaturationVaporPressure reference_host 0 * 100 / 100)%float)
          - value 0) <= tolerance 0)%R) /\
  (is_finite (calculateDewPoint reference_host
                (calculateSaturationVaporPressure reference_host 0 * 50 / 100)%float) = true /\
   (value (calculateDewPoint reference_host
             (calculateSaturationVaporPressure reference_host 0 * 50 / 100)%float)
    <= value 0)%R).
Proof.
  split.
  - destruct (C8_round_trip reference_host 0 100 0) as (H1 & H2 & _ & H3);
      [reflexivity|reflexivity|reflexivity|reflexivity|lra
      |apply RoundTripFacts.reference_exp_at_zero; lra
      |apply RoundTripFacts.reference_log_at_one|].
    exact (conj H1 (conj H2 (H3 eq_refl))).
  - destruct (C8_round_trip reference_host 0 50 (/ 1000)) as (H1 & _ & H3 & _);
      [reflexivity|reflexivity|reflexivity|reflexivity|lra
      |apply RoundTripFacts.reference_exp_at_zero; lra
      |apply RoundTripFacts.reference_log_at_half|].
    split; [exact H1|]. apply H3.
    rewrite RoundTripFacts.value_50. unfold margin. lra.
Defined.

End RoundTrip.

(** C8 fails as stated: at [T = 0] and [RH = 0] the vapor pressure is 0, the
    logarithm is -Infinity and the computed dew point is NaN, which is not
    [<= T]; the same happens at the pole [T = -243.5] for [RH = 50].  On the
    reference host the saturation pressure at [T = -240] underflows to 0,
    and at [T = -30] the roundings leave the dew point of air a hair under
    saturation above [T].  On the crude host, which meets every value that
    ECMA-262 prescribes, air of 50 percent at [T = -30] gets the dew point
    0. *)
Lemma C8_counterexample :
  ((0 <? 100) = true /\
   calculateDewPoint reference_host
     (calculateSaturationVaporPressure reference_host 0 * 0 / 100) = NaN /\
   (calculateDewPoint reference_host
      (calculateSaturationVaporPressure reference_host 0 * 0 / 100) <=? 0) = false) /\
  ((50 <? 100) = true /\
   (calculateDewPoint reference_host
      (calculateSaturationVaporPressure reference_host (-243.5) * 50 / 100) <=? -243.5) = false) /\
  ((50 <? 100) = true /\
   (calculateDewPoint reference_host
      (calculateSaturationVaporPressure reference_host (-240) * 50 / 100) <=? -240) = false) /\
  ((99.99999999999999 <? 100) = true /\
   calculateDewPoint reference_host
     (calculateSaturationVaporPressure reference_host (-30) * 99.99999999999999 / 100)
     = -29.999999999999996 /\
   (calculateDewPoint reference_host
      (calculateSaturationVaporPressure reference_host (-30) * 99.99999999999999 / 100) <=? -30)
     = false) /\
  ((50 <? 100) = true /\
   calculateDewPoint crude_host
     (calculateSaturationVaporPressure crude_host (-30) * 50 / 100) = 0 /\
   (calculateDewPoint crude_host
      (calculateSaturationVaporPressure crude_host (-30) * 50 / 100) <=? -30) = false).
Proof.
  rewrite (Extremes.round_trip_dry_any_host reference_host).
  rewrite (Extremes.round_trip_pole_any_host reference_host).
  repeat split; vm_compute; reflexivity.
Qed.

(** C9. Two input snapshots with the same [outsideTemp] and
    [outsideHumidity] give the same [dewPoint] and the same
    [initialAbsoluteHumidity], whatever their other four fields. *)
Theorem C9_outside_air_only (host : MathHost) (i1 i2 : HvacInputs) :
  outsideTemp i1 = outsideTemp i2 ->
  outsideHumidity i1 = outsideHumidity i2 ->
  exists r1 r2,
    calculateHvacPerformance host i1 = Some r1 /\
    calculateHvacPerformance host i2 = Some r2 /\
    dewPoint r1 = dewPoint r2 /\
    initialAbsoluteHumidity r1 = initialAbsoluteHumidity r2.
Proof.
  intros Ht Hh. do 2 eexists.
  split; [apply Run.calculateHvacPerformance_eq|].
  split; [apply Run.calculateHvacPerformance_eq|].
  cbn [dewPoint initialAbsoluteHumidity]. rewrite Ht, Hh. split; reflexivity.
Qed.

Lemma C9_witness :
  exists r1 r2,
    calculateHvacPerformance reference_host Inputs.scenario_heating = Some r1 /\
    calculateHvacPerformance reference_host Inputs.scenario_heating_other_coil = Some r2 /\
    dewPoint r1 = dewPoint r2 /\
    initialAbsoluteHumidity r1 = initialAbsoluteHumidity r2.
Proof.
  apply (C9_outside_air_only reference_host
           Inputs.scenario_heating Inputs.scenario_heating_other_coil); reflexivity.
Defined.

(** C10 (as amended). [waterVolumeFlow] is never negative: it is NaN or at
    least 0 (possibly +Infinity).  [recommendedPipeDiameter] is always at
    least 0 (possibly +Infinity), and never NaN. *)
Theorem C10_never_negative (host : MathHost) (inputs : HvacInputs) :
  exists r, calculateHvacPerformance host inputs = Some r /\
    (waterVolumeFlow r <? 0) = false /\
    (is_nan (waterVolumeFlow r) = true \/ (0 <=? waterVolumeFlow r) = true) /\
    (0 <=? recommendedPipeDiameter r) = true.
Proof.
  eexists. split; [apply Run.calculateHvacPerformance_eq|].
  cbn [waterVolumeFlow recommendedPipeDiameter].
  rewrite SizingFacts.waterSizing_eq.
  destruct (0 <? Math_abs _) eqn:Hd; cbn [fst snd].
  - match goal with |- context [isFinite ?f] =>
      destruct (SizingFacts.flowOf_sign _ _ Hd : is_nan f = true \/ SF.nonneg f) as [Hn|Hp]
    end.
    + split; [apply FloatFacts.ltb_nan_l; assumption|]. split; [left; assumption|].
      unfold isFinite, is_finite. rewrite Hn. reflexivity.
    + pose proof (FloatFacts.nonneg_leb _ Hp) as Hle.
      split; [apply FloatFacts.leb_not_ltb; assumption|]. split; [right; assumption|].
      destruct (isFinite _).
      * apply FloatFacts.nonneg_leb, SizingFacts.diameterOf_nonneg. assumption.
      * reflexivity.
  - repeat split. right. reflexivity.
Qed.

(** C10 fails as stated: a volume flow of 1.7e308 overflows the air mass
    flow, the sensible power is Infinity * 0 = NaN, and so is the water
    volume flow, which is then not at least 0. *)
Lemma C10_counterexample :
  exists r,
    calculateHvacPerformance reference_host Inputs.overflowing_flow_chilled = Some r /\
    waterVolumeFlow r = NaN /\ (0 <=? waterVolumeFlow r) = false.
Proof.
  destruct (Extremes.overflowing_flow_chilled_any_host reference_host) as (r & Hr & Hw).
  exists r. split; [exact Hr|]. rewrite Hw. split; reflexivity.
Qed.

(** * Further properties of the code *)

(** ** The humidity formulas *)

(** X1.  [calculateDewPoint] is NaN, on every host, for every vapor
    pressure that is not a finite positive number: NaN, a zero of either
    sign, a negative number, or an infinity. *)
Theorem X1_dew_point_undefined (host : MathHost) (vaporPressure : number) :
  (isFinite vaporPressure && (0 <? vaporPressure)) = false ->
  calculateDewPoint host vaporPressure = NaN.
Proof.
  intros H. apply HumidityFacts.calculateDewPoint_nan.
  apply HumidityFacts.not_positive_finite_spec. exact H.
Qed.

Lemma X1_witness :
  (isFinite (-5) && (0 <? -5)) = false /\ calculateDewPoint reference_host (-5) = NaN.
Proof.
  split; [reflexivity|]. apply (X1_dew_point_undefined reference_host (-5)). reflexivity.
Defined.

(** X2.  For every input whose outside humidity is zero the engine reports
    a NaN dew point; when it is not heating it then takes the condensation
    branch, so that completely dry air leaves the cooler with a final
    humidity of 100 and the absolute humidity of saturated air. *)
Theorem X2_dry_air (host : MathHost) (inputs : HvacInputs) :
  (outsideHumidity inputs =? 0) = true ->
  exists r, calculateHvacPerformance host inputs = Some r /\
    dewPoint r = NaN /\
    (isHeating r = false ->
     finalHumidity r = 100 /\
     finalAbsoluteHumidity r =
       calculateAbsoluteHumidity (calculateSaturationVaporPressure host (targetTemp inputs))).
Proof.
  intros H. eexists. split; [apply Run.calculateHvacPerformance_eq|].
  cbn [dewPoint isHeating finalHumidity finalAbsoluteHumidity].
  rewrite (HumidityFacts.calculateDewPoint_nan host _
             (HumidityFacts.dry_vapor_pressure _ _ H)).
  split; [reflexivity|]. intros ->. unfold humidityPath.
  rewrite HumidityFacts.leb_nan_l. split; reflexivity.
Qed.

Lemma X2_witness :
  (outsideHumidity Inputs.dry_air_cooling =? 0) = true /\
  exists r, calculateHvacPerformance reference_host Inputs.dry_air_cooling = Some r /\
    dewPoint r = NaN /\ isHeating r = false /\ finalHumidity r = 100.
Proof.
  split; [reflexivity|].
  destruct (X2_dry_air reference_host Inputs.dry_air_cooling eq_refl) as (r & Hr & Hd & Hc).
  exists r. split; [exact Hr|]. split; [exact Hd|].
  assert (E := Hr). vm_compute in E. injection E as E.
  assert (Hh : isHeating r = false) by (rewrite <- E; reflexivity).
  split; [exact Hh|]. apply (Hc Hh).
Defined.

(** X3.  For a vapor pressure from 0 up to, but excluding, the atmospheric
    pressure [calculateAbsoluteHumidity] returns a number that is at least
    0, and in particular not NaN. *)
Theorem X3_absolute_humidity_below (vaporPressure : number) :
  (0 <=? vaporPressure) = true -> (vaporPressure <? ATMOSPHERIC_PRESSURE) = true ->
  (0 <=? calculateAbsoluteHumidity vaporPressure) = true.
Proof.
  intros H0 Hlt. unfold calculateAbsoluteHumidity.
  destruct HumidityFacts.atmospheric_pressure_repr as (ma & ea & HA & Hlog).
  (* the denominator is a positive finite number *)
  assert (Hd : exists my ey,
             Prim2SF (ATMOSPHERIC_PRESSURE - vaporPressure) = S754_finite false my ey).
  { pose proof (FloatFacts.sub_positive ATMOSPHERIC_PRESSURE vaporPressure) as Hpos.
    rewrite Hlt in Hpos. rewrite ltb_spec in Hpos.
    change (Prim2SF 0) with (S754_zero false) in Hpos.
    assert (Hno : Prim2SF (ATMOSPHERIC_PRESSURE - vaporPressure) <> S754_infinity false).
    { rewrite sub_spec, HA. apply RoundingFacts.SFsub_no_overflow.
      - rewrite <- HA. apply Prim2SF_valid.
      - apply Prim2SF_valid.
      - exact Hlog.
      - rewrite leb_spec in H0. exact H0. }
    destruct (Prim2SF (ATMOSPHERIC_PRESSURE - vaporPressure)) as [s|s| |s m e];
      try discriminate; destruct s; try discriminate; [contradiction|eauto]. }
  destruct Hd as (my & ey & Hy).
  (* the numerator is at least zero, and so is the quotient *)
  rewrite leb_spec, div_spec, mul_spec, Hy. change (Prim2SF 0) with (S754_zero false).
  destruct (Prim2SF 622) as [| | |s6 m6 e6] eqn:E6; try discriminate.
  assert (s6 = false) as -> by (vm_compute in E6; congruence).
  apply RoundingFacts.SFmul_div_ge0. rewrite leb_spec in H0. exact H0.
Qed.

Lemma X3_witness :
  (0 <=? 12) = true /\ (12 <? ATMOSPHERIC_PRESSURE) = true /\
  (0 <=? calculateAbsoluteHumidity 12) = true.
Proof.
  split; [reflexivity|]. split; [reflexivity|].
  apply (X3_absolute_humidity_below 12); reflexivity.
Defined.

(** X4.  At the atmospheric pressure [calculateAbsoluteHumidity] divides by
    zero and returns +Infinity; above it the result is NaN or at most 0.
    So from the atmospheric pressure on it never is a finite positive
    humidity. *)
Theorem X4_absolute_humidity_above (vaporPressure : number) :
  (ATMOSPHERIC_PRESSURE <=? vaporPressure) = true ->
  calculateAbsoluteHumidity vaporPressure = Infinity \/
  is_nan (calculateAbsoluteHumidity vaporPressure) = true \/
  (calculateAbsoluteHumidity vaporPressure <=? 0) = true.
Proof.
  intros H. destruct (HumidityFacts.leb_cases _ _ H) as [E|L].
  - left. rewrite <- (HumidityFacts.eqb_eq _ _ E eq_refl). reflexivity.
  - right. apply HumidityFacts.calculateAbsoluteHumidity_above. exact L.
Qed.

Lemma X4_witness :
  (ATMOSPHERIC_PRESSURE <=? 2000) = true /\
  (calculateAbsoluteHumidity 2000 <=? 0) = true /\
  (calculateAbsoluteHumidity 2000 = Infinity \/
   is_nan (calculateAbsoluteHumidity 2000) = true \/
   (calculateAbsoluteHumidity 2000 <=? 0) = true).
Proof.
  split; [reflexivity|]. split; [reflexivity|].
  apply (X4_absolute_humidity_above 2000). reflexivity.
Defined.

(** ** The water side and the frame of the inputs *)

(** X5.  Exchanging the supply and the return temperature changes neither
    the water volume flow nor the pipe diameter, nor any result of the air
    side; only the efficiency may change. *)
Theorem X5_supply_and_return_exchanged (host : MathHost) (inputs : HvacInputs) :
  let exchanged :=
    App.handleInputChange App.key_supplyTemp (returnTemp inputs)
      (App.handleInputChange App.key_returnTemp (supplyTemp inputs) inputs) in
  exists r r',
    calculateHvacPerformance host inputs = Some r /\
    calculateHvacPerformance host exchanged = Some r' /\
    waterVolumeFlow r' = waterVolumeFlow r /\
    recommendedPipeDiameter r' = recommendedPipeDiameter r /\
    sensiblePower r' = sensiblePower r /\
    latentPower r' = latentPower r /\
    totalPower r' = totalPower r /\
    finalHumidity r' = finalHumidity r /\
    isHeating r' = isHeating r /\
    dewPoint r' = dewPoint r /\
    initialAbsoluteHumidity r' = initialAbsoluteHumidity r /\
    finalAbsoluteHumidity r' = finalAbsoluteHumidity r.
Proof.
  intros exchanged. eexists. eexists.
  split; [apply Run.calculateHvacPerformance_eq|].
  split; [apply Run.calculateHvacPerformance_eq|].
  cbn [waterVolumeFlow recommendedPipeDiameter sensiblePower latentPower totalPower
       finalHumidity isHeating dewPoint initialAbsoluteHumidity finalAbsoluteHumidity
       exchanged App.handleInputChange outsideTemp outsideHumidity volumeFlow targetTemp
       supplyTemp returnTemp].
  rewrite (EngineFacts.waterSizing_swap _ (returnTemp inputs) (supplyTemp inputs)).
  repeat split; reflexivity.
Qed.

(** X6.  Setting the return temperature, whatever the value, changes only
    the water volume flow and the pipe diameter: the nine other results
    stay as they were. *)
Theorem X6_return_temperature_frame (host : MathHost) (inputs : HvacInputs) (value : number) :
  exists r r',
    calculateHvacPerformance host inputs = Some r /\
    calculateHvacPerformance host (App.handleInputChange App.key_returnTemp value inputs)
      = Some r' /\
    sensiblePower r' = sensiblePower r /\
    latentPower r' = latentPower r /\
    totalPower r' = totalPower r /\
    finalHumidity r' = finalHumidity r /\
    isHeating r' = isHeating r /\
    dewPoint r' = dewPoint r /\
    initialAbsoluteHumidity r' = initialAbsoluteHumidity r /\
    finalAbsoluteHumidity r' = finalAbsoluteHumidity r /\
    efficiency r' = efficiency r.
Proof.
  eexists. eexists.
  split; [apply Run.calculateHvacPerformance_eq|].
  split; [apply Run.calculateHvacPerformance_eq|].
  repeat split; reflexivity.
Qed.

(** X7.  Setting the air volume flow, whatever the value, leaves the mode,
    the dew point, the final relative humidity, both absolute humidities
    and the efficiency as they were: the flow scales powers and water
    sizing only. *)
Theorem X7_volume_flow_frame (host : MathHost) (inputs : HvacInputs) (value : number) :
  exists r r',
    calculateHvacPerformance host inputs = Some r /\
    calculateHvacPerformance host (App.handleInputChange App.key_volumeFlow value inputs)
      = Some r' /\
    isHeating r' = isHeating r /\
    dewPoint r' = dewPoint r /\
    finalHumidity r' = finalHumidity r /\
    initialAbsoluteHumidity r' = initialAbsoluteHumidity r /\
    finalAbsoluteHumidity r' = finalAbsoluteHumidity r /\
    efficiency r' = efficiency r.
Proof.
  eexists. eexists.
  split; [apply Run.calculateHvacPerformance_eq|].
  split; [apply Run.calculateHvacPerformance_eq|].
  cbn [isHeating dewPoint finalHumidity initialAbsoluteHumidity finalAbsoluteHumidity
       efficiency App.handleInputChange outsideTemp outsideHumidity volumeFlow targetTemp
       supplyTemp returnTemp].
  unfold humidityPath.
  repeat split; try reflexivity;
    destruct (0 <? targetTemp inputs - outsideTemp inputs);
    try reflexivity; destruct (_ <=? targetTemp inputs); reflexivity.
Qed.

(** ** Efficiency *)

(** X8.  When the target temperature is finite and equals the outside
    temperature the engine is not heating, the efficiency is 0, and the
    sensible power is zero, or NaN when the air mass flow is not finite. *)
Theorem X8_equal_temperatures (host : MathHost) (inputs : HvacInputs) :
  isFinite (targetTemp inputs) = true ->
  (targetTemp inputs =? outsideTemp inputs) = true ->
  exists r, calculateHvacPerformance host inputs = Some r /\
    isHeating r = false /\
    efficiency r = 0 /\
    (is_nan (sensiblePower r) = true \/ (sensiblePower r =? 0) = true).
Proof.
  intros Hf He. eexists. split; [apply Run.calculateHvacPerformance_eq|].
  cbn [isHeating efficiency sensiblePower].
  destruct (DifferenceFacts.sub_eq_zero _ _ Hf He) as [s Hs].
  assert (Hh : (0 <? targetTemp inputs - outsideTemp inputs) = false).
  { rewrite FloatFacts.sub_positive.
    destruct (FloatFacts.eqb_not_ltb _ _ He) as [_ ->]. reflexivity. }
  rewrite Hh. split; [reflexivity|].
  split; [apply (EngineFacts.efficiencyOf_idle _ _ _ s Hs)|].
  apply (EngineFacts.mul_zero _ _ s Hs).
Qed.

Lemma X8_witness :
  isFinite (targetTemp Inputs.overflowing_flow) = true /\
  (targetTemp Inputs.overflowing_flow =? outsideTemp Inputs.overflowing_flow) = true /\
  exists r, calculateHvacPerformance reference_host Inputs.overflowing_flow = Some r /\
    isHeating r = false /\ efficiency r = 0 /\ is_nan (sensiblePower r) = true.
Proof.
  split; [reflexivity|]. split; [reflexivity|].
  destruct (X8_equal_temperatures reference_host Inputs.overflowing_flow eq_refl eq_refl)
    as (r & Hr & Hh & Hz & _).
  exists r. split; [exact Hr|]. split; [exact Hh|]. split; [exact Hz|].
  assert (E := Hr). vm_compute in E. injection E as E. rewrite <- E. reflexivity.
Defined.

(** X9.  A coil on the wrong side has efficiency 0: heating with a supply
    temperature at or below the outside temperature, or not heating with a
    supply temperature at or above it. *)
Theorem X9_coil_on_the_wrong_side (host : MathHost) (inputs : HvacInputs) :
  (if outsideTemp inputs <? targetTemp inputs
   then supplyTemp inputs <=? outsideTemp inputs
   else outsideTemp inputs <=? supplyTemp inputs) = true ->
  exists r, calculateHvacPerformance host inputs = Some r /\ efficiency r = 0.
Proof.
  intros H. eexists. split; [apply Run.calculateHvacPerformance_eq|].
  cbn [efficiency]. rewrite FloatFacts.sub_positive.
  apply EngineFacts.efficiencyOf_wrong_side. exact H.
Qed.

Lemma X9_witness :
  (if outsideTemp Scenarios.hot_coil_while_cooling <? targetTemp Scenarios.hot_coil_while_cooling
   then supplyTemp Scenarios.hot_coil_while_cooling <=? outsideTemp Scenarios.hot_coil_while_cooling
   else outsideTemp Scenarios.hot_coil_while_cooling <=? supplyTemp Scenarios.hot_coil_while_cooling)
    = true /\
  exists r, calculateHvacPerformance reference_host Scenarios.hot_coil_while_cooling = Some r /\
    efficiency r = 0.
Proof.
  split; [reflexivity|].
  apply (X9_coil_on_the_wrong_side reference_host Scenarios.hot_coil_while_cooling). reflexivity.
Defined.

(** ** The sign of the powers *)

(** X10.  With a volume flow of at least 0 the sign of the powers agrees
    with the mode: when heating, the sensible and the total power are NaN
    or at least 0 and the latent power is 0; otherwise the sensible, the
    latent and the total power are each NaN or at most 0.  So the power
    tile, which shows the absolute value of the total power under a label
    chosen by the mode, never hides a power of the opposite sign. *)
Theorem X10_power_sign (host : MathHost) (inputs : HvacInputs) :
  (0 <=? volumeFlow inputs) = true ->
  exists r, calculateHvacPerformance host inputs = Some r /\
    if isHeating r then
      (is_nan (sensiblePower r) = true \/ (0 <=? sensiblePower r) = true) /\
      latentPower r = 0 /\
      (is_nan (totalPower r) = true \/ (0 <=? totalPower r) = true)
    else
      (is_nan (sensiblePower r) = true \/ (sensiblePower r <=? 0) = true) /\
      (is_nan (latentPower r) = true \/ (latentPower r <=? 0) = true) /\
      (is_nan (totalPower r) = true \/ (totalPower r <=? 0) = true).
Proof.
  intros H. eexists. split; [apply Run.calculateHvacPerformance_eq|].
  cbn [isHeating sensiblePower latentPower totalPower].
  pose proof (SignFacts.sensible_sign _ (targetTemp inputs) (outsideTemp inputs) H) as Hs.
  destruct (0 <? targetTemp inputs - outsideTemp inputs); cbn [negb] in Hs.
  - destruct (SignFacts.latent_sign host (volumeFlow inputs * AIR_DENSITY / 3600)
                (targetTemp inputs)
                (outsideHumidity inputs / 100 *
                 calculateSaturationVaporPressure host (outsideTemp inputs))
                (calculateDewPoint host (outsideHumidity inputs / 100 *
                   calculateSaturationVaporPressure host (outsideTemp inputs)))
                (calculateAbsoluteHumidity (outsideHumidity inputs / 100 *
                   calculateSaturationVaporPressure host (outsideTemp inputs))))
      as [-> _].
    split; [apply (SignFacts.nan_or_leb false), Hs|]. split; [reflexivity|].
    apply (SignFacts.nan_or_leb false), SignFacts.nan_or_add_zero, Hs.
  - match goal with
    | |- context [snd ?p] =>
        assert (Hl : Signs.nan_or true (snd p)) by apply SignFacts.latent_sign
    end.
    split; [apply (SignFacts.nan_or_leb true), Hs|].
    split; [apply (SignFacts.nan_or_leb true), Hl|].
    apply (SignFacts.nan_or_leb true), SignFacts.nan_or_add; assumption.
Qed.

Lemma X10_witness :
  (0 <=? volumeFlow Inputs.scenario_cooling) = true /\
  exists r, calculateHvacPerformance reference_host Inputs.scenario_cooling = Some r /\
    isHeating r = false /\
    (sensiblePower r <=? 0) = true /\ (latentPower r <? 0) = true /\
    (totalPower r <=? 0) = true /\
    (is_nan (totalPower r) = true \/ (totalPower r <=? 0) = true).
Proof.
  split; [reflexivity|].
  destruct (X10_power_sign reference_host Inputs.scenario_cooling eq_refl) as (r & Hr & H).
  exists r. split; [exact Hr|].
  assert (E := Hr). vm_compute in E. injection E as E.
  assert (Hh : isHeating r = false) by (rewrite <- E; reflexivity).
  rewrite Hh in H. destruct H as (_ & _ & Ht).
  split; [exact Hh|].
  split; [rewrite <- E; reflexivity|]. split; [rewrite <- E; reflexivity|].
  split; [rewrite <- E; reflexivity|]. exact Ht.
Defined.

(** ** The number box of a slider *)

Import String.

(** X11.  When a number box loses focus, [handleInputBlur] either reverts
    the box to the text of the current value, exactly when [parseFloat]
    gives NaN, or calls [onChange] with a number that is not NaN, whatever
    the bounds of the slider are; an empty box is always a revert. *)
Theorem X11_blur_never_commits_nan (strings : JSString.StringHost)
    (props : Slider.InputSliderProps) (target_value : String.string) :
  match Slider.handleInputBlur strings props target_value with
  | Slider.setDisplayValue displayValue =>
      is_nan (JSString.parseFloat target_value) = true /\
      displayValue = JSString.Number_toString (Slider.value props)
  | Slider.onChange value =>
      is_nan (JSString.parseFloat target_value) = false /\ is_nan value = false
  end /\
  Slider.handleInputBlur strings props String.EmptyString =
  Slider.setDisplayValue (JSString.Number_toString (Slider.value props)).
Proof.
  split.
  - destruct (is_nan (JSString.parseFloat target_value)) eqn:E.
    + rewrite SliderFacts.handleInputBlur_text by assumption. split; reflexivity.
    + rewrite SliderFacts.handleInputBlur_number by assumption.
      split; [reflexivity|]. apply SliderFacts.clamp_not_nan. assumption.
  - apply SliderFacts.handleInputBlur_text. rewrite JSString.parseFloat_empty. reflexivity.
Qed.

(** X12.  When the text of a number box parses to a number and the slider
    has [min <= max], [handleInputBlur] calls [onChange] with a value
    between [min] and [max], and with the parsed number itself when that
    already lies in the range. *)
Theorem X12_blur_clamps (strings : JSString.StringHost)
    (props : Slider.InputSliderProps) (target_value : String.string) :
  is_nan (JSString.parseFloat target_value) = false ->
  (Slider.min props <=? Slider.max props) = true ->
  exists value,
    Slider.handleInputBlur strings props target_value = Slider.onChange value /\
    (Slider.min props <=? value) = true /\
    (value <=? Slider.max props) = true /\
    ((Slider.min props <=? JSString.parseFloat target_value) = true ->
     (JSString.parseFloat target_value <=? Slider.max props) = true ->
     value = JSString.parseFloat target_value).
Proof.
  intros Hn Hle. eexists. split; [apply SliderFacts.handleInputBlur_number; assumption|].
  destruct (SliderFacts.clamp_between _ _ _ Hn Hle) as [H1 H2].
  split; [exact H1|]. split; [exact H2|]. apply SliderFacts.clamp_inside.
Qed.

Lemma X12_witness :
  is_nan (@JSString.parseFloat reference_strings "99"%string) = false /\
  (Slider.min (App.slider App.key_outsideTemp App.initialInputs) <=?
   Slider.max (App.slider App.key_outsideTemp App.initialInputs)) = true /\
  Slider.handleInputBlur reference_strings
    (App.slider App.key_outsideTemp App.initialInputs) "99"%string = Slider.onChange 50.
Proof.
  split; [reflexivity|]. split; [reflexivity|].
  destruct (X12_blur_clamps reference_strings
              (App.slider App.key_outsideTemp App.initialInputs) "99"%string eq_refl eq_refl)
    as (value & Hv & _).
  assert (E := Hv). vm_compute in E. injection E as E.
  rewrite Hv, <- E. reflexivity.
Defined.

(** ** The component *)

(** X13.  Starting from the initial inputs, after any sequence of slider
    moves and number-box entries every input lies within the range of its
    slider, provided the range inputs of the browser report values within
    their [min] and [max]: the text entries are clamped by the code. *)
Theorem X13_inputs_stay_in_range (host : MathHost) (strings : JSString.StringHost)
    (events : list App.event) :
  List.forallb (Ranges.rangeInput strings) events = true ->
  Ranges.allWithinRange (App.inputs (App.run host strings events)) = true.
Proof.
  intros H. unfold App.run. apply AppFacts.fold_withinRange; [exact H|reflexivity].
Qed.

Lemma X13_witness :
  List.forallb (Ranges.rangeInput reference_strings) Scenarios.session = true /\
  Ranges.allWithinRange
    (App.inputs (App.run reference_host reference_strings Scenarios.session)) = true /\
  App.inputs (App.run reference_host reference_strings Scenarios.session) =
  {| outsideTemp := 50; outsideHumidity := 60; volumeFlow := 5000;
     targetTemp := 22; supplyTemp := 60; returnTemp := 40 |}.
Proof.
  split; [reflexivity|].
  split; [|vm_compute; reflexivity].
  apply (X13_inputs_stay_in_range reference_host reference_strings Scenarios.session).
  reflexivity.
Defined.

(** X14.  After mounting and after every event the badge and the power
    tile agree with the inputs: they show heating exactly when the target
    temperature is above the outside temperature, and the badge never
    stays at its placeholder ['Berechnung']. *)
Theorem X14_badge_follows_temperatures (host : MathHost) (strings : JSString.StringHost)
    (events : list App.event) :
  let state := App.run host strings events in
  let heating := outsideTemp (App.inputs state) <? targetTemp (App.inputs state) in
  App.operationType (App.results state) =
    (if heating then "Heizbetrieb" else "Kühlbetrieb")%string /\
  App.operationColor (App.results state) =
    (if heating then "bg-red-500" else "bg-blue-500")%string /\
  exists r, App.results state = Some r /\
    ResultCard.label (App.powerCard r) =
      (if heating then "Heizleistung" else "Gesamt-Kühlleistung")%string /\
    ResultCard.colorClass (App.powerCard r) =
      (if heating then "bg-red-500" else "bg-blue-500")%string.
Proof.
  intros state heating. subst heating state.
  rewrite (AppFacts.run_settled host strings events).
  rewrite Run.calculateHvacPerformance_eq.
  cbn [App.operationType App.operationColor isHeating].
  rewrite FloatFacts.sub_positive.
  split; [reflexivity|]. split; [reflexivity|].
  eexists. split; [reflexivity|].
  unfold App.powerCard. cbn [ResultCard.label ResultCard.colorClass isHeating].
  split; reflexivity.
Qed.

(** X15.  With equal supply and return temperatures the water-flow tile
    and the pipe tile both show ['N/A'], as their tooltips say. *)
Theorem X15_equal_water_temperatures (host : MathHost) (inputs : HvacInputs) :
  (supplyTemp inputs =? returnTemp inputs) = true ->
  exists r, calculateHvacPerformance host inputs = Some r /\
    ResultCard.value (App.waterFlowCard r) = JSString.literal "N/A"%string /\
    ResultCard.value (App.pipeDiameterCard r) = JSString.literal "N/A"%string.
Proof.
  intros H. eexists. split; [apply Run.calculateHvacPerformance_eq|].
  unfold App.waterFlowCard, App.pipeDiameterCard.
  cbn [ResultCard.value waterVolumeFlow recommendedPipeDiameter].
  rewrite (EngineFacts.waterSizing_equal _ _ _ H). split; reflexivity.
Qed.

Lemma X15_witness :
  (supplyTemp Inputs.idle_water_loop =? returnTemp Inputs.idle_water_loop) = true /\
  exists r, calculateHvacPerformance reference_host Inputs.idle_water_loop = Some r /\
    ResultCard.value (App.waterFlowCard r) = JSString.literal "N/A"%string /\
    ResultCard.value (App.pipeDiameterCard r) = JSString.literal "N/A"%string.
Proof.
  split; [reflexivity|].
  apply (X15_equal_water_temperatures reference_host Inputs.idle_water_loop). reflexivity.
Defined.

(** X16.  The two water-side tiles never show NaN, an infinity or a
    negative number: each shows ['N/A'] or the [toFixed] text of a finite
    number that is at least 0; and whenever the water-flow tile shows
    ['N/A'], so does the pipe tile. *)
Theorem X16_water_tiles (host : MathHost) (inputs : HvacInputs) :
  exists r, calculateHvacPerformance host inputs = Some r /\
    (ResultCard.value (App.waterFlowCard r) = JSString.literal "N/A"%string \/
     exists x, ResultCard.value (App.waterFlowCard r) = JSString.Number_toFixed x 3 /\
               isFinite x = true /\ (0 <=? x) = true) /\
    (ResultCard.value (App.pipeDiameterCard r) = JSString.literal "N/A"%string \/
     exists x, ResultCard.value (App.pipeDiameterCard r) = JSString.Number_toFixed x 0 /\
               isFinite x = true /\ (0 <=? x) = true) /\
    (ResultCard.value (App.waterFlowCard r) = JSString.literal "N/A"%string ->
     ResultCard.value (App.pipeDiameterCard r) = JSString.literal "N/A"%string).
Proof.
  eexists. split; [apply Run.calculateHvacPerformance_eq|].
  unfold App.waterFlowCard, App.pipeDiameterCard.
  cbn [ResultCard.value waterVolumeFlow recommendedPipeDiameter].
  rewrite SizingFacts.waterSizing_eq. cbv zeta.
  destruct (0 <? Math_abs _) eqn:Hd; cbn [fst snd].
  - destruct (isFinite (flowOf _ _)) eqn:Hf.
    + match type of Hf with
      | isFinite (flowOf ?p ?d) = true =>
          assert (Hn : SF.nonneg (flowOf p d));
          [destruct (SizingFacts.flowOf_sign p d Hd) as [Hnan|Hn];
           [rewrite (DifferenceFacts.finite_not_nan _ Hf) in Hnan; discriminate|exact Hn]|]
      end.
      split; [right; eexists; split; [reflexivity|];
              split; [exact Hf|apply FloatFacts.nonneg_leb, Hn]|].
      split; [|intros; discriminate].
      destruct (isFinite (diameterOf _)) eqn:Hfd; [right|left; reflexivity].
      eexists. split; [reflexivity|]. split; [exact Hfd|].
      apply FloatFacts.nonneg_leb, SizingFacts.diameterOf_nonneg, Hn.
    + split; [left; reflexivity|]. split; [left; reflexivity|]. reflexivity.
  - split; [left; reflexivity|]. split; [left; reflexivity|]. reflexivity.
Qed.
